(** * Media pipeline of the Watchman player: AVI demuxer, MJPEG decode
      front end, audio volume stage and playback controller.

    A shallow embedding of
      - components/video/avi_parser.c      (container demultiplexer),
      - components/video/mjpeg_decoder.c   (decode stage, size validation),
      - the audio player (apply_volume, audio_player_write),
      - the video player (open / close / pause / queries),
    together with the properties of the specification that concern them.

    Target conventions (ESP32, ILP32, little endian): [uint32_t], [size_t]
    and [long] are 32 bits wide, [uint16_t] is 16 bits wide.  Unsigned
    arithmetic wraps; a [uint32_t] passed where a [long] is expected is
    reinterpreted as a signed 32-bit value. *)

From Stdlib Require Import String Ascii.
From Stdlib Require Import Strings.Byte.
From Stdlib Require Import ZArith List Bool Lia.
Import ListNotations.

Local Open Scope Z_scope.

(* ================================================================== *)
(** ** Machine integers *)

Definition u8  (x : Z) : Z := x mod 2^8.
Definition u16 (x : Z) : Z := x mod 2^16.
Definition u32 (x : Z) : Z := x mod 2^32.
Definition u64 (x : Z) : Z := x mod 2^64.

Definition UINT32_MAX : Z := 2^32 - 1.
Definition LONG_MAX : Z := 2^31 - 1.

(** Conversion of a 32-bit pattern to [long] / [int32_t]. *)
Definition to_long (x : Z) : Z :=
  let y := u32 x in if y <? 2^31 then y else y - 2^32.

(** Conversion of a 16-bit pattern to [int16_t]. *)
Definition to_int16 (x : Z) : Z :=
  let y := u16 x in if y <? 2^15 then y else y - 2^16.

(* ================================================================== *)
(** ** Bytes *)

Definition byte := Byte.byte.

Definition byte_val (b : byte) : Z := Z.of_N (Byte.to_N b).

Definition byte_of_Z (z : Z) : byte :=
  match Byte.of_N (Z.to_N (u8 z)) with
  | Some b => b
  | None => x00
  end.

(** The value assembled by [buf[0] | (buf[1] << 8) | (buf[2] << 16) |
    (buf[3] << 24)], as a [uint32_t]. *)
Definition le32 (b0 b1 b2 b3 : byte) : Z :=
  u32 (Z.lor (byte_val b0)
        (Z.lor (Z.shiftl (byte_val b1) 8)
          (Z.lor (Z.shiftl (byte_val b2) 16) (Z.shiftl (byte_val b3) 24)))).

Definition le16 (b0 b1 : byte) : Z :=
  u16 (Z.lor (byte_val b0) (Z.shiftl (byte_val b1) 8)).

(** Little-endian layout of a 32-bit / 16-bit value (used to write
    container images and to move samples in and out of byte buffers). *)
Definition le32_bytes (v : Z) : list byte :=
  [ byte_of_Z v; byte_of_Z (Z.shiftr v 8);
    byte_of_Z (Z.shiftr v 16); byte_of_Z (Z.shiftr v 24) ].

Definition le16_bytes (v : Z) : list byte :=
  [ byte_of_Z v; byte_of_Z (Z.shiftr v 8) ].

(* ================================================================== *)
(** ** The C stream ([FILE *]) as far as the parser uses it *)

Record FILE := mkFILE {
  fpath : string;        (* name the stream was opened with *)
  fdata : list byte;     (* contents of the file *)
  fpos  : Z;             (* file position indicator *)
  feof  : bool           (* end-of-file indicator *)
}.

(** [fread(buf, 1, n, f)]: the bytes obtained and the stream afterwards.
    Fewer than [n] bytes are obtained only at the end of the file, which
    sets the end-of-file indicator. *)
Definition fread (f : FILE) (n : Z) : list byte * FILE :=
  let got := firstn (Z.to_nat n) (skipn (Z.to_nat (fpos f)) (fdata f)) in
  let k := Z.of_nat (length got) in
  (got, mkFILE (fpath f) (fdata f) (fpos f + k) (feof f || (k <? n))).

(** [fseek(f, off, SEEK_CUR)] with [off] already a [long].  A position
    that is negative or not representable is refused and leaves the
    stream as it was; a successful call clears the end-of-file
    indicator.  Every caller ignores the return value. *)
Definition fseek_cur (f : FILE) (off : Z) : FILE :=
  let np := fpos f + off in
  if (0 <=? np) && (np <=? LONG_MAX)
  then mkFILE (fpath f) (fdata f) np false
  else f.

(** [fseek(f, off, SEEK_SET)]. *)
Definition fseek_set (f : FILE) (off : Z) : FILE :=
  if (0 <=? off) && (off <=? LONG_MAX)
  then mkFILE (fpath f) (fdata f) off false
  else f.

Definition ftell (f : FILE) : Z := fpos f.

Definition read_le32 (f : FILE) : Z * FILE :=
  let '(buf, f') := fread f 4 in
  match buf with
  | [b0; b1; b2; b3] => (le32 b0 b1 b2 b3, f')
  | _ => (0, f')
  end.

Definition read_le16 (f : FILE) : Z * FILE :=
  let '(buf, f') := fread f 2 in
  match buf with
  | [b0; b1] => (le16 b0 b1, f')
  | _ => (0, f')
  end.

Definition read_fourcc (f : FILE) : Z * FILE := read_le32 f.

(* ================================================================== *)
(** ** Error codes (esp_err_t) *)

Inductive esp_err_t : Type :=
| ESP_OK
| ESP_FAIL
| ESP_ERR_NO_MEM
| ESP_ERR_INVALID_ARG
| ESP_ERR_INVALID_STATE
| ESP_ERR_INVALID_SIZE
| ESP_ERR_NOT_FOUND
| ESP_ERR_NOT_SUPPORTED
| ESP_ERR_OTHER (code : Z).   (* any other code of an external component *)

Definition esp_err_is_ok (e : esp_err_t) : bool :=
  match e with ESP_OK => true | _ => false end.

(* ================================================================== *)
(** ** avi_parser.h: FOURCC codes and records *)

Definition FOURCC_RIFF : Z := 0x46464952.
Definition FOURCC_AVI  : Z := 0x20495641.
Definition FOURCC_LIST : Z := 0x5453494C.
Definition FOURCC_HDRL : Z := 0x6C726468.
Definition FOURCC_STRL : Z := 0x6C727473.
Definition FOURCC_MOVI : Z := 0x69766F6D.
Definition FOURCC_AVIH : Z := 0x68697661.
Definition FOURCC_STRH : Z := 0x68727473.
Definition FOURCC_STRF : Z := 0x66727473.
Definition FOURCC_VIDS : Z := 0x73646976.
Definition FOURCC_AUDS : Z := 0x73647561.
Definition FOURCC_MJPG : Z := 0x47504A4D.
Definition FOURCC_00DC : Z := 0x63643030.
Definition FOURCC_01WB : Z := 0x62773130.

Record avi_main_header_t := mk_main_header {
  micro_sec_per_frame : Z;
  max_bytes_per_sec : Z;
  mh_total_frames : Z;
  streams : Z;
  suggested_buffer_size : Z;
  mh_width : Z;
  mh_height : Z
}.

Record avi_video_info_t := mk_video_info {
  vi_width : Z;
  vi_height : Z;
  bit_count : Z;
  compression : Z;
  vi_found : bool
}.

Record avi_audio_info_t := mk_audio_info {
  format_tag : Z;
  channels : Z;
  samples_per_sec : Z;
  avg_bytes_per_sec : Z;
  block_align : Z;
  bits_per_sample : Z;
  ai_found : bool
}.

Record avi_parser_t := mk_parser {
  file : option FILE;            (* None is the NULL pointer *)
  main_header : avi_main_header_t;
  video_info : avi_video_info_t;
  audio_info : avi_audio_info_t;
  movi_offset : Z;
  movi_size : Z;
  current_frame : Z;
  total_frames : Z;
  initialized : bool
}.

(** The state left by [memset(parser, 0, sizeof(avi_parser_t))]. *)
Definition zero_parser : avi_parser_t :=
  mk_parser None (mk_main_header 0 0 0 0 0 0 0)
            (mk_video_info 0 0 0 0 false)
            (mk_audio_info 0 0 0 0 0 0 false)
            0 0 0 0 false.

(** mjpeg_decoder.h: a frame chunk.  [fr_data] is the heap block the
    [data] pointer designates. *)
Inductive heap_ptr : Type :=
| Null
| Block (bytes : list byte)
| Freed.

Record mjpeg_frame_t := mk_frame {
  fr_data : heap_ptr;
  fr_size : Z;
  frame_num : Z;
  timestamp_ms : Z
}.

(* ================================================================== *)
(** ** A state monad over the parser handle

    The parse routines receive [avi_parser_t *parser] and work on
    [parser->file].  A computation yields no result ([None]) when it
    would go through a NULL stream pointer or when the iteration budget
    of a loop is used up. *)

Definition M (A : Type) : Type := avi_parser_t -> option (A * avi_parser_t).

Definition ret {A} (a : A) : M A := fun p => Some (a, p).

Definition bind {A B} (c : M A) (k : A -> M B) : M B :=
  fun p => match c p with
           | Some (a, p') => k a p'
           | None => None
           end.

Definition stuck {A} : M A := fun _ => None.

Declare Scope parser_scope.
Delimit Scope parser_scope with parser.
Notation "x <- c ;; k" := (bind c (fun x => k))
  (at level 61, c at next level, right associativity) : parser_scope.
Notation "c ;;; k" := (bind c (fun _ => k))
  (at level 61, right associativity) : parser_scope.

Definition set_file (p : avi_parser_t) (f : option FILE) : avi_parser_t :=
  mk_parser f (main_header p) (video_info p) (audio_info p)
            (movi_offset p) (movi_size p) (current_frame p)
            (total_frames p) (initialized p).

Definition set_main_header (p : avi_parser_t) (h : avi_main_header_t) :=
  mk_parser (file p) h (video_info p) (audio_info p)
            (movi_offset p) (movi_size p) (current_frame p)
            (total_frames p) (initialized p).

Definition set_video_info (p : avi_parser_t) (v : avi_video_info_t) :=
  mk_parser (file p) (main_header p) v (audio_info p)
            (movi_offset p) (movi_size p) (current_frame p)
            (total_frames p) (initialized p).

Definition set_audio_info (p : avi_parser_t) (a : avi_audio_info_t) :=
  mk_parser (file p) (main_header p) (video_info p) a
            (movi_offset p) (movi_size p) (current_frame p)
            (total_frames p) (initialized p).

Definition set_movi (p : avi_parser_t) (off sz : Z) :=
  mk_parser (file p) (main_header p) (video_info p) (audio_info p)
            off sz (current_frame p) (total_frames p) (initialized p).

Definition set_current_frame (p : avi_parser_t) (n : Z) :=
  mk_parser (file p) (main_header p) (video_info p) (audio_info p)
            (movi_offset p) (movi_size p) n (total_frames p) (initialized p).

Definition set_total_frames (p : avi_parser_t) (n : Z) :=
  mk_parser (file p) (main_header p) (video_info p) (audio_info p)
            (movi_offset p) (movi_size p) (current_frame p) n (initialized p).

Definition set_initialized (p : avi_parser_t) (b : bool) :=
  mk_parser (file p) (main_header p) (video_info p) (audio_info p)
            (movi_offset p) (movi_size p) (current_frame p)
            (total_frames p) b.

(** Stream operations lifted to [parser->file]. *)
Definition on_file {A} (op : FILE -> A * FILE) : M A :=
  fun p => match file p with
           | Some f => let '(a, f') := op f in Some (a, set_file p (Some f'))
           | None => None
           end.

Definition rd_le32 : M Z := on_file read_le32.
Definition rd_le16 : M Z := on_file read_le16.
Definition rd_fourcc : M Z := on_file read_fourcc.
Definition rd_bytes (n : Z) : M (list byte) := on_file (fun f => fread f n).
Definition seek_cur (off : Z) : M unit :=
  on_file (fun f => (tt, fseek_cur f off)).
Definition seek_set (off : Z) : M unit :=
  on_file (fun f => (tt, fseek_set f off)).
Definition tell : M Z := on_file (fun f => (ftell f, f)).
Definition at_eof : M bool := on_file (fun f => (feof f, f)).

Definition get {A} (proj : avi_parser_t -> A) : M A :=
  fun p => Some (proj p, p).
Definition modify (upd : avi_parser_t -> avi_parser_t) : M unit :=
  fun p => Some (tt, upd p).

(** [long remaining = size - k; if (remaining > 0) fseek(..., remaining,
    SEEK_CUR);] where [size] is a [uint32_t]. *)
Definition skip_remaining (size k : Z) : M unit :=
  let remaining := to_long (u32 (size - k)) in
  if 0 <? remaining then seek_cur remaining else ret tt.

Local Open Scope parser_scope.

(* ================================================================== *)
(** ** avi_parser.c: header parsing *)

Definition upd_mh (g : avi_main_header_t -> avi_main_header_t) : M unit :=
  modify (fun p => set_main_header p (g (main_header p))).
Definition upd_vi (g : avi_video_info_t -> avi_video_info_t) : M unit :=
  modify (fun p => set_video_info p (g (video_info p))).
Definition upd_ai (g : avi_audio_info_t -> avi_audio_info_t) : M unit :=
  modify (fun p => set_audio_info p (g (audio_info p))).

Definition parse_avih (size : Z) : M esp_err_t :=
  v <- rd_le32 ;;
  upd_mh (fun h => mk_main_header v (max_bytes_per_sec h) (mh_total_frames h)
                     (streams h) (suggested_buffer_size h) (mh_width h) (mh_height h)) ;;;
  v <- rd_le32 ;;
  upd_mh (fun h => mk_main_header (micro_sec_per_frame h) v (mh_total_frames h)
                     (streams h) (suggested_buffer_size h) (mh_width h) (mh_height h)) ;;;
  seek_cur 4 ;;;                       (* padding *)
  seek_cur 4 ;;;                       (* flags *)
  v <- rd_le32 ;;
  upd_mh (fun h => mk_main_header (micro_sec_per_frame h) (max_bytes_per_sec h) v
                     (streams h) (suggested_buffer_size h) (mh_width h) (mh_height h)) ;;;
  seek_cur 4 ;;;                       (* initial frames *)
  v <- rd_le32 ;;
  upd_mh (fun h => mk_main_header (micro_sec_per_frame h) (max_bytes_per_sec h)
                     (mh_total_frames h) v (suggested_buffer_size h)
                     (mh_width h) (mh_height h)) ;;;
  v <- rd_le32 ;;
  upd_mh (fun h => mk_main_header (micro_sec_per_frame h) (max_bytes_per_sec h)
                     (mh_total_frames h) (streams h) v (mh_width h) (mh_height h)) ;;;
  v <- rd_le32 ;;
  upd_mh (fun h => mk_main_header (micro_sec_per_frame h) (max_bytes_per_sec h)
                     (mh_total_frames h) (streams h) (suggested_buffer_size h)
                     v (mh_height h)) ;;;
  v <- rd_le32 ;;
  upd_mh (fun h => mk_main_header (micro_sec_per_frame h) (max_bytes_per_sec h)
                     (mh_total_frames h) (streams h) (suggested_buffer_size h)
                     (mh_width h) v) ;;;
  modify (fun p => set_total_frames p (mh_total_frames (main_header p))) ;;;
  skip_remaining size 48 ;;;
  ret ESP_OK.

(** The stream header is read into a local structure; of its contents
    only the stream type has an effect on the handle. *)
Definition parse_strh (size : Z) : M esp_err_t :=
  fourcc_type <- rd_fourcc ;;
  _handler <- rd_fourcc ;;
  seek_cur 4 ;;;                       (* flags *)
  seek_cur 2 ;;;                       (* priority *)
  seek_cur 2 ;;;                       (* language *)
  seek_cur 4 ;;;                       (* initial frames *)
  _scale <- rd_le32 ;;
  _rate <- rd_le32 ;;
  _start <- rd_le32 ;;
  _length <- rd_le32 ;;
  _sbs <- rd_le32 ;;
  _quality <- rd_le32 ;;
  _sample_size <- rd_le32 ;;
  (if fourcc_type =? FOURCC_VIDS then ret tt
   else if fourcc_type =? FOURCC_AUDS then
     upd_ai (fun a => mk_audio_info (format_tag a) (channels a) (samples_per_sec a)
                        (avg_bytes_per_sec a) (block_align a) (bits_per_sample a) true)
   else ret tt) ;;;
  skip_remaining size 48 ;;;
  ret ESP_OK.

Definition parse_strf_video (size : Z) : M esp_err_t :=
  seek_cur 4 ;;;                       (* size *)
  v <- rd_le32 ;;
  upd_vi (fun i => mk_video_info (u16 v) (vi_height i) (bit_count i)
                     (compression i) (vi_found i)) ;;;
  v <- rd_le32 ;;
  upd_vi (fun i => mk_video_info (vi_width i) (u16 v) (bit_count i)
                     (compression i) (vi_found i)) ;;;
  seek_cur 2 ;;;                       (* planes *)
  v <- rd_le16 ;;
  upd_vi (fun i => mk_video_info (vi_width i) (vi_height i) v
                     (compression i) (vi_found i)) ;;;
  v <- rd_fourcc ;;
  upd_vi (fun i => mk_video_info (vi_width i) (vi_height i) (bit_count i) v true) ;;;
  skip_remaining size 20 ;;;
  ret ESP_OK.

Definition parse_strf_audio (size : Z) : M esp_err_t :=
  v <- rd_le16 ;;
  upd_ai (fun a => mk_audio_info v (channels a) (samples_per_sec a)
                     (avg_bytes_per_sec a) (block_align a) (bits_per_sample a)
                     (ai_found a)) ;;;
  v <- rd_le16 ;;
  upd_ai (fun a => mk_audio_info (format_tag a) v (samples_per_sec a)
                     (avg_bytes_per_sec a) (block_align a) (bits_per_sample a)
                     (ai_found a)) ;;;
  v <- rd_le32 ;;
  upd_ai (fun a => mk_audio_info (format_tag a) (channels a) v
                     (avg_bytes_per_sec a) (block_align a) (bits_per_sample a)
                     (ai_found a)) ;;;
  v <- rd_le32 ;;
  upd_ai (fun a => mk_audio_info (format_tag a) (channels a) (samples_per_sec a)
                     v (block_align a) (bits_per_sample a) (ai_found a)) ;;;
  v <- rd_le16 ;;
  upd_ai (fun a => mk_audio_info (format_tag a) (channels a) (samples_per_sec a)
                     (avg_bytes_per_sec a) v (bits_per_sample a) (ai_found a)) ;;;
  v <- rd_le16 ;;
  upd_ai (fun a => mk_audio_info (format_tag a) (channels a) (samples_per_sec a)
                     (avg_bytes_per_sec a) (block_align a) v (ai_found a)) ;;;
  skip_remaining size 16 ;;;
  ret ESP_OK.

(** [size & 1] *)
Definition is_odd (size : Z) : bool := Z.odd size.

(** [parse_list]: [fuel] bounds the nesting depth and, at each level,
    the number of iterations of the chunk loop. *)
Fixpoint parse_list (fuel : nat) (list_size : Z) : M esp_err_t :=
  match fuel with
  | O => stuck
  | S fuel' =>
    list_type <- rd_fourcc ;;
    if list_type =? FOURCC_MOVI then
      off <- tell ;;
      modify (fun p => set_movi p (u32 off) (movi_size p)) ;;;
      modify (fun p => set_movi p (movi_offset p) (u32 (list_size - 4))) ;;;
      ret ESP_OK
    else
      (fix chunk_loop (n : nat) (bytes_read : Z) {struct n} : M esp_err_t :=
         if bytes_read <? u32 (list_size - 4) then
           match n with
           | O => stuck
           | S n' =>
             fourcc <- rd_fourcc ;;
             size <- rd_le32 ;;
             let bytes_read := u32 (bytes_read + 8) in
             (if fourcc =? FOURCC_AVIH then parse_avih size ;;; ret tt
              else if fourcc =? FOURCC_STRH then parse_strh size ;;; ret tt
              else if fourcc =? FOURCC_STRF then
                found <- get (fun p => vi_found (video_info p)) ;;
                if found : bool then parse_strf_video size ;;; ret tt
                else parse_strf_audio size ;;; ret tt
              else if fourcc =? FOURCC_LIST then parse_list fuel' size ;;; ret tt
              else seek_cur (to_long size)) ;;;
             let bytes_read := u32 (bytes_read + size) in
             if is_odd size then
               seek_cur 1 ;;; chunk_loop n' (u32 (bytes_read + 1))
             else chunk_loop n' bytes_read
           end
         else ret ESP_OK) fuel' 4
  end.

(** The chunk loop of [parse_avi_header]; yields after the loop. *)
Fixpoint parse_avi_header_loop (fuel : nat) : M unit :=
  e <- at_eof ;;
  if e : bool then ret tt
  else
    match fuel with
    | O => stuck
    | S fuel' =>
      fourcc <- rd_fourcc ;;
      e <- at_eof ;;
      if e : bool then ret tt
      else
        size <- rd_le32 ;;
        (if fourcc =? FOURCC_LIST then parse_list fuel' size ;;; ret tt
         else seek_cur (to_long size)) ;;;
        (if is_odd size then seek_cur 1 else ret tt) ;;;
        mo <- get movi_offset ;;
        if negb (mo =? 0) then ret tt
        else parse_avi_header_loop fuel'
    end.

Definition parse_avi_header (fuel : nat) : M esp_err_t :=
  fourcc <- rd_fourcc ;;
  if negb (fourcc =? FOURCC_RIFF) then ret ESP_ERR_INVALID_ARG
  else
    _file_size <- rd_le32 ;;
    fourcc <- rd_fourcc ;;
    if negb (fourcc =? FOURCC_AVI) then ret ESP_ERR_INVALID_ARG
    else
      parse_avi_header_loop fuel ;;;
      mo <- get movi_offset ;;
      if mo =? 0 then ret ESP_FAIL
      else ret ESP_OK.

(* ================================================================== *)
(** ** avi_parser.c: open, close, chunk retrieval, seek *)

(** Streams opened and closed, oldest first. *)
Inductive io_event : Type :=
| EvOpen (path : string)
| EvClose (path : string).

Definition io_log := list io_event.

Definition blank_frame : mjpeg_frame_t := mk_frame Null 0 0 0.

Definition set_fr_data (fr : mjpeg_frame_t) (d : heap_ptr) : mjpeg_frame_t :=
  mk_frame d (fr_size fr) (frame_num fr) (timestamp_ms fr).

(** [(fourcc & 0xFFFF) == 0x6364 || (fourcc & 0xFFFF) == 0x6264] *)
Definition is_video_chunk (fourcc : Z) : bool :=
  (Z.land fourcc 0xFFFF =? 0x6364) || (Z.land fourcc 0xFFFF =? 0x6264).

(** [(fourcc & 0xFFFF) == 0x6277] *)
Definition is_audio_chunk (fourcc : Z) : bool :=
  Z.land fourcc 0xFFFF =? 0x6277.

(** [(current_frame * micro_sec_per_frame) / 1000] on [uint32_t]. *)
Definition frame_timestamp_ms (cur us_per_frame : Z) : Z :=
  u32 (cur * us_per_frame) / 1000.

(** [fread(buffer, 1, n, f)] seen from the destination: the bytes read
    replace the first cells of the caller's memory. *)
Definition store_prefix (got dest : list byte) : list byte :=
  got ++ skipn (length got) dest.

Section Demuxer.

(** The storage medium: contents of the file at a path, if it can be
    opened for reading. *)
Variable fs : string -> option (list byte).

(** Whether an allocation request of a given size is granted. *)
Variable malloc_ok : Z -> bool.

Definition fopen (path : string) (log : io_log) : option FILE * io_log :=
  match fs path with
  | Some d => (Some (mkFILE path d 0 false), log ++ [EvOpen path])
  | None => (None, log)
  end.

Definition fclose (f : FILE) (log : io_log) : io_log :=
  log ++ [EvClose (fpath f)].

(** [avi_parser_open].  A NULL handle or path is [None]. *)
Definition avi_parser_open (fuel : nat) (log : io_log)
    (parser : option avi_parser_t) (file_path : option string)
  : option (esp_err_t * option avi_parser_t * io_log) :=
  match parser, file_path with
  | Some _, Some path =>
    let p := zero_parser in                       (* memset *)
    let '(fh, log1) := fopen path log in
    match fh with
    | None => Some (ESP_FAIL, Some (set_file p None), log1)
    | Some f =>
      match parse_avi_header fuel (set_file p (Some f)) with
      | None => None
      | Some (r, p1) =>
        if negb (esp_err_is_ok r) then
          match file p1 with
          | Some f1 => Some (r, Some (set_file p1 None), fclose f1 log1)
          | None => None
          end
        else
          match seek_set (to_long (movi_offset p1)) p1 with
          | None => None
          | Some (_, p2) =>
            Some (ESP_OK,
                  Some (set_initialized (set_current_frame p2 0) true),
                  log1)
          end
      end
    end
  | _, _ => Some (ESP_ERR_INVALID_ARG, parser, log)
  end.

(** [avi_parser_close] *)
Definition avi_parser_close (log : io_log) (parser : option avi_parser_t)
  : option avi_parser_t * io_log :=
  match parser with
  | None => (None, log)
  | Some p =>
    match file p with
    | Some f => (Some (set_initialized (set_file p None) false), fclose f log)
    | None => (Some (set_initialized p false), log)
    end
  end.

(** The scanning loop of [avi_parser_read_video_frame]; [frame] is the
    caller's structure, the result carries its contents on return. *)
Fixpoint read_video_loop (fuel : nat) (frame : mjpeg_frame_t)
  : M (esp_err_t * mjpeg_frame_t) :=
  e <- at_eof ;;
  if e : bool then ret (ESP_ERR_NOT_FOUND, frame)
  else
    match fuel with
    | O => stuck
    | S fuel' =>
      fourcc <- rd_fourcc ;;
      e <- at_eof ;;
      if e : bool then ret (ESP_ERR_NOT_FOUND, frame)
      else
        size <- rd_le32 ;;
        if is_video_chunk fourcc then
          if negb (malloc_ok size) then
            ret (ESP_ERR_NO_MEM, set_fr_data frame Null)
          else
            data <- rd_bytes size ;;
            if negb (Z.of_nat (length data) =? size) then
              ret (ESP_FAIL, set_fr_data frame Freed)
            else
              cur <- get current_frame ;;
              us <- get (fun p => micro_sec_per_frame (main_header p)) ;;
              let fr := mk_frame (Block data) size cur
                                 (frame_timestamp_ms cur us) in
              modify (fun p => set_current_frame p (u32 (cur + 1))) ;;;
              (if is_odd size then seek_cur 1 else ret tt) ;;;
              ret (ESP_OK, fr)
        else
          seek_cur (to_long size) ;;;
          (if is_odd size then seek_cur 1 else ret tt) ;;;
          read_video_loop fuel' frame
    end.

(** [avi_parser_read_video_frame] *)
Definition avi_parser_read_video_frame (fuel : nat)
    (parser : option avi_parser_t) (frame : option mjpeg_frame_t)
  : option (esp_err_t * option avi_parser_t * option mjpeg_frame_t) :=
  match parser, frame with
  | Some p, Some fr =>
    if negb (initialized p) then Some (ESP_ERR_INVALID_ARG, parser, frame)
    else
      match read_video_loop fuel fr p with
      | Some ((r, fr'), p') => Some (r, Some p', Some fr')
      | None => None
      end
  | _, _ => Some (ESP_ERR_INVALID_ARG, parser, frame)
  end.

(** The scanning loop of [avi_parser_read_audio_chunk]; [buffer] is the
    caller's memory starting at the pointer passed, [bytes_read] the
    cell behind the optional out-pointer. *)
Fixpoint read_audio_loop (fuel : nat) (buffer : list byte) (max_size : Z)
    (bytes_read : option Z)
  : M (esp_err_t * list byte * option Z) :=
  e <- at_eof ;;
  if e : bool then ret (ESP_ERR_NOT_FOUND, buffer, bytes_read)
  else
    match fuel with
    | O => stuck
    | S fuel' =>
      fourcc <- rd_fourcc ;;
      e <- at_eof ;;
      if e : bool then ret (ESP_ERR_NOT_FOUND, buffer, bytes_read)
      else
        size <- rd_le32 ;;
        if is_audio_chunk fourcc then
          let read_size := if size <? max_size then size else max_size in
          data <- rd_bytes read_size ;;
          let bytes_read' :=
            match bytes_read with
            | Some _ => Some (Z.of_nat (length data))
            | None => None
            end in
          (if max_size <? size
           then seek_cur (to_long (u32 (size - max_size))) else ret tt) ;;;
          (if is_odd size then seek_cur 1 else ret tt) ;;;
          ret (ESP_OK, store_prefix data buffer, bytes_read')
        else
          seek_cur (to_long size) ;;;
          (if is_odd size then seek_cur 1 else ret tt) ;;;
          read_audio_loop fuel' buffer max_size bytes_read
    end.

(** [avi_parser_read_audio_chunk] *)
Definition avi_parser_read_audio_chunk (fuel : nat)
    (parser : option avi_parser_t) (buffer : option (list byte))
    (max_size : Z) (bytes_read : option Z)
  : option (esp_err_t * option avi_parser_t * option (list byte) * option Z) :=
  match parser, buffer with
  | Some p, Some buf =>
    if negb (initialized p)
    then Some (ESP_ERR_INVALID_ARG, parser, buffer, bytes_read)
    else
      match read_audio_loop fuel buf max_size bytes_read p with
      | Some ((r, buf', br'), p') => Some (r, Some p', Some buf', br')
      | None => None
      end
  | _, _ => Some (ESP_ERR_INVALID_ARG, parser, buffer, bytes_read)
  end.

(** The skipping loop of [avi_parser_seek]: [n] bounds the number of
    iterations, [fuel] is handed to each read. *)
Fixpoint seek_loop (n : nat) (fuel : nat) (frame_num : Z)
    (p : avi_parser_t) : option (esp_err_t * avi_parser_t) :=
  if current_frame p <? frame_num then
    match n with
    | O => None
    | S n' =>
      match avi_parser_read_video_frame fuel (Some p) (Some blank_frame) with
      | Some (ESP_OK, Some p', _) => seek_loop n' fuel frame_num p'
      | Some (_, Some p', _) => Some (ESP_FAIL, p')
      | _ => None
      end
    end
  else Some (ESP_OK, p).

(** [avi_parser_seek] *)
Definition avi_parser_seek (fuel : nat) (parser : option avi_parser_t)
    (frame_num : Z) : option (esp_err_t * option avi_parser_t) :=
  match parser with
  | Some p =>
    if negb (initialized p) then Some (ESP_ERR_INVALID_ARG, parser)
    else
      match seek_set (to_long (movi_offset p)) p with
      | None => None
      | Some (_, p1) =>
        match seek_loop (Z.to_nat frame_num) fuel frame_num
                        (set_current_frame p1 0) with
        | Some (r, p2) => Some (r, Some p2)
        | None => None
        end
      end
  | None => Some (ESP_ERR_INVALID_ARG, parser)
  end.

Definition avi_parser_get_current_frame (parser : option avi_parser_t) : Z :=
  match parser with Some p => current_frame p | None => 0 end.

Definition avi_parser_get_total_frames (parser : option avi_parser_t) : Z :=
  match parser with Some p => total_frames p | None => 0 end.

End Demuxer.

(* ================================================================== *)
(** ** Single-precision arithmetic, as far as [avi_parser_get_fps] needs it

    A positive binary32 value is [f_mant * 2^f_exp] with a significand of
    24 bits; [0.0f] is the pair (0, 0).  Only positive operands in the
    normal range occur: the dividend is the constant 1000000 and the
    divisor a non-zero [uint32_t]. *)

Record float32 := mk_float32 { f_mant : Z; f_exp : Z }.

Definition float32_zero : float32 := mk_float32 0 0.

(** Round-to-nearest-even of the quotient [a / b], [b > 0]. *)
Definition div_nearest_even (a b : Z) : Z :=
  let q := a / b in
  let r := a mod b in
  if 2 * r <? b then q
  else if b <? 2 * r then q + 1
  else if Z.even q then q else q + 1.

(** The binary32 value nearest to the positive rational [num / den]. *)
Definition float32_round (num den : Z) : float32 :=
  let k := Z.log2 num - Z.log2 den in
  (* [ge_pow]: 2^k <= num / den *)
  let ge_pow := if 0 <=? k then den * 2^k <=? num else den <=? num * 2^(-k) in
  let e := (if ge_pow then k else k - 1) - 23 in
  let m := if 0 <=? e then div_nearest_even num (den * 2^e)
           else div_nearest_even (num * 2^(-e)) den in
  mk_float32 m e.

(** Conversion of a non-negative integer to [float]. *)
Definition float32_of_Z (n : Z) : float32 :=
  if n =? 0 then float32_zero else float32_round n 1.

(** Quotient of two positive binary32 values. *)
Definition float32_div (a b : float32) : float32 :=
  let d := f_exp a - f_exp b in
  if 0 <=? d then float32_round (f_mant a * 2^d) (f_mant b)
  else float32_round (f_mant a) (f_mant b * 2^(-d)).

(** The integer part of a non-negative binary32 value. *)
Definition float32_trunc (x : float32) : Z :=
  if 0 <=? f_exp x then f_mant x * 2^(f_exp x)
  else f_mant x / 2^(- f_exp x).

(** [(uint16_t)x] for a non-negative [float] [x].  The conversion
    discards the fraction; for integer parts above 65535, which the
    C conversion leaves unspecified, the low 16 bits are kept. *)
Definition uint16_of_float32 (x : float32) : Z := u16 (float32_trunc x).

(** [avi_parser_get_fps] *)
Definition avi_parser_get_fps (parser : option avi_parser_t) : float32 :=
  match parser with
  | None => float32_zero
  | Some p =>
    if micro_sec_per_frame (main_header p) =? 0 then float32_zero
    else float32_div (float32_of_Z 1000000)
                     (float32_of_Z (micro_sec_per_frame (main_header p)))
  end.

(* ================================================================== *)
(** ** mjpeg_decoder.c: the decode stage *)

Record mjpeg_decoder_t := mk_decoder {
  jpeg_handle : Z;
  max_width : Z;
  max_height : Z;
  last_decode_ms : Z
}.

(** display.h: a frame buffer; [fb_buffer] is the pixel array behind the
    [buffer] pointer. *)
Record frame_buffer_t := mk_frame_buffer {
  fb_buffer : list Z;
  fb_width : Z;
  fb_height : Z;
  ready : bool
}.

(** A frame buffer after a callee that was handed [fb->buffer] has left
    the pixel array as [pixels]. *)
Definition fb_with_pixels (fb : frame_buffer_t) (pixels : list Z) :=
  mk_frame_buffer pixels (fb_width fb) (fb_height fb) (ready fb).

Section Decoder.

(** Build configuration: whether [esp_jpeg_dec.h] was found. *)
Variable HAS_ESP_JPEG : bool.

(** The external JPEG component.  [jpeg_decoder_get_info data size]
    yields a status and the width and height fields of the header
    information; [jpeg_decoder_process handle data size outbuf] yields a
    status and the output array as the component leaves it. *)
Variable jpeg_decoder_get_info : heap_ptr -> Z -> esp_err_t * (Z * Z).
Variable jpeg_decoder_process :
  Z -> heap_ptr -> Z -> list Z -> esp_err_t * list Z.

(** [mjpeg_decoder_decode_frame]; [start_time] and [end_time] are the two
    readings of [esp_timer_get_time]. *)
Definition mjpeg_decoder_decode_frame
    (decoder : option mjpeg_decoder_t) (frame : option mjpeg_frame_t)
    (output : option (list Z)) (output_width output_height : option Z)
    (start_time end_time : Z)
  : esp_err_t * option mjpeg_decoder_t * option (list Z)
    * option Z * option Z :=
  match decoder, frame, output with
  | Some d, Some fr, Some out =>
    if HAS_ESP_JPEG then
      let '(r, (hw, hh)) := jpeg_decoder_get_info (fr_data fr) (fr_size fr) in
      if negb (esp_err_is_ok r)
      then (r, decoder, output, output_width, output_height)
      else
        let width := u16 hw in
        let height := u16 hh in
        if (max_width d <? width) || (max_height d <? height)
        then (ESP_ERR_INVALID_SIZE, decoder, output, output_width, output_height)
        else
          let '(r, out') :=
            jpeg_decoder_process (jpeg_handle d) (fr_data fr) (fr_size fr) out in
          if negb (esp_err_is_ok r)
          then (r, decoder, Some out', output_width, output_height)
          else
            let ow := match output_width with
                      | Some _ => Some width | None => None end in
            let oh := match output_height with
                      | Some _ => Some height | None => None end in
            (ESP_OK,
             Some (mk_decoder (jpeg_handle d) (max_width d) (max_height d)
                              (u32 (u64 (end_time - start_time) / 1000))),
             Some out', ow, oh)
    else (ESP_ERR_NOT_SUPPORTED, decoder, output, output_width, output_height)
  | _, _, _ => (ESP_ERR_INVALID_ARG, decoder, output, output_width, output_height)
  end.

Definition mjpeg_decoder_get_decode_time (decoder : option mjpeg_decoder_t) : Z :=
  match decoder with Some d => last_decode_ms d | None => 0 end.

End Decoder.

(* ================================================================== *)
(** ** Audio player: volume scaling and the write path *)

Inductive audio_state_t : Type :=
| AUDIO_STATE_STOPPED
| AUDIO_STATE_PLAYING
| AUDIO_STATE_PAUSED.

Record audio_config_t := mk_audio_config {
  sample_rate : Z;
  cfg_bits_per_sample : Z;
  cfg_channels : Z;
  pin_bclk : Z;
  pin_ws : Z;
  pin_dout : Z
}.

Record audio_player_t := mk_audio_player {
  tx_handle : Z;
  config : audio_config_t;
  a_state : audio_state_t;
  volume : Z;
  a_initialized : bool
}.

(** One iteration of the loop of [apply_volume].  [sample] is an
    [int32_t] and [scale] a [uint32_t]: the product is formed in
    unsigned 32-bit arithmetic and shifted as an unsigned value; the
    result goes back into the signed [sample]. *)
Definition scale_sample (scale : Z) (s : Z) : Z :=
  let sample := to_long (Z.shiftr (u32 (u32 s * scale)) 16) in
  let sample := if 32767 <? sample then 32767 else sample in
  let sample := if sample <? -32768 then -32768 else sample in
  to_int16 sample.

(** [apply_volume(samples, count, volume)] *)
Definition apply_volume (samples : list Z) (count : Z) (vol : Z) : list Z :=
  if 100 <=? vol then samples
  else
    let scale := u32 ((vol * 65536) / 100) in
    map (scale_sample scale) (firstn (Z.to_nat count) samples)
    ++ skipn (Z.to_nat count) samples.

(** The [int16_t] view of a little-endian byte buffer, and back.  A
    trailing single byte belongs to no sample. *)
Fixpoint samples_of_bytes (bs : list byte) : list Z :=
  match bs with
  | b0 :: b1 :: rest => to_int16 (le16 b0 b1) :: samples_of_bytes rest
  | _ => []
  end.

Definition bytes_of_samples (ss : list Z) : list byte :=
  flat_map (fun s => le16_bytes (u16 s)) ss.

Definition odd_tail (bs : list byte) : list byte :=
  if Nat.odd (length bs) then skipn (length bs - 1) bs else [].

Section AudioWrite.

Variable malloc_ok : Z -> bool.

(** The I2S driver: [i2s_channel_write handle payload size] yields a
    status and the number of bytes it took. *)
Variable i2s_channel_write : Z -> list byte -> Z -> esp_err_t * Z.

(** [audio_player_write].  The last component of the result is the
    payload handed to the I2S driver, if the call got that far. *)
Definition audio_player_write (player : option audio_player_t)
    (data : option (list byte)) (size : Z) (bytes_written : option Z)
  : esp_err_t * option Z * option (list byte) :=
  match player, data with
  | Some pl, Some d =>
    if negb (a_initialized pl) then (ESP_ERR_INVALID_ARG, bytes_written, None)
    else
      match a_state pl with
      | AUDIO_STATE_PLAYING =>
        let src := firstn (Z.to_nat size) d in
        let send payload :=
          let '(r, n) := i2s_channel_write (tx_handle pl) payload size in
          (r, match bytes_written with Some _ => Some n | None => None end,
           Some payload) in
        if (volume pl <? 100) && (cfg_bits_per_sample (config pl) =? 16)
           && malloc_ok size
        then
          let sample_count := size / 2 in
          let scaled := apply_volume (samples_of_bytes src) sample_count
                                     (volume pl) in
          send (bytes_of_samples scaled ++ odd_tail src)
        else send src
      | _ => (ESP_ERR_INVALID_STATE, bytes_written, None)
      end
  | _, _ => (ESP_ERR_INVALID_ARG, bytes_written, None)
  end.

End AudioWrite.

(** [audio_player_set_volume] *)
Definition audio_player_set_volume (player : option audio_player_t) (vol : Z)
  : esp_err_t * option audio_player_t :=
  match player with
  | None => (ESP_ERR_INVALID_ARG, None)
  | Some pl =>
    let v := if 100 <? vol then 100 else vol in
    (ESP_OK, Some (mk_audio_player (tx_handle pl) (config pl) (a_state pl) v
                                   (a_initialized pl)))
  end.

(* ================================================================== *)
(** ** Video player: the playback controller *)

Inductive video_state_t : Type :=
| VIDEO_STATE_STOPPED
| VIDEO_STATE_PLAYING
| VIDEO_STATE_PAUSED
| VIDEO_STATE_ERROR.

Record video_info_t := mk_video_info_t {
  path : string;
  width : Z;
  height : Z;
  fps : Z;
  frame_count : Z;
  duration_sec : Z
}.

(** The three callback pointers (0 is NULL). *)
Record video_callbacks_t := mk_callbacks {
  on_frame_decoded : Z;
  on_playback_complete : Z;
  on_error : Z
}.

Record video_player_t := mk_player {
  state : video_state_t;
  info : video_info_t;
  avi_parser : avi_parser_t;
  decoder : option mjpeg_decoder_t;
  frame_buffer0 : option frame_buffer_t;
  frame_buffer1 : option frame_buffer_t;
  current_buffer : Z;
  vp_current_frame : Z;
  playback_task : option Z;
  callbacks : video_callbacks_t;
  user_data : Z;
  frame_time_us : Z;
  last_frame_time : Z
}.

Definition set_state (pl : video_player_t) (st : video_state_t) :=
  mk_player st (info pl) (avi_parser pl) (decoder pl) (frame_buffer0 pl)
            (frame_buffer1 pl) (current_buffer pl) (vp_current_frame pl)
            (playback_task pl) (callbacks pl) (user_data pl)
            (frame_time_us pl) (last_frame_time pl).

Definition set_info (pl : video_player_t) (i : video_info_t) :=
  mk_player (state pl) i (avi_parser pl) (decoder pl) (frame_buffer0 pl)
            (frame_buffer1 pl) (current_buffer pl) (vp_current_frame pl)
            (playback_task pl) (callbacks pl) (user_data pl)
            (frame_time_us pl) (last_frame_time pl).

Definition set_avi_parser (pl : video_player_t) (a : avi_parser_t) :=
  mk_player (state pl) (info pl) a (decoder pl) (frame_buffer0 pl)
            (frame_buffer1 pl) (current_buffer pl) (vp_current_frame pl)
            (playback_task pl) (callbacks pl) (user_data pl)
            (frame_time_us pl) (last_frame_time pl).

Definition set_vp_current_frame (pl : video_player_t) (n : Z) :=
  mk_player (state pl) (info pl) (avi_parser pl) (decoder pl) (frame_buffer0 pl)
            (frame_buffer1 pl) (current_buffer pl) n
            (playback_task pl) (callbacks pl) (user_data pl)
            (frame_time_us pl) (last_frame_time pl).

Definition set_playback_task (pl : video_player_t) (t : option Z) :=
  mk_player (state pl) (info pl) (avi_parser pl) (decoder pl) (frame_buffer0 pl)
            (frame_buffer1 pl) (current_buffer pl) (vp_current_frame pl)
            t (callbacks pl) (user_data pl)
            (frame_time_us pl) (last_frame_time pl).

Definition set_frame_time_us (pl : video_player_t) (t : Z) :=
  mk_player (state pl) (info pl) (avi_parser pl) (decoder pl) (frame_buffer0 pl)
            (frame_buffer1 pl) (current_buffer pl) (vp_current_frame pl)
            (playback_task pl) (callbacks pl) (user_data pl)
            t (last_frame_time pl).

(** Unsigned division; a zero divisor has no result. *)
Definition udiv (a b : Z) : option Z :=
  if b =? 0 then None else Some (a / b).

(** [strncpy(dst, src, 255)] into the 256-byte, zero-terminated path. *)
Definition copy_path (src : string) : string := String.substring 0 255 src.

Section Player.

Variable fs : string -> option (list byte).

(** [video_player_close] *)
Definition video_player_close (log : io_log) (player : option video_player_t)
  : option video_player_t * io_log :=
  match player with
  | None => (None, log)
  | Some pl =>
    match avi_parser_close log (Some (avi_parser pl)) with
    | (Some a, log') =>
      (Some (set_vp_current_frame (set_avi_parser pl a) 0), log')
    | (None, log') => (Some (set_vp_current_frame pl 0), log')
    end
  end.

(** [video_player_open] *)
Definition video_player_open (fuel : nat) (log : io_log)
    (player : option video_player_t) (file_path : option string)
  : option (esp_err_t * option video_player_t * io_log) :=
  match player, file_path with
  | Some _, Some fp =>
    match video_player_close log player with
    | (Some pl, log1) =>
      match avi_parser_open fs fuel log1 (Some (avi_parser pl)) file_path with
      | Some (r, Some a, log2) =>
        let pl := set_avi_parser pl a in
        if negb (esp_err_is_ok r) then Some (r, Some pl, log2)
        else
          let fps0 := uint16_of_float32 (avi_parser_get_fps (Some a)) in
          let count := avi_parser_get_total_frames (Some a) in
          match udiv count (if 0 <? fps0 then fps0 else 15) with
          | None => None
          | Some dur =>
            let fps1 := if fps0 =? 0 then 15 else fps0 in
            match udiv 1000000 fps1 with
            | None => None
            | Some ft =>
              let i := mk_video_info_t (copy_path fp)
                         (vi_width (video_info a)) (vi_height (video_info a))
                         fps1 count dur in
              Some (ESP_OK,
                    Some (set_vp_current_frame
                            (set_frame_time_us (set_info pl i) ft) 0),
                    log2)
            end
          end
      | _ => None
      end
    | (None, _) => None
    end
  | _, _ => Some (ESP_ERR_INVALID_ARG, player, log)
  end.

End Player.

(** [video_player_play]; [task] is the outcome of
    [xTaskCreatePinnedToCore] (the task handle, or [None] when the task
    could not be created) and [now] the reading of the timer. *)
Definition video_player_play (player : option video_player_t)
    (task : option Z) (now : Z) : esp_err_t * option video_player_t :=
  match player with
  | None => (ESP_FAIL, None)
  | Some pl =>
    if negb (initialized (avi_parser pl)) then (ESP_FAIL, player)
    else
      match state pl with
      | VIDEO_STATE_PLAYING => (ESP_OK, player)
      | _ =>
        let pl1 := set_state pl VIDEO_STATE_PLAYING in
        let pl2 := mk_player (state pl1) (info pl1) (avi_parser pl1)
                     (decoder pl1) (frame_buffer0 pl1) (frame_buffer1 pl1)
                     (current_buffer pl1) (vp_current_frame pl1)
                     (playback_task pl1) (callbacks pl1) (user_data pl1)
                     (frame_time_us pl1) now in
        match task with
        | Some h => (ESP_OK, Some (set_playback_task pl2 (Some h)))
        | None => (ESP_FAIL, Some (set_state pl2 VIDEO_STATE_ERROR))
        end
      end
  end.

(** [video_player_pause] *)
Definition video_player_pause (player : option video_player_t)
  : esp_err_t * option video_player_t :=
  match player with
  | None => (ESP_FAIL, None)
  | Some pl =>
    match state pl with
    | VIDEO_STATE_PLAYING => (ESP_OK, Some (set_state pl VIDEO_STATE_PAUSED))
    | _ => (ESP_OK, player)
    end
  end.

(** [video_player_stop] *)
Definition video_player_stop (player : option video_player_t)
  : esp_err_t * option video_player_t :=
  match player with
  | None => (ESP_FAIL, None)
  | Some pl =>
    match state pl with
    | VIDEO_STATE_PLAYING | VIDEO_STATE_PAUSED =>
      let pl1 := set_state pl VIDEO_STATE_STOPPED in
      let pl2 := match playback_task pl1 with
                 | Some _ => set_playback_task pl1 None
                 | None => pl1
                 end in
      (ESP_OK, Some (set_vp_current_frame pl2 0))
    | _ => (ESP_OK, player)
    end
  end.


(** [video_player_get_state] *)
Definition video_player_get_state (player : option video_player_t)
  : video_state_t :=
  match player with
  | Some pl => state pl
  | None => VIDEO_STATE_ERROR
  end.

(** [video_player_get_info]; [info_out] is the caller's structure. *)
Definition video_player_get_info (player : option video_player_t)
    (info_out : option video_info_t) : esp_err_t * option video_info_t :=
  match player, info_out with
  | Some pl, Some _ => (ESP_OK, Some (info pl))
  | _, _ => (ESP_ERR_INVALID_ARG, info_out)
  end.

(** [video_player_get_current_frame] *)
Definition video_player_get_current_frame (player : option video_player_t)
  : Z :=
  match player with
  | Some pl => vp_current_frame pl
  | None => 0
  end.

(** [video_player_get_position_sec]: the value returned, or [None] if
    the function divides by zero. *)
Definition video_player_get_position_sec (player : option video_player_t)
  : option Z :=
  match player with
  | None => Some 0
  | Some pl =>
    if fps (info pl) =? 0 then Some 0
    else udiv (vp_current_frame pl) (fps (info pl))
  end.

(* ================================================================== *)
(** ** Container images used in the examples *)

Definition riff_chunk (fourcc : Z) (payload : list byte) : list byte :=
  le32_bytes fourcc ++ le32_bytes (Z.of_nat (length payload)) ++ payload
  ++ (if Z.odd (Z.of_nat (length payload)) then [x00] else []).

Definition riff_list (list_type : Z) (body : list byte) : list byte :=
  le32_bytes FOURCC_LIST ++ le32_bytes (4 + Z.of_nat (length body))
  ++ le32_bytes list_type ++ body.

Definition dwords (vs : list Z) : list byte := flat_map le32_bytes vs.

(** Main header: the fourteen double words of the [avih] chunk. *)
Definition avih_payload (us_per_frame n_frames w h : Z) : list byte :=
  dwords [us_per_frame; 0; 0; 0x10; n_frames; 0; 1; 0; w; h; 0; 0; 0; 0].

(** Video stream header (56 bytes) and bitmap format (40 bytes). *)
Definition strh_payload (n_frames : Z) : list byte :=
  dwords [FOURCC_VIDS; FOURCC_MJPG; 0; 0; 0; 1; 15; 0; n_frames; 0; 0; 0; 0; 0].

Definition strf_payload (w h : Z) : list byte :=
  dwords [40; w; h] ++ le16_bytes 1 ++ le16_bytes 24
  ++ dwords [FOURCC_MJPG; 0; 0; 0; 0; 0].

Definition avi_image (us_per_frame n_frames w h : Z) (movi : list byte)
  : list byte :=
  let hdrl :=
    riff_list FOURCC_HDRL
      (riff_chunk FOURCC_AVIH (avih_payload us_per_frame n_frames w h)
       ++ riff_list FOURCC_STRL
            (riff_chunk FOURCC_STRH (strh_payload n_frames)
             ++ riff_chunk FOURCC_STRF (strf_payload w h))) in
  let body := le32_bytes FOURCC_AVI ++ hdrl ++ riff_list FOURCC_MOVI movi in
  le32_bytes FOURCC_RIFF ++ le32_bytes (Z.of_nat (length body)) ++ body.

Definition bytes_of (vs : list Z) : list byte := map byte_of_Z vs.

(** Chunk tags whose low-order half is "dc" / "wb", the patterns the
    chunk readers compare against (bytes 'd' 'c' '0' '0' and
    'w' 'b' '0' '1' in the file). *)
Definition TAG_DC00 : Z := 0x30306364.
Definition TAG_WB01 : Z := 0x31306277.

(** A payload region with four video chunks and two audio chunks. *)
Definition movi_with (vtag atag : Z) : list byte :=
  riff_chunk vtag (bytes_of [0xFF; 0xD8; 1; 0xFF; 0xD9])
  ++ riff_chunk atag (bytes_of [1; 2; 3; 4; 5; 6; 7])
  ++ riff_chunk vtag (bytes_of [0xFF; 0xD8; 2; 2; 0xFF; 0xD9])
  ++ riff_chunk atag (bytes_of [8; 9; 10; 11])
  ++ riff_chunk vtag (bytes_of [0xFF; 0xD8; 3; 0xFF; 0xD9])
  ++ riff_chunk vtag (bytes_of [0xFF; 0xD8; 4; 0xFF; 0xD9]).

(** ... tagged the standard way ("00dc", "01wb") ... *)
Definition std_movi : list byte := movi_with FOURCC_00DC FOURCC_01WB.

(** ... and tagged with the patterns above. *)
Definition demo_movi : list byte := movi_with TAG_DC00 TAG_WB01.

Definition demo_avi : list byte := avi_image 66667 150 240 240 demo_movi.

Definition std_avi : list byte := avi_image 66667 150 240 240 std_movi.

Definition demo_path : string := "/sdcard/ch1/ep1.avi".
Definition std_path : string := "/sdcard/ch2/ep1.avi".
Definition other_path : string := "/sdcard/ch1/ep2.avi".
Definition bogus_path : string := "/sdcard/ch1/notes.txt".
Definition slides_path : string := "/sdcard/ch3/slides.avi".

(** A slide show: one frame every forty minutes. *)
Definition slides_avi : list byte := avi_image 2400000000 3 240 240 demo_movi.

(** Twelve bytes "RIFX", 0, "AVI ": the outer tag is off by one letter. *)
Definition bogus_image : list byte :=
  bytes_of [0x52; 0x49; 0x46; 0x58; 0; 0; 0; 0; 0x41; 0x56; 0x49; 0x20].

(** The storage medium of the examples. *)
Definition demo_fs (path : string) : option (list byte) :=
  if String.eqb path demo_path then Some demo_avi
  else if String.eqb path other_path then Some (avi_image 40000 4 240 240 demo_movi)
  else if String.eqb path std_path then Some std_avi
  else if String.eqb path slides_path then Some slides_avi
  else if String.eqb path bogus_path then Some bogus_image
  else None.

Definition always_grant (_ : Z) : bool := true.

Definition demo_fuel : nat := 64.


(** A player as [video_player_create] leaves it (decoder limits 320x240,
    two frame buffers; the pixel arrays are shortened here). *)
Definition demo_frame_buffer : frame_buffer_t :=
  mk_frame_buffer (repeat 0 16) 240 240 false.

Definition demo_player : video_player_t :=
  mk_player VIDEO_STATE_STOPPED (mk_video_info_t "" 0 0 0 0 0) zero_parser
            (Some (mk_decoder 0 320 240 0))
            (Some demo_frame_buffer) (Some demo_frame_buffer)
            0 0 None (mk_callbacks 0 0 0) 0 0 0.


(* ================================================================== *)
(** ** Vocabulary of the statements *)

(** The part of the handle that stream operations leave alone. *)
Definition header_view (p : avi_parser_t) :=
  (main_header p, video_info p, audio_info p, movi_offset p, movi_size p,
   total_frames p, initialized p).




(** The value [read_le32] makes of the bytes that [fread] obtained. *)
Definition word_of_bytes (bs : list byte) : Z :=
  match bs with
  | [b0; b1; b2; b3] => le32 b0 b1 b2 b3
  | _ => 0
  end.

(** The bytes of the outer envelope tag and of the nested format tag. *)
Definition riff_tag : list byte := le32_bytes FOURCC_RIFF.   (* "RIFF" *)
Definition avi_tag : list byte := le32_bytes FOURCC_AVI.     (* "AVI " *)

(** [f'] is the stream [f] after some reads and seeks: same name, same
    contents. *)
Definition same_stream (f f' : FILE) : Prop :=
  fpath f' = fpath f /\ fdata f' = fdata f.

(** A computation that, run on a handle with an open stream, ends on a
    handle with that stream still open. *)
Definition keeps_stream {A} (c : M A) : Prop :=
  forall p a p' f,
    file p = Some f -> c p = Some (a, p') ->
    exists f', file p' = Some f' /\ same_stream f f'.


(* ================================================================== *)
(** ** Handles and players used in the examples *)

(** The handle after a successful open of the image at [path]. *)
Definition opened (path : string) : avi_parser_t :=
  match avi_parser_open demo_fs demo_fuel [] (Some zero_parser) (Some path) with
  | Some (_, Some p, _) => p
  | _ => zero_parser
  end.

Definition demo_parser : avi_parser_t := opened demo_path.
Definition std_parser : avi_parser_t := opened std_path.
Definition slides_parser : avi_parser_t := opened slides_path.

(** Up to [n] reads in a row, stopping at the first that delivers no
    frame. *)
Fixpoint read_frames (malloc_ok : Z -> bool) (fuel : nat) (n : nat)
    (p : avi_parser_t) : list mjpeg_frame_t :=
  match n with
  | O => []
  | S n' =>
    match avi_parser_read_video_frame malloc_ok fuel (Some p)
                                      (Some blank_frame) with
    | Some (ESP_OK, Some p', Some fr) =>
      fr :: read_frames malloc_ok fuel n' p'
    | _ => []
    end
  end.

(** The player after opening the image at [path]. *)
Definition player_after_open (pl : video_player_t) (path : string)
  : video_player_t :=
  match video_player_open demo_fs demo_fuel [] (Some pl) (Some path) with
  | Some (_, Some pl', _) => pl'
  | _ => pl
  end.

(** A player that has opened the demo image and was started. *)
Definition playing_player : video_player_t :=
  match video_player_play (Some (player_after_open demo_player demo_path))
                          (Some 1) 1000 with
  | (_, Some pl) => pl
  | _ => demo_player
  end.

Definition demo_buffer : list byte := bytes_of [0; 0; 0; 0; 0; 0; 0; 0; 0; 0].

(** The handle and the buffer after reading the first audio chunk of the
    demo image (7 bytes declared) into four bytes of [demo_buffer]. *)
Definition audio_demo_parser : avi_parser_t :=
  match avi_parser_read_audio_chunk demo_fuel (Some demo_parser)
          (Some demo_buffer) 4 (Some 0) with
  | Some (_, Some p, _, _) => p
  | _ => zero_parser
  end.

Definition audio_demo_buffer : list byte :=
  bytes_of [1; 2; 3; 4; 0; 0; 0; 0; 0; 0].





(** An external JPEG component that reports 1000 x 1000 for every frame
    and would paint the whole output white. *)
Definition big_get_info (_ : heap_ptr) (_ : Z) : esp_err_t * (Z * Z) :=
  (ESP_OK, (1000, 1000)).

Definition white_process (_ : Z) (_ : heap_ptr) (_ : Z) (out : list Z)
  : esp_err_t * list Z :=
  (ESP_OK, map (fun _ => 65535) out).

Definition demo_decoder : mjpeg_decoder_t := mk_decoder 0 320 240 0.

Definition demo_frame : mjpeg_frame_t :=
  mk_frame (Block (bytes_of [0xFF; 0xD8; 1; 0xFF; 0xD9])) 5 0 0.

(* ================================================================== *)
(** ** Invariant of header parsing

    What holds of the handle from the [memset] in [avi_parser_open] up
    to the end of [parse_avi_header]: the frame total mirrors the main
    header, no video format has been recorded, the payload offset is a
    32-bit value, and the counters of the open handle are still clear. *)

Definition parse_inv (p : avi_parser_t) : Prop :=
  total_frames p = mh_total_frames (main_header p) /\
  video_info p = mk_video_info 0 0 0 0 false /\
  0 <= movi_offset p < 2^32 /\
  current_frame p = 0 /\
  initialized p = false.

(** A computation that keeps a property of the handle. *)
Definition preserves {A} (Q : avi_parser_t -> Prop) (c : M A) : Prop :=
  forall p a p', Q p -> c p = Some (a, p') -> Q p'.

(* ================================================================== *)
(** ** Layout of the payload region

    A chunk is a tag and its data; [riff_chunk] lays one out (tag, size
    field, data, one pad byte after data of odd length). *)

Definition chunks_bytes (cs : list (Z * list byte)) : list byte :=
  flat_map (fun c => riff_chunk (fst c) (snd c)) cs.

(** The data of the chunks the video reader accepts, in file order. *)
Definition video_payloads (cs : list (Z * list byte)) : list (list byte) :=
  map snd (filter (fun c => is_video_chunk (fst c)) cs).

(** The stream [f] has the bytes [pre] behind its cursor and [suf] ahead
    of it, and its end-of-file indicator is clear. *)
Definition cursor_at (f : FILE) (pre suf : list byte) : Prop :=
  fdata f = pre ++ suf /\
  fpos f = Z.of_nat (length pre) /\
  feof f = false.

(** The stream with its cursor moved forward by [n] and the end-of-file
    indicator clear. *)
Definition advance (f : FILE) (n : Z) : FILE :=
  mkFILE (fpath f) (fdata f) (fpos f + n) false.

(** Tags are 32-bit values. *)
Definition tags_in_range (cs : list (Z * list byte)) : Prop :=
  Forall (fun c => 0 <= fst c < 2^32) cs.

(* ================================================================== *)
(** ** More handles used in the examples *)

Definition parser_after_read (p : avi_parser_t) : avi_parser_t :=
  match avi_parser_read_video_frame always_grant demo_fuel (Some p)
                                    (Some blank_frame) with
  | Some (_, Some p', _) => p'
  | _ => p
  end.

Definition frame_after_read (p : avi_parser_t) : mjpeg_frame_t :=
  match avi_parser_read_video_frame always_grant demo_fuel (Some p)
                                    (Some blank_frame) with
  | Some (_, _, Some fr) => fr
  | _ => blank_frame
  end.



Definition four_bytes_file : FILE :=
  mkFILE "w" (bytes_of [0x52; 0x49; 0x46; 0x46; 7]) 0 false.

(** The chunks of [demo_movi]. *)
Definition demo_chunks : list (Z * list byte) :=
  [ (TAG_DC00, bytes_of [0xFF; 0xD8; 1; 0xFF; 0xD9]);
    (TAG_WB01, bytes_of [1; 2; 3; 4; 5; 6; 7]);
    (TAG_DC00, bytes_of [0xFF; 0xD8; 2; 2; 0xFF; 0xD9]);
    (TAG_WB01, bytes_of [8; 9; 10; 11]);
    (TAG_DC00, bytes_of [0xFF; 0xD8; 3; 0xFF; 0xD9]);
    (TAG_DC00, bytes_of [0xFF; 0xD8; 4; 0xFF; 0xD9]) ].

(** The stream of a handle, the bytes before the payload region of the
    demo image, and the first chunk of that region. *)
Definition stream_of (p : avi_parser_t) : FILE :=
  match file p with
  | Some f => f
  | None => four_bytes_file
  end.

Definition demo_prefix : list byte := firstn 224 demo_avi.

Definition demo_first_chunk : list byte :=
  riff_chunk TAG_DC00 (bytes_of [0xFF; 0xD8; 1; 0xFF; 0xD9]).

(* ================================================================== *)
(** ** Audio player: life cycle and transport control *)

Definition AUDIO_SAMPLE_RATE : Z := 22050.
Definition AUDIO_BITS : Z := 16.
Definition AUDIO_CHANNELS : Z := 1.
Definition PIN_AUDIO_BCLK : Z := 26.
Definition PIN_AUDIO_WS : Z := 25.
Definition PIN_AUDIO_DOUT : Z := 22.

Definition default_audio_config : audio_config_t :=
  mk_audio_config AUDIO_SAMPLE_RATE AUDIO_BITS AUDIO_CHANNELS
                  PIN_AUDIO_BCLK PIN_AUDIO_WS PIN_AUDIO_DOUT.

Definition set_a_state (pl : audio_player_t) (st : audio_state_t) :=
  mk_audio_player (tx_handle pl) (config pl) st (volume pl) (a_initialized pl).

Section AudioControl.

(** The state of the I2S driver, and its calls: each yields a status
    and the driver afterwards. *)
Variable driver : Type.
Variable i2s_new_channel : driver -> esp_err_t * Z * driver.
Variable i2s_channel_init_std_mode : Z -> audio_config_t -> driver -> esp_err_t * driver.
Variable i2s_del_channel : Z -> driver -> driver.
Variable i2s_channel_enable : Z -> driver -> esp_err_t * driver.
Variable i2s_channel_disable : Z -> driver -> esp_err_t * driver.

(** Whether [malloc(sizeof(audio_player_t))] is granted. *)
Variable malloc_player : bool.

(** [audio_player_init]; [None] is the NULL result. *)
Definition audio_player_init (cfg : option audio_config_t) (d : driver)
  : option audio_player_t * driver :=
  if negb malloc_player then (None, d)
  else
    let c := match cfg with
             | Some c => c
             | None => default_audio_config
             end in
    let '(r, h, d1) := i2s_new_channel d in
    if negb (esp_err_is_ok r) then (None, d1)
    else
      let '(r2, d2) := i2s_channel_init_std_mode h c d1 in
      if negb (esp_err_is_ok r2) then (None, i2s_del_channel h d2)
      else (Some (mk_audio_player h c AUDIO_STATE_STOPPED 80 true), d2).

(** [audio_player_start] *)
Definition audio_player_start (player : option audio_player_t) (d : driver)
  : esp_err_t * option audio_player_t * driver :=
  match player with
  | None => (ESP_ERR_INVALID_STATE, None, d)
  | Some pl =>
    if negb (a_initialized pl) then (ESP_ERR_INVALID_STATE, player, d)
    else
      match a_state pl with
      | AUDIO_STATE_PLAYING => (ESP_OK, player, d)
      | _ =>
        let '(r, d') := i2s_channel_enable (tx_handle pl) d in
        if negb (esp_err_is_ok r) then (r, player, d')
        else (ESP_OK, Some (set_a_state pl AUDIO_STATE_PLAYING), d')
      end
  end.

(** [audio_player_stop] *)
Definition audio_player_stop (player : option audio_player_t) (d : driver)
  : esp_err_t * option audio_player_t * driver :=
  match player with
  | None => (ESP_ERR_INVALID_STATE, None, d)
  | Some pl =>
    if negb (a_initialized pl) then (ESP_ERR_INVALID_STATE, player, d)
    else
      match a_state pl with
      | AUDIO_STATE_STOPPED => (ESP_OK, player, d)
      | _ =>
        let '(r, d') := i2s_channel_disable (tx_handle pl) d in
        if negb (esp_err_is_ok r) then (r, player, d')
        else (ESP_OK, Some (set_a_state pl AUDIO_STATE_STOPPED), d')
      end
  end.

(** [audio_player_pause] *)
Definition audio_player_pause (player : option audio_player_t) (d : driver)
  : esp_err_t * option audio_player_t * driver :=
  match player with
  | None => (ESP_ERR_INVALID_STATE, None, d)
  | Some pl =>
    if negb (a_initialized pl) then (ESP_ERR_INVALID_STATE, player, d)
    else
      match a_state pl with
      | AUDIO_STATE_PLAYING =>
        let '(r, d') := i2s_channel_disable (tx_handle pl) d in
        if negb (esp_err_is_ok r) then (r, player, d')
        else (ESP_OK, Some (set_a_state pl AUDIO_STATE_PAUSED), d')
      | _ => (ESP_OK, player, d)
      end
  end.

(** [audio_player_resume] *)
Definition audio_player_resume (player : option audio_player_t) (d : driver)
  : esp_err_t * option audio_player_t * driver :=
  match player with
  | None => (ESP_ERR_INVALID_STATE, None, d)
  | Some pl =>
    if negb (a_initialized pl) then (ESP_ERR_INVALID_STATE, player, d)
    else
      match a_state pl with
      | AUDIO_STATE_PAUSED =>
        let '(r, d') := i2s_channel_enable (tx_handle pl) d in
        if negb (esp_err_is_ok r) then (r, player, d')
        else (ESP_OK, Some (set_a_state pl AUDIO_STATE_PLAYING), d')
      | _ => (ESP_OK, player, d)
      end
  end.

(** [audio_player_clear_buffer]; the results of the two driver calls
    are discarded. *)
Definition audio_player_clear_buffer (player : option audio_player_t)
    (d : driver) : esp_err_t * driver :=
  match player with
  | None => (ESP_ERR_INVALID_STATE, d)
  | Some pl =>
    if negb (a_initialized pl) then (ESP_ERR_INVALID_STATE, d)
    else
      let prev_state := a_state pl in
      let d1 := match prev_state with
                | AUDIO_STATE_STOPPED => d
                | _ => snd (i2s_channel_disable (tx_handle pl) d)
                end in
      let d2 := match prev_state with
                | AUDIO_STATE_PLAYING =>
                  snd (i2s_channel_enable (tx_handle pl) d1)
                | _ => d1
                end in
      (ESP_OK, d2)
  end.

(** [audio_player_deinit]: the driver afterwards.  The result of the
    stop is discarded; a channel handle of 0 is the NULL handle. *)
Definition audio_player_deinit (player : option audio_player_t) (d : driver)
  : driver :=
  match player with
  | None => d
  | Some pl =>
    if a_initialized pl then
      let '(_, _, d1) := audio_player_stop player d in
      if tx_handle pl =? 0 then d1 else i2s_del_channel (tx_handle pl) d1
    else d
  end.

End AudioControl.

(** The four transport calls. *)
Inductive audio_op : Type := OpStart | OpStop | OpPause | OpResume.

Definition audio_step {driver : Type}
    (enable disable : Z -> driver -> esp_err_t * driver)
    (op : audio_op) (pl : audio_player_t) (d : driver)
  : esp_err_t * option audio_player_t * driver :=
  match op with
  | OpStart => audio_player_start driver enable (Some pl) d
  | OpStop => audio_player_stop driver disable (Some pl) d
  | OpPause => audio_player_pause driver disable (Some pl) d
  | OpResume => audio_player_resume driver enable (Some pl) d
  end.

(** A sequence of transport calls, each on the player and the driver the
    previous one left. *)
Fixpoint audio_run {driver : Type}
    (enable disable : Z -> driver -> esp_err_t * driver)
    (ops : list audio_op) (pl : audio_player_t) (d : driver)
  : audio_player_t * driver :=
  match ops with
  | [] => (pl, d)
  | op :: rest =>
    match audio_step enable disable op pl d with
    | (_, Some pl', d') => audio_run enable disable rest pl' d'
    | (_, None, d') => (pl, d')
    end
  end.

(** A driver for the examples: its state is whether the channel is
    enabled; enabling an enabled channel and disabling a disabled one
    are refused. *)
Definition demo_enable (_ : Z) (on : bool) : esp_err_t * bool :=
  if on then (ESP_ERR_INVALID_STATE, on) else (ESP_OK, true).

Definition demo_disable (_ : Z) (on : bool) : esp_err_t * bool :=
  if on then (ESP_OK, false) else (ESP_ERR_INVALID_STATE, on).

Definition demo_audio_player : audio_player_t :=
  mk_audio_player 7 default_audio_config AUDIO_STATE_STOPPED 80 true.

Definition echo_i2s_write (_ : Z) (payload : list byte) (size : Z)
  : esp_err_t * Z := (ESP_OK, size).

(** The recorded state agrees with the driver: PLAYING exactly when the
    channel is enabled. *)
Definition audio_in_step {driver : Type} (enabled : driver -> bool)
    (pl : audio_player_t) (d : driver) : Prop :=
  a_state pl = AUDIO_STATE_PLAYING <-> enabled d = true.

(** What [apply_volume] makes of one sample at a volume below 100. *)
Definition scaled_sample (vol s : Z) : Z :=
  if s <? 0 then (if vol =? 0 then 0 else 32767)
  else s * (vol * 65536 / 100) / 65536.

(* ================================================================== *)
(** ** channel_manager.h / channel_manager.c *)

Definition MAX_CHANNELS : Z := 16.
Definition MAX_EPISODES : Z := 64.
Definition MAX_NAME_LEN : Z := 64.
Definition MAX_PATH_LEN : Z := 512.

(** The [name] and [path] buffers are held as the strings they contain.
    The code never writes the last byte of a buffer (its copies stop one
    short of the size), so that byte is the zero of the initial
    [memset] and every buffer holds a terminated string. *)
Record episode_t := mk_episode {
  ep_name : string;
  ep_path : string;
  ep_duration_sec : Z;
  ep_file_size : Z
}.

(** [episodes] is the array of [MAX_EPISODES] slots. *)
Record channel_t := mk_channel {
  ch_name : string;
  ch_path : string;
  episodes : list episode_t;
  episode_count : Z;
  current_episode : Z
}.

(** [cm_channels] is the source field [channels], the array of
    [MAX_CHANNELS] slots; the prefix keeps it apart from the field of the
    same name of the audio format structure. *)
Record channel_manager_t := mk_manager {
  cm_channels : list channel_t;
  channel_count : Z;
  current_channel : Z
}.

Definition zero_episode : episode_t := mk_episode "" "" 0 0.

Definition zero_channel : channel_t :=
  mk_channel "" "" (repeat zero_episode (Z.to_nat MAX_EPISODES)) 0 0.

(** The state left by [memset(manager, 0, sizeof(channel_manager_t))]. *)
Definition zero_manager : channel_manager_t :=
  mk_manager (repeat zero_channel (Z.to_nat MAX_CHANNELS)) 0 0.

(** [a[i] = x] on an array; an index outside the array leaves the list
    as it is (the callers below establish that it is inside). *)
Fixpoint list_set {A} (l : list A) (i : nat) (x : A) : list A :=
  match l, i with
  | [], _ => []
  | _ :: t, O => x :: t
  | h :: t, S i' => h :: list_set t i' x
  end.

(** *** Directory entries and file names *)

Inductive d_type_t : Type := DT_REG | DT_DIR | DT_OTHER.

Record dirent := mk_dirent { d_name : string; d_type : d_type_t }.

Definition is_reg (e : dirent) : bool :=
  match d_type e with DT_REG => true | _ => false end.

Definition is_dir (e : dirent) : bool :=
  match d_type e with DT_DIR => true | _ => false end.

(** Position of the last '.' of a string, scanning from index [i]. *)
Fixpoint last_dot_from (s : string) (i : nat) (acc : option nat) : option nat :=
  match s with
  | EmptyString => acc
  | String c s' =>
    last_dot_from s' (S i) (if Ascii.eqb c "."%char then Some i else acc)
  end.

(** [strrchr(s, '.')]: the tail of [s] from its last '.', if any. *)
Definition strrchr_dot (s : string) : option string :=
  match last_dot_from s 0 None with
  | Some i => Some (substring i (String.length s - i) s)
  | None => None
  end.

(** [tolower] on the letters 'A' .. 'Z'. *)
Definition tolower (c : ascii) : ascii :=
  let n := nat_of_ascii c in
  if (65 <=? n)%nat && (n <=? 90)%nat then ascii_of_nat (n + 32) else c.

Fixpoint lower (s : string) : string :=
  match s with
  | EmptyString => EmptyString
  | String c s' => String (tolower c) (lower s')
  end.

(** [strcasecmp(a, b) == 0] *)
Definition strcasecmp_eq (a b : string) : bool :=
  String.eqb (lower a) (lower b).

Definition video_extensions : list string :=
  [".avi"%string; ".mjpeg"%string; ".mjpg"%string].

(** [is_video_file] *)
Definition is_video_file (filename : string) : bool :=
  match strrchr_dot filename with
  | None => false
  | Some ext => existsb (strcasecmp_eq ext) video_extensions
  end.

(** The first [n] characters: what [strncpy(dst, src, n)] or
    [snprintf(dst, n + 1, ...)] leave in a buffer whose byte [n] is
    zero. *)
Definition trunc (n : nat) (s : string) : string := substring 0 n s.

(** [char *ext = strrchr(name, '.'); if (ext) *ext = 0;] *)
Definition cut_at_last_dot (s : string) : string :=
  match last_dot_from s 0 None with
  | Some i => substring 0 i s
  | None => s
  end.

Definition CHANNELS_ROOT : string := "/sdcard/channels".

Section ChannelScan.

(** The storage medium: [opendir] followed by [readdir] until NULL
    yields the entries of a directory, [stat] the size of a file. *)
Variable opendir : string -> option (list dirent).
Variable stat_size : string -> option Z.

(** The episode slot written for a directory entry. *)
Definition make_episode (channel_path : string) (e : dirent) : episode_t :=
  let full_path := trunc 511 (channel_path ++ "/" ++ d_name e)%string in
  let path := trunc 511 full_path in
  let name := cut_at_last_dot (trunc 63 (d_name e)) in
  let size := match stat_size path with
              | Some sz => u32 sz
              | None => 0
              end in
  mk_episode name path 0 size.

(** The loop of [scan_channel_episodes] over the entries that [readdir]
    delivers. *)
Fixpoint scan_episodes_loop (entries : list dirent) (channel_path : string)
    (ch : channel_t) : channel_t :=
  match entries with
  | [] => ch
  | e :: rest =>
    if episode_count ch <? MAX_EPISODES then
      if negb (is_reg e) then scan_episodes_loop rest channel_path ch
      else if negb (is_video_file (d_name e))
      then scan_episodes_loop rest channel_path ch
      else
        let ep := make_episode channel_path e in
        scan_episodes_loop rest channel_path
          (mk_channel (ch_name ch) (ch_path ch)
             (list_set (episodes ch) (Z.to_nat (episode_count ch)) ep)
             (u8 (episode_count ch + 1)) (current_episode ch))
    else ch
  end.

(** [scan_channel_episodes] *)
Definition scan_channel_episodes (ch : channel_t) (channel_path : string)
  : esp_err_t * channel_t :=
  match opendir channel_path with
  | None => (ESP_FAIL, ch)
  | Some entries =>
    let ch0 := mk_channel (ch_name ch) (ch_path ch) (episodes ch) 0
                          (current_episode ch) in
    (ESP_OK, scan_episodes_loop entries channel_path ch0)
  end.

(** The loop of [channel_manager_scan]. *)
Fixpoint scan_channels_loop (entries : list dirent) (m : channel_manager_t)
  : option channel_manager_t :=
  match entries with
  | [] => Some m
  | e :: rest =>
    if channel_count m <? MAX_CHANNELS then
      if negb (is_dir e) then scan_channels_loop rest m
      else if String.eqb (d_name e) "." || String.eqb (d_name e) ".."
      then scan_channels_loop rest m
      else
        match nth_error (cm_channels m) (Z.to_nat (channel_count m)) with
        | None => None
        | Some slot =>
          let ch := mk_channel (trunc 63 (d_name e))
                      (trunc 511 (CHANNELS_ROOT ++ "/" ++ d_name e)%string)
                      (episodes slot) (episode_count slot)
                      (current_episode slot) in
          let '(r, ch1) := scan_channel_episodes ch (ch_path ch) in
          if esp_err_is_ok r && (0 <? episode_count ch1) then
            let ch2 := mk_channel (ch_name ch1) (ch_path ch1) (episodes ch1)
                         (episode_count ch1) 0 in
            scan_channels_loop rest
              (mk_manager
                 (list_set (cm_channels m) (Z.to_nat (channel_count m)) ch2)
                 (u8 (channel_count m + 1)) (current_channel m))
          else
            scan_channels_loop rest
              (mk_manager
                 (list_set (cm_channels m) (Z.to_nat (channel_count m)) ch1)
                 (channel_count m) (current_channel m))
        end
    else Some m
  end.

(** [channel_manager_scan].  The last component tells whether the
    channels directory was missing and [mkdir] was called; [None] is a
    run that would index outside the channel array. *)
Definition channel_manager_scan (manager : option channel_manager_t)
  : option (esp_err_t * option channel_manager_t * bool) :=
  match manager with
  | None => Some (ESP_ERR_INVALID_ARG, None, false)
  | Some m =>
    let m0 := mk_manager (cm_channels m) 0 0 in
    match opendir CHANNELS_ROOT with
    | None => Some (ESP_OK, Some m0, true)
    | Some entries =>
      match scan_channels_loop entries m0 with
      | Some m1 => Some (ESP_OK, Some m1, false)
      | None => None
      end
    end
  end.

(** [channel_manager_init] *)
Definition channel_manager_init (manager : option channel_manager_t)
  : option (esp_err_t * option channel_manager_t * bool) :=
  match manager with
  | None => Some (ESP_ERR_INVALID_ARG, None, false)
  | Some _ => channel_manager_scan (Some zero_manager)
  end.

End ChannelScan.

(** A pointer into the channel array: [PNull], a slot with its
    contents, or an address outside the array. *)
Inductive slot_ptr (A : Type) : Type :=
| PNull
| PSlot (i : Z) (v : A)
| POutside (i : Z).
Arguments PNull {A}.
Arguments PSlot {A} i v.
Arguments POutside {A} i.

(** [channel_manager_get_current] *)
Definition channel_manager_get_current (manager : option channel_manager_t)
  : slot_ptr channel_t :=
  match manager with
  | None => PNull
  | Some m =>
    if channel_count m =? 0 then PNull
    else match nth_error (cm_channels m) (Z.to_nat (current_channel m)) with
         | Some ch => PSlot (current_channel m) ch
         | None => POutside (current_channel m)
         end
  end.

(** [channel_manager_next_channel] *)
Definition channel_manager_next_channel (manager : option channel_manager_t)
  : esp_err_t * option channel_manager_t :=
  match manager with
  | None => (ESP_FAIL, None)
  | Some m =>
    if channel_count m =? 0 then (ESP_FAIL, manager)
    else (ESP_OK,
          Some (mk_manager (cm_channels m) (channel_count m)
                  (u8 ((current_channel m + 1) mod channel_count m))))
  end.

(** [channel_manager_prev_channel] *)
Definition channel_manager_prev_channel (manager : option channel_manager_t)
  : esp_err_t * option channel_manager_t :=
  match manager with
  | None => (ESP_FAIL, None)
  | Some m =>
    if channel_count m =? 0 then (ESP_FAIL, manager)
    else
      let cur := if current_channel m =? 0
                 then u8 (channel_count m - 1)
                 else u8 (current_channel m - 1) in
      (ESP_OK, Some (mk_manager (cm_channels m) (channel_count m) cur))
  end.

(** [channel_manager_set_channel] *)
Definition channel_manager_set_channel (manager : option channel_manager_t)
    (channel_idx : Z) : esp_err_t * option channel_manager_t :=
  match manager with
  | None => (ESP_ERR_INVALID_ARG, None)
  | Some m =>
    if channel_count m <=? channel_idx then (ESP_ERR_INVALID_ARG, manager)
    else (ESP_OK, Some (mk_manager (cm_channels m) (channel_count m) channel_idx))
  end.

(** [channel_manager_get_current_episode] *)
Definition channel_manager_get_current_episode
    (manager : option channel_manager_t) : slot_ptr episode_t :=
  match channel_manager_get_current manager with
  | PNull => PNull
  | POutside i => POutside i
  | PSlot _ ch =>
    if episode_count ch =? 0 then PNull
    else match nth_error (episodes ch) (Z.to_nat (current_episode ch)) with
         | Some ep => PSlot (current_episode ch) ep
         | None => POutside (current_episode ch)
         end
  end.

(** [channel_manager_next_episode]; [None] is a run that would index
    outside the channel array. *)
Definition channel_manager_next_episode (manager : option channel_manager_t)
  : option (esp_err_t * option channel_manager_t) :=
  match manager with
  | None => Some (ESP_FAIL, None)
  | Some m =>
    if channel_count m =? 0 then Some (ESP_FAIL, manager)
    else
      match nth_error (cm_channels m) (Z.to_nat (current_channel m)) with
      | None => None
      | Some ch =>
        if episode_count ch =? 0 then Some (ESP_FAIL, manager)
        else
          let ch' := mk_channel (ch_name ch) (ch_path ch) (episodes ch)
                       (episode_count ch)
                       (u8 ((current_episode ch + 1) mod episode_count ch)) in
          Some (ESP_OK,
                Some (mk_manager
                        (list_set (cm_channels m) (Z.to_nat (current_channel m)) ch')
                        (channel_count m) (current_channel m)))
      end
  end.

(** [channel_manager_get_channel_count] *)
Definition channel_manager_get_channel_count
    (manager : option channel_manager_t) : Z :=
  match manager with Some m => channel_count m | None => 0 end.

(** *** What a scan is meant to compute *)

(** The part of a channel slot that the interface shows. *)
Definition channel_view (ch : channel_t)
  : string * string * list episode_t * Z :=
  (ch_name ch, ch_path ch,
   firstn (Z.to_nat (episode_count ch)) (episodes ch),
   current_episode ch).

Definition manager_view (m : channel_manager_t)
  : list (string * string * list episode_t * Z) :=
  map channel_view (firstn (Z.to_nat (channel_count m)) (cm_channels m)).

Definition nonempty_view (v : string * string * list episode_t * Z) : bool :=
  match v with
  | (_, _, eps, _) => negb (Nat.eqb (length eps) 0)
  end.

(** The entries that become episodes. *)
Definition episode_ok (e : dirent) : bool :=
  is_reg e && is_video_file (d_name e).

Section ScanSpec.

Variable opendir : string -> option (list dirent).
Variable stat_size : string -> option Z.

(** The episodes of a directory: its regular files with a video
    extension, in directory order, at most [MAX_EPISODES]. *)
Definition listed_episodes (channel_path : string) : list episode_t :=
  match opendir channel_path with
  | None => []
  | Some entries =>
    firstn (Z.to_nat MAX_EPISODES)
      (map (make_episode stat_size channel_path)
           (filter episode_ok entries))
  end.

Definition is_channel_dir (e : dirent) : bool :=
  is_dir e && negb (String.eqb (d_name e) "." || String.eqb (d_name e) "..").

Definition listed_channel (e : dirent)
  : string * string * list episode_t * Z :=
  let p := trunc 511 (CHANNELS_ROOT ++ "/" ++ d_name e)%string in
  (trunc 63 (d_name e), p, listed_episodes p, 0).

(** The channels of the medium: the sub-directories of the root that
    hold at least one episode, in directory order, at most
    [MAX_CHANNELS]. *)
Definition listed_channels : list (string * string * list episode_t * Z) :=
  match opendir CHANNELS_ROOT with
  | None => []
  | Some entries =>
    firstn (Z.to_nat MAX_CHANNELS)
      (filter nonempty_view
              (map listed_channel (filter is_channel_dir entries)))
  end.

End ScanSpec.

(** The shape and index invariant of a manager: arrays of the declared
    sizes, counts within them, every channel in use non-empty, and the
    current indices inside the counts. *)
Definition channel_ok (ch : channel_t) : Prop :=
  length (episodes ch) = Z.to_nat MAX_EPISODES /\
  0 < episode_count ch <= MAX_EPISODES /\
  0 <= current_episode ch < episode_count ch.

Definition manager_ok (m : channel_manager_t) : Prop :=
  length (cm_channels m) = Z.to_nat MAX_CHANNELS /\
  Forall (fun ch => length (episodes ch) = Z.to_nat MAX_EPISODES) (cm_channels m) /\
  0 <= channel_count m <= MAX_CHANNELS /\
  (channel_count m = 0 -> current_channel m = 0) /\
  (0 < channel_count m -> 0 <= current_channel m < channel_count m) /\
  Forall channel_ok (firstn (Z.to_nat (channel_count m)) (cm_channels m)).

(** Arrays of the declared sizes (all that a scan needs). *)
Definition manager_shape (m : channel_manager_t) : Prop :=
  length (cm_channels m) = Z.to_nat MAX_CHANNELS /\
  Forall (fun ch => length (episodes ch) = Z.to_nat MAX_EPISODES) (cm_channels m).

(** A medium for the examples. *)
Definition demo_opendir (p : string) : option (list dirent) :=
  if String.eqb p "/sdcard/channels" then
    Some [ mk_dirent "." DT_DIR; mk_dirent ".." DT_DIR;
           mk_dirent "readme.txt" DT_REG;
           mk_dirent "cartoons" DT_DIR; mk_dirent "empty" DT_DIR;
           mk_dirent "news" DT_DIR ]
  else if String.eqb p "/sdcard/channels/cartoons" then
    Some [ mk_dirent "ep1.avi" DT_REG; mk_dirent "notes.txt" DT_REG;
           mk_dirent "ep2.AVI" DT_REG; mk_dirent "extras.avi" DT_DIR;
           mk_dirent "ep3.v2.mjpeg" DT_REG ]
  else if String.eqb p "/sdcard/channels/empty" then
    Some [ mk_dirent "cover.jpg" DT_REG ]
  else if String.eqb p "/sdcard/channels/news" then
    Some [ mk_dirent "monday.mjpg" DT_REG ]
  else None.

Definition demo_stat (p : string) : option Z :=
  if String.eqb p "/sdcard/channels/cartoons/ep1.avi" then Some 1048576
  else if String.eqb p "/sdcard/channels/news/monday.mjpg" then Some 4096
  else None.

Definition demo_manager : channel_manager_t :=
  match channel_manager_init demo_opendir demo_stat (Some zero_manager) with
  | Some (_, Some m, _) => m
  | _ => zero_manager
  end.

(** Whether a string contains a '.'. *)
Fixpoint has_dot (s : string) : bool :=
  match s with
  | EmptyString => false
  | String c s' => Ascii.eqb c "."%char || has_dot s'
  end.

(* ================================================================== *)
(** ** The chunk loop of [parse_list] on its own

    [list_chunks fuel' list_size n bytes_read] is the loop that
    [parse_list (S fuel') list_size] enters for a list other than the
    payload list, with [n] iterations left and [bytes_read] bytes
    accounted for. *)
Section ListChunks.

Variable fuel' : nat.
Variable list_size : Z.

Fixpoint list_chunks (n : nat) (bytes_read : Z) {struct n} : M esp_err_t :=
  if bytes_read <? u32 (list_size - 4) then
    match n with
    | O => stuck
    | S n' =>
      fourcc <- rd_fourcc ;;
      size <- rd_le32 ;;
      let bytes_read := u32 (bytes_read + 8) in
      (if fourcc =? FOURCC_AVIH then parse_avih size ;;; ret tt
       else if fourcc =? FOURCC_STRH then parse_strh size ;;; ret tt
       else if fourcc =? FOURCC_STRF then
         found <- get (fun p => vi_found (video_info p)) ;;
         if found : bool then parse_strf_video size ;;; ret tt
         else parse_strf_audio size ;;; ret tt
       else if fourcc =? FOURCC_LIST then parse_list fuel' size ;;; ret tt
       else seek_cur (to_long size)) ;;;
      let bytes_read := u32 (bytes_read + size) in
      if is_odd size then
        seek_cur 1 ;;; list_chunks n' (u32 (bytes_read + 1))
      else list_chunks n' bytes_read
    end
  else ret ESP_OK.

End ListChunks.

(** The header list of a container with one video stream, with the
    four bytes of each varying field given. *)
Definition hdrl_bytes (us n w h : list byte) : list byte :=
  le32_bytes FOURCC_LIST ++ le32_bytes 192 ++ le32_bytes FOURCC_HDRL
  ++ le32_bytes FOURCC_AVIH ++ le32_bytes 56
  ++ us ++ dwords [0; 0; 0x10] ++ n ++ dwords [0; 1; 0] ++ w ++ h
  ++ dwords [0; 0; 0; 0]
  ++ le32_bytes FOURCC_LIST ++ le32_bytes 116 ++ le32_bytes FOURCC_STRL
  ++ le32_bytes FOURCC_STRH ++ le32_bytes 56
  ++ dwords [FOURCC_VIDS; FOURCC_MJPG; 0; 0; 0; 1; 15; 0] ++ n
  ++ dwords [0; 0; 0; 0; 0]
  ++ le32_bytes FOURCC_STRF ++ le32_bytes 40
  ++ le32_bytes 40 ++ w ++ h ++ le16_bytes 1 ++ le16_bytes 24
  ++ dwords [FOURCC_MJPG; 0; 0; 0; 0; 0].

(** A container image by its bytes: envelope, header list, then the
    header of the payload list and what follows. *)
Definition image_bytes (rsz us n w h msz : list byte) (movi : list byte)
  : list byte :=
  riff_tag ++ rsz ++ avi_tag ++ hdrl_bytes us n w h
  ++ le32_bytes FOURCC_LIST ++ msz ++ le32_bytes FOURCC_MOVI ++ movi.

(* ================================================================== *)
(** * Properties *)


(** ** Bytes and little-endian words *)

Lemma byte_val_range (b : byte) : 0 <= byte_val b < 256.
Proof.
  unfold byte_val.
  pose proof (Byte.to_N_bounded b) as H.
  split; [apply N2Z.is_nonneg|].
  apply N.lt_succ_r in H. change (N.succ 255) with 256%N in H.
  apply N2Z.inj_lt in H. exact H.
Qed.

Lemma byte_of_Z_val (b : byte) : byte_of_Z (byte_val b) = b.
Proof.
  unfold byte_of_Z, u8.
  pose proof (byte_val_range b) as R.
  rewrite Z.mod_small by (change (2^8) with 256; lia).
  unfold byte_val. rewrite N2Z.id, Byte.of_to_N. reflexivity.
Qed.

(** With [a] below [2^n], or-ing [a] onto a value shifted left by [n]
    adds it. *)
Lemma lor_shiftl_add (a b n : Z) :
  0 <= n -> 0 <= a < 2^n -> Z.lor a (Z.shiftl b n) = a + b * 2^n.
Proof.
  intros Hn Ha.
  assert (L : Z.land a (Z.shiftl b n) = 0).
  { apply Z.bits_inj'. intros m Hm.
    rewrite Z.land_spec, Z.bits_0.
    destruct (Z.lt_ge_cases m n) as [Hlt|Hge].
    - rewrite (Z.shiftl_spec_low b n m Hlt). apply andb_false_r.
    - assert (T : Z.testbit a m = false).
      { rewrite <- (Z.mod_small a (2^n)) by lia.
        apply Z.mod_pow2_bits_high. lia. }
      rewrite T. reflexivity. }
  rewrite <- Z.lxor_lor by exact L.
  rewrite <- Z.add_nocarry_lxor by exact L.
  rewrite Z.shiftl_mul_pow2 by exact Hn. reflexivity.
Qed.

Lemma lor_mul_add (a b n : Z) :
  0 <= n -> 0 <= a < 2^n -> Z.lor a (b * 2^n) = a + b * 2^n.
Proof.
  intros Hn Ha. rewrite <- Z.shiftl_mul_pow2 by exact Hn.
  rewrite lor_shiftl_add by assumption.
  rewrite Z.shiftl_mul_pow2 by exact Hn. reflexivity.
Qed.

Lemma le32_sum (b0 b1 b2 b3 : byte) :
  le32 b0 b1 b2 b3 =
  byte_val b0 + 256 * byte_val b1 + 65536 * byte_val b2
  + 16777216 * byte_val b3.
Proof.
  unfold le32, u32.
  pose proof (byte_val_range b0). pose proof (byte_val_range b1).
  pose proof (byte_val_range b2). pose proof (byte_val_range b3).
  rewrite !Z.shiftl_mul_pow2 by lia.
  rewrite (lor_mul_add (byte_val b2 * 2^16) (byte_val b3) 24) by lia.
  replace (byte_val b2 * 2^16 + byte_val b3 * 2^24)
    with ((byte_val b2 + byte_val b3 * 2^8) * 2^16) by lia.
  rewrite (lor_mul_add (byte_val b1 * 2^8) _ 16) by lia.
  replace (byte_val b1 * 2^8 + (byte_val b2 + byte_val b3 * 2^8) * 2^16)
    with ((byte_val b1 + (byte_val b2 + byte_val b3 * 2^8) * 2^8) * 2^8) by lia.
  rewrite (lor_mul_add (byte_val b0) _ 8) by lia.
  rewrite Z.mod_small by lia. lia.
Qed.


(** Decoding then laying out again gives the four bytes back. *)
Lemma u8_digit (lo hi x : Z) :
  0 <= lo < 256 -> 0 <= x < 256 -> 0 <= hi ->
  u8 ((lo + 256 * x + 65536 * hi) / 256) = x.
Proof.
  intros Hlo Hx Hhi. unfold u8. change (2^8) with 256.
  replace (lo + 256 * x + 65536 * hi) with (lo + (x + 256 * hi) * 256) by lia.
  rewrite Z.div_add by lia. rewrite (Z.div_small lo 256) by lia.
  replace (0 + (x + 256 * hi)) with (x + hi * 256) by lia.
  rewrite Z.mod_add by lia. apply Z.mod_small. lia.
Qed.

(** Decoding then laying out again gives the four bytes back. *)
Lemma le32_bytes_le32 (b0 b1 b2 b3 : byte) :
  le32_bytes (le32 b0 b1 b2 b3) = [b0; b1; b2; b3].
Proof.
  unfold le32_bytes. rewrite !Z.shiftr_div_pow2 by lia.
  rewrite le32_sum.
  pose proof (byte_val_range b0) as R0. pose proof (byte_val_range b1) as R1.
  pose proof (byte_val_range b2) as R2. pose proof (byte_val_range b3) as R3.
  set (v0 := byte_val b0) in *. set (v1 := byte_val b1) in *.
  set (v2 := byte_val b2) in *. set (v3 := byte_val b3) in *.
  assert (E0 : u8 (v0 + 256 * v1 + 65536 * v2 + 16777216 * v3) = v0).
  { unfold u8. change (2^8) with 256.
    replace (v0 + 256 * v1 + 65536 * v2 + 16777216 * v3)
      with (v0 + (v1 + 256 * v2 + 65536 * v3) * 256) by lia.
    rewrite Z.mod_add by lia. apply Z.mod_small. lia. }
  assert (E1 : u8 ((v0 + 256 * v1 + 65536 * v2 + 16777216 * v3) / 2^8) = v1).
  { change (2^8) with 256.
    replace (v0 + 256 * v1 + 65536 * v2 + 16777216 * v3)
      with (v0 + 256 * v1 + 65536 * (v2 + 256 * v3)) by lia.
    apply u8_digit; lia. }
  assert (E2 : u8 ((v0 + 256 * v1 + 65536 * v2 + 16777216 * v3) / 2^16) = v2).
  { change (2^16) with (256 * 256). rewrite <- Z.div_div by lia.
    replace (v0 + 256 * v1 + 65536 * v2 + 16777216 * v3)
      with (v0 + (v1 + 256 * v2 + 65536 * v3) * 256) by lia.
    rewrite Z.div_add by lia. rewrite (Z.div_small v0 256) by lia.
    rewrite Z.add_0_l. apply u8_digit; lia. }
  assert (E3 : u8 ((v0 + 256 * v1 + 65536 * v2 + 16777216 * v3) / 2^24) = v3).
  { change (2^24) with (256 * (256 * 256)). rewrite <- Z.div_div by lia.
    replace (v0 + 256 * v1 + 65536 * v2 + 16777216 * v3)
      with (v0 + (v1 + 256 * v2 + 65536 * v3) * 256) by lia.
    rewrite Z.div_add by lia. rewrite (Z.div_small v0 256) by lia.
    rewrite Z.add_0_l. rewrite <- Z.div_div by lia.
    replace (v1 + 256 * v2 + 65536 * v3) with (v1 + (v2 + 256 * v3) * 256) by lia.
    rewrite Z.div_add by lia. rewrite (Z.div_small v1 256) by lia.
    rewrite Z.add_0_l.
    replace (v2 + 256 * v3) with (v2 + v3 * 256) by lia.
    rewrite Z.div_add by lia. rewrite (Z.div_small v2 256) by lia.
    unfold u8. apply Z.mod_small. change (2^8) with 256. lia. }
  unfold byte_of_Z. rewrite E0, E1, E2, E3.
  subst v0 v1 v2 v3. unfold byte_val. rewrite !N2Z.id, !Byte.of_to_N.
  reflexivity.
Qed.

(** ** Stepping through parser computations *)

Lemma bind_Some {A B} (c : M A) (k : A -> M B) p r :
  bind c k p = Some r ->
  exists a p1, c p = Some (a, p1) /\ k a p1 = Some r.
Proof.
  unfold bind. destruct (c p) as [[a p1]|]; [|discriminate].
  intros H. exists a, p1. split; [reflexivity|exact H].
Qed.

Lemma on_file_Some {A} (op : FILE -> A * FILE) p a p' :
  on_file op p = Some (a, p') ->
  exists f, file p = Some f /\ a = fst (op f)
            /\ p' = set_file p (Some (snd (op f))).
Proof.
  unfold on_file. destruct (file p) as [f|]; [|discriminate].
  destruct (op f) as [a0 f'] eqn:E. intros H. inversion H; subst.
  exists f. rewrite E. repeat split.
Qed.

Lemma on_file_view {A} (op : FILE -> A * FILE) p a p' :
  on_file op p = Some (a, p') ->
  header_view p' = header_view p /\ current_frame p' = current_frame p
  /\ file p' <> None.
Proof.
  intros H. apply on_file_Some in H. destruct H as (f & _ & _ & ->).
  repeat split. discriminate.
Qed.

Tactic Notation "mstep" hyp(H) "as" ident(a) ident(q) ident(E) :=
  apply bind_Some in H; destruct H as (a & q & E & H).

Lemma read_video_loop_eq malloc_ok fuel frame :
  read_video_loop malloc_ok fuel frame =
  (e <- at_eof ;;
   if e : bool then ret (ESP_ERR_NOT_FOUND, frame)
   else
     match fuel with
     | O => stuck
     | S fuel' =>
       fourcc <- rd_fourcc ;;
       e <- at_eof ;;
       if e : bool then ret (ESP_ERR_NOT_FOUND, frame)
       else
         size <- rd_le32 ;;
         if is_video_chunk fourcc then
           if negb (malloc_ok size) then
             ret (ESP_ERR_NO_MEM, set_fr_data frame Null)
           else
             data <- rd_bytes size ;;
             if negb (Z.of_nat (length data) =? size) then
               ret (ESP_FAIL, set_fr_data frame Freed)
             else
               cur <- get current_frame ;;
               us <- get (fun p => micro_sec_per_frame (main_header p)) ;;
               let fr := mk_frame (Block data) size cur
                                  (frame_timestamp_ms cur us) in
               modify (fun p => set_current_frame p (u32 (cur + 1))) ;;;
               (if is_odd size then seek_cur 1 else ret tt) ;;;
               ret (ESP_OK, fr)
         else
           seek_cur (to_long size) ;;;
           (if is_odd size then seek_cur 1 else ret tt) ;;;
           read_video_loop malloc_ok fuel' frame
     end).
Proof. destruct fuel; reflexivity. Qed.

Lemma pad_skip_view (size : Z) p (u : unit) p' :
  (if is_odd size then seek_cur 1 else ret tt) p = Some (u, p') ->
  header_view p' = header_view p /\ current_frame p' = current_frame p.
Proof.
  destruct (is_odd size); intros H.
  - apply on_file_view in H. tauto.
  - inversion H; subst. auto.
Qed.

(** What a call of the scanning loop does to the handle and what it
    stores in the frame structure. *)
Lemma read_video_loop_effect malloc_ok fuel :
  forall frame p r fr' p',
    read_video_loop malloc_ok fuel frame p = Some ((r, fr'), p') ->
    header_view p' = header_view p /\
    (r = ESP_OK ->
       frame_num fr' = current_frame p /\
       timestamp_ms fr' =
         frame_timestamp_ms (current_frame p)
                            (micro_sec_per_frame (main_header p)) /\
       current_frame p' = u32 (current_frame p + 1)) /\
    (r <> ESP_OK -> current_frame p' = current_frame p).
Proof.
  induction fuel as [|fuel IH]; intros frame p r fr' p' H;
    rewrite read_video_loop_eq in H.
  - mstep H as e q E. apply on_file_view in E. destruct E as (V & C & _).
    destruct e; [|discriminate].
    inversion H; subst. repeat split; auto; try discriminate.
  - mstep H as e q E. apply on_file_view in E. destruct E as (V & C & _).
    destruct e.
    { inversion H; subst. repeat split; auto; discriminate. }
    mstep H as fourcc q1 E. apply on_file_view in E. destruct E as (V1 & C1 & _).
    mstep H as e q2 E. apply on_file_view in E. destruct E as (V2 & C2 & _).
    destruct e.
    { inversion H; subst. repeat split; try congruence; discriminate. }
    mstep H as size q3 E. apply on_file_view in E. destruct E as (V3 & C3 & _).
    destruct (is_video_chunk fourcc).
    + destruct (negb (malloc_ok size)).
      { inversion H; subst. repeat split; try congruence; discriminate. }
      mstep H as data q4 E. apply on_file_view in E. destruct E as (V4 & C4 & _).
      destruct (negb (Z.of_nat (length data) =? size)).
      { inversion H; subst. repeat split; try congruence; discriminate. }
      mstep H as cur q5 E. inversion E; subst; clear E.
      mstep H as us q6 E. inversion E; subst; clear E.
      mstep H as u q7 E. inversion E; subst; clear E.
      mstep H as u' q8 E. apply pad_skip_view in E. destruct E as (V5 & C5).
      inversion H; subst; clear H.
      simpl in *.
      assert (HV : header_view q6 = header_view p) by congruence.
      assert (HC : current_frame q6 = current_frame p) by congruence.
      unfold header_view in *. simpl in V5.
      repeat split; congruence.
    + mstep H as u q4 E. apply on_file_view in E. destruct E as (V4 & C4 & _).
      mstep H as u' q5 E. apply pad_skip_view in E. destruct E as (V5 & C5).
      apply IH in H. destruct H as (V6 & Hok & Hko).
      assert (HV : header_view q5 = header_view p) by congruence.
      assert (HC : current_frame q5 = current_frame p) by congruence.
      split; [congruence|]. split.
      * intros Hr. destruct (Hok Hr) as (F1 & F2 & F3).
        unfold header_view in HV. inversion HV.
        repeat split; congruence.
      * intros Hr. rewrite (Hko Hr). exact HC.
Qed.

Lemma read_video_frame_effect malloc_ok fuel p fr r p' fr' :
  avi_parser_read_video_frame malloc_ok fuel (Some p) (Some fr)
    = Some (r, Some p', Some fr') ->
  header_view p' = header_view p /\
  (r = ESP_OK ->
     frame_num fr' = current_frame p /\
     timestamp_ms fr' =
       frame_timestamp_ms (current_frame p)
                          (micro_sec_per_frame (main_header p)) /\
     current_frame p' = u32 (current_frame p + 1)) /\
  (r <> ESP_OK -> current_frame p' = current_frame p).
Proof.
  unfold avi_parser_read_video_frame.
  destruct (negb (initialized p)).
  - intros H. inversion H; subst. repeat split; auto; discriminate.
  - destruct (read_video_loop malloc_ok fuel fr p) as [[[r0 fr0] p0]|] eqn:E;
      [|discriminate].
    intros H. inversion H; subst.
    exact (read_video_loop_effect malloc_ok fuel fr p r fr' p' E).
Qed.

(** The skipping loop of seek stops exactly at the target index. *)
Lemma seek_loop_reaches malloc_ok fuel target :
  forall n p p',
    0 <= current_frame p <= target -> target < 2^32 ->
    seek_loop malloc_ok n fuel target p = Some (ESP_OK, p') ->
    current_frame p' = target /\ header_view p' = header_view p.
Proof.
  induction n as [|n IH]; intros p p' Hc Ht H; cbn [seek_loop] in H.
  - destruct (current_frame p <? target) eqn:L; [discriminate|].
    inversion H; subst. apply Z.ltb_ge in L. split; [lia|reflexivity].
  - destruct (current_frame p <? target) eqn:L.
    + apply Z.ltb_lt in L.
      destruct (avi_parser_read_video_frame malloc_ok fuel (Some p)
                  (Some blank_frame)) as [[[r [p1|]] fr1]|] eqn:E.
      * destruct fr1 as [fr1|].
        2:{ unfold avi_parser_read_video_frame in E.
            destruct (negb (initialized p)); [discriminate|].
            destruct (read_video_loop malloc_ok fuel blank_frame p)
              as [[[? ?] ?]|]; discriminate. }
        pose proof (read_video_frame_effect _ _ _ _ _ _ _ E) as (V & Hok & _).
        destruct r; try discriminate.
        destruct (Hok eq_refl) as (_ & _ & C).
        assert (C' : current_frame p1 = current_frame p + 1).
        { rewrite C. unfold u32. apply Z.mod_small. lia. }
        apply IH in H; [|lia|lia].
        destruct H as (H1 & H2). split; congruence.
      * destruct r; discriminate.
      * discriminate.
    + inversion H; subst. apply Z.ltb_ge in L. split; [lia|reflexivity].
Qed.

Lemma avi_parser_seek_reaches malloc_ok fuel p n p' :
  0 <= n < 2^32 ->
  avi_parser_seek malloc_ok fuel (Some p) n = Some (ESP_OK, Some p') ->
  current_frame p' = n /\ header_view p' = header_view p.
Proof.
  intros Hn. unfold avi_parser_seek.
  destruct (negb (initialized p)); [discriminate|].
  destruct (seek_set (to_long (movi_offset p)) p) as [[u p1]|] eqn:E;
    [|discriminate].
  apply on_file_view in E. destruct E as (V & C & _).
  destruct (seek_loop malloc_ok (Z.to_nat n) fuel n (set_current_frame p1 0))
    as [[r p2]|] eqn:L; [|discriminate].
  intros H. inversion H; subst.
  apply seek_loop_reaches in L; simpl; try lia.
  destruct L as (L1 & L2). split; [exact L1|].
  rewrite L2. exact V.
Qed.

(** The index relation between seek and the next read: whenever the
    read after a successful seek delivers a frame, the frame carries
    the index that was sought. *)
Lemma seek_then_read_index malloc_ok fuel1 fuel2 p n p1 fr0 p2 fr :
  0 <= n < 2^32 ->
  avi_parser_seek malloc_ok fuel1 (Some p) n = Some (ESP_OK, Some p1) ->
  avi_parser_read_video_frame malloc_ok fuel2 (Some p1) (Some fr0)
    = Some (ESP_OK, Some p2, Some fr) ->
  frame_num fr = n.
Proof.
  intros Hn Hs Hr.
  apply avi_parser_seek_reaches in Hs; [|exact Hn].
  apply read_video_frame_effect in Hr.
  destruct Hr as (_ & Hok & _). destruct (Hok eq_refl) as (F & _).
  destruct Hs as (C & _). congruence.
Qed.

(** Two successful reads in a row: the second frame carries the next
    index (indices are 32-bit counters). *)
Lemma consecutive_reads_index malloc_ok fuel1 fuel2 p fr0 p1 fr1 fr0' p2 fr2 :
  avi_parser_read_video_frame malloc_ok fuel1 (Some p) (Some fr0)
    = Some (ESP_OK, Some p1, Some fr1) ->
  avi_parser_read_video_frame malloc_ok fuel2 (Some p1) (Some fr0')
    = Some (ESP_OK, Some p2, Some fr2) ->
  frame_num fr2 = u32 (frame_num fr1 + 1) /\
  (0 <= frame_num fr1 < UINT32_MAX -> frame_num fr2 = frame_num fr1 + 1).
Proof.
  intros H1 H2.
  apply read_video_frame_effect in H1. apply read_video_frame_effect in H2.
  destruct H1 as (_ & Hok1 & _). destruct H2 as (_ & Hok2 & _).
  destruct (Hok1 eq_refl) as (F1 & _ & C1).
  destruct (Hok2 eq_refl) as (F2 & _ & _).
  assert (E : frame_num fr2 = u32 (frame_num fr1 + 1)) by congruence.
  split; [exact E|].
  intros R. rewrite E. unfold u32. apply Z.mod_small.
  unfold UINT32_MAX in R. lia.
Qed.

(** ** Iteration budgets

    A result obtained within some budget is the result for every larger
    budget, and the skipping loop of seek never exhausts its own
    counter: a budget can cut a run short, it never changes a result. *)

Ltac split_run H :=
  repeat match type of H with
         | match ?c with _ => _ end = Some _ =>
           destruct c as [[? ?]|] eqn:?; [|discriminate H]
         | (if ?b then _ else _) _ = Some _ => destruct b eqn:?
         end.

Lemma read_video_loop_fuel_mono malloc_ok fuel :
  forall fuel' frame p r,
    (fuel <= fuel')%nat ->
    read_video_loop malloc_ok fuel frame p = Some r ->
    read_video_loop malloc_ok fuel' frame p = Some r.
Proof.
  induction fuel as [|fuel IH]; intros fuel' frame p r Hle H.
  - rewrite read_video_loop_eq in H |- *. unfold bind in *.
    destruct (at_eof p) as [[[|] q]|]; try discriminate H. exact H.
  - destruct fuel' as [|fuel']; [lia|].
    rewrite read_video_loop_eq in H |- *. unfold bind in *.
    split_run H; try exact H.
    apply IH; [lia|exact H].
Qed.

Lemma seek_loop_budget malloc_ok fuel target :
  forall n p,
    0 <= current_frame p -> target < 2^32 ->
    (Z.to_nat (target - current_frame p) <= n)%nat ->
    seek_loop malloc_ok (S n) fuel target p
    = seek_loop malloc_ok n fuel target p.
Proof.
  induction n as [|n IH]; intros p Hc Ht Hn.
  - cbn [seek_loop].
    destruct (current_frame p <? target) eqn:L; [|reflexivity].
    apply Z.ltb_lt in L. lia.
  - change (seek_loop malloc_ok (S (S n)) fuel target p)
      with (if current_frame p <? target then
              match avi_parser_read_video_frame malloc_ok fuel (Some p)
                      (Some blank_frame) with
              | Some (ESP_OK, Some p', _) =>
                seek_loop malloc_ok (S n) fuel target p'
              | Some (_, Some p', _) => Some (ESP_FAIL, p')
              | _ => None
              end
            else Some (ESP_OK, p)).
    change (seek_loop malloc_ok (S n) fuel target p)
      with (if current_frame p <? target then
              match avi_parser_read_video_frame malloc_ok fuel (Some p)
                      (Some blank_frame) with
              | Some (ESP_OK, Some p', _) =>
                seek_loop malloc_ok n fuel target p'
              | Some (_, Some p', _) => Some (ESP_FAIL, p')
              | _ => None
              end
            else Some (ESP_OK, p)).
    destruct (current_frame p <? target) eqn:L; [|reflexivity].
    apply Z.ltb_lt in L.
    destruct (avi_parser_read_video_frame malloc_ok fuel (Some p)
                (Some blank_frame)) as [[[r [p1|]] fr1]|] eqn:E;
      try reflexivity.
    destruct r; try reflexivity.
    destruct fr1 as [fr1|].
    2:{ unfold avi_parser_read_video_frame in E.
        destruct (negb (initialized p)); [discriminate|].
        destruct (read_video_loop malloc_ok fuel blank_frame p)
          as [[[? ?] ?]|]; discriminate. }
    pose proof (read_video_frame_effect _ _ _ _ _ _ _ E) as (_ & Hok & _).
    destruct (Hok eq_refl) as (_ & _ & C).
    assert (C' : current_frame p1 = current_frame p + 1).
    { rewrite C. unfold u32. apply Z.mod_small. lia. }
    apply IH; lia.
Qed.

(** ** The audio chunk reader *)

Lemma read_audio_loop_eq fuel buffer max_size bytes_read :
  read_audio_loop fuel buffer max_size bytes_read =
  (e <- at_eof ;;
   if e : bool then ret (ESP_ERR_NOT_FOUND, buffer, bytes_read)
   else
     match fuel with
     | O => stuck
     | S fuel' =>
       fourcc <- rd_fourcc ;;
       e <- at_eof ;;
       if e : bool then ret (ESP_ERR_NOT_FOUND, buffer, bytes_read)
       else
         size <- rd_le32 ;;
         if is_audio_chunk fourcc then
           let read_size := if size <? max_size then size else max_size in
           data <- rd_bytes read_size ;;
           let bytes_read' :=
             match bytes_read with
             | Some _ => Some (Z.of_nat (length data))
             | None => None
             end in
           (if max_size <? size
            then seek_cur (to_long (u32 (size - max_size))) else ret tt) ;;;
           (if is_odd size then seek_cur 1 else ret tt) ;;;
           ret (ESP_OK, store_prefix data buffer, bytes_read')
         else
           seek_cur (to_long size) ;;;
           (if is_odd size then seek_cur 1 else ret tt) ;;;
           read_audio_loop fuel' buffer max_size bytes_read
     end).
Proof. destruct fuel; reflexivity. Qed.



Lemma read_audio_loop_fuel_mono fuel :
  forall fuel' buffer max_size bytes_read p r,
    (fuel <= fuel')%nat ->
    read_audio_loop fuel buffer max_size bytes_read p = Some r ->
    read_audio_loop fuel' buffer max_size bytes_read p = Some r.
Proof.
  induction fuel as [|fuel IH]; intros fuel' buffer max_size bytes_read p r Hle H.
  - rewrite read_audio_loop_eq in H |- *. unfold bind in *.
    destruct (at_eof p) as [[[|] q]|]; try discriminate H. exact H.
  - destruct fuel' as [|fuel']; [lia|].
    rewrite read_audio_loop_eq in H |- *. unfold bind in *.
    split_run H; try exact H.
    apply IH; [lia|exact H].
Qed.












(** ** Rejected signatures *)

Lemma read_le32_word (f : FILE) :
  read_le32 f = (word_of_bytes (fst (fread f 4)), snd (fread f 4)).
Proof.
  unfold read_le32. destruct (fread f 4) as [buf f'].
  destruct buf as [|b0 [|b1 [|b2 [|b3 [|b4 r]]]]]; reflexivity.
Qed.

Lemma word_of_bytes_inv (bs : list byte) (v : Z) :
  word_of_bytes bs = v -> v <> 0 -> bs = le32_bytes v.
Proof.
  intros H Hv.
  destruct bs as [|b0 [|b1 [|b2 [|b3 [|b4 r]]]]]; simpl in H;
    try congruence.
  rewrite <- H. symmetry. apply le32_bytes_le32.
Qed.

Lemma fread_bytes (f : FILE) (n : Z) :
  fst (fread f n) = firstn (Z.to_nat n) (skipn (Z.to_nat (fpos f)) (fdata f)).
Proof. reflexivity. Qed.

Lemma fread_pos (f : FILE) (n : Z) :
  fpos (snd (fread f n)) = fpos f + Z.of_nat (length (fst (fread f n))).
Proof. reflexivity. Qed.

Lemma fread_data (f : FILE) (n : Z) : fdata (snd (fread f n)) = fdata f.
Proof. reflexivity. Qed.

Lemma fread_path (f : FILE) (n : Z) : fpath (snd (fread f n)) = fpath f.
Proof. reflexivity. Qed.

Lemma skipn_short {A} (l : list A) (a b : nat) :
  (length (firstn 4 (skipn a l)) < 4)%nat -> (a <= b)%nat ->
  skipn (b + length (firstn 4 (skipn a l))) l = [].
Proof.
  intros H Hab. apply skipn_all2.
  rewrite length_firstn, length_skipn in *. lia.
Qed.

(** A stream at the start of a file whose first or third word is not
    the expected tag makes the header parser give up at once, whatever
    the iteration budget. *)
Lemma parse_avi_header_bad_signature (fuel : nat) (p : avi_parser_t) (f : FILE) :
  file p = Some f -> fpos f = 0 ->
  firstn 4 (fdata f) <> riff_tag \/ firstn 4 (skipn 8 (fdata f)) <> avi_tag ->
  exists f', parse_avi_header fuel p
               = Some (ESP_ERR_INVALID_ARG, set_file p (Some f'))
             /\ fpath f' = fpath f.
Proof.
  intros Hf Hpos Hsig.
  unfold parse_avi_header, bind, rd_fourcc, rd_le32, on_file, read_fourcc.
  rewrite Hf. rewrite (read_le32_word f).
  set (w0 := word_of_bytes (fst (fread f 4))).
  set (f1 := snd (fread f 4)).
  destruct (w0 =? FOURCC_RIFF) eqn:E0; cbn [negb]; cbv beta iota.
  2:{ exists f1. split; [reflexivity|apply fread_path]. }
  apply Z.eqb_eq in E0.
  assert (B0 : fst (fread f 4) = riff_tag).
  { apply word_of_bytes_inv; [exact E0|discriminate]. }
  rewrite fread_bytes, Hpos in B0. simpl skipn in B0.
  change (Z.to_nat 4) with 4%nat in B0.
  destruct Hsig as [Hsig|Hsig]; [contradiction|].
  cbn [file set_file]. rewrite (read_le32_word f1).
  set (f2 := snd (fread f1 4)).
  cbn [file set_file]. rewrite (read_le32_word f2).
  set (w2 := word_of_bytes (fst (fread f2 4))).
  set (f3 := snd (fread f2 4)).
  destruct (w2 =? FOURCC_AVI) eqn:E2; cbn [negb]; cbv beta iota.
  2:{ exists f3. split; [reflexivity|].
      unfold f3, f2, f1. rewrite !fread_path. reflexivity. }
  exfalso. apply Z.eqb_eq in E2.
  assert (B2 : fst (fread f2 4) = avi_tag).
  { apply word_of_bytes_inv; [exact E2|discriminate]. }
  assert (P1 : fpos f1 = 4).
  { unfold f1. rewrite fread_pos, Hpos, fread_bytes, Hpos. simpl skipn.
    change (Z.to_nat 4) with 4%nat. rewrite B0. reflexivity. }
  assert (D1 : fdata f1 = fdata f) by apply fread_data.
  assert (D2 : fdata f2 = fdata f).
  { unfold f2. rewrite fread_data. exact D1. }
  rewrite fread_bytes, D2 in B2. change (Z.to_nat 4) with 4%nat in B2.
  assert (P2 : Z.to_nat (fpos f2)
               = (4 + length (firstn 4 (skipn 4 (fdata f))))%nat).
  { unfold f2. rewrite fread_pos, fread_bytes, P1, D1.
    change (Z.to_nat 4) with 4%nat. lia. }
  rewrite P2 in B2.
  destruct (Nat.lt_ge_cases (length (firstn 4 (skipn 4 (fdata f)))) 4)
    as [Hlt|Hge].
  - rewrite (skipn_short (fdata f) 4 4 Hlt (le_n 4)) in B2. discriminate.
  - pose proof (firstn_le_length 4 (skipn 4 (fdata f))) as Hle.
    replace (length (firstn 4 (skipn 4 (fdata f)))) with 4%nat in B2 by lia.
    apply Hsig. exact B2.
Qed.

(** C5. Opening a file whose outer envelope tag is not "RIFF" or whose
    nested format tag is not "AVI " returns the format error of the
    parser (ESP_ERR_INVALID_ARG) and leaves no open container: the
    stream that was opened is closed again, the handle's stream pointer
    is NULL and its initialized flag is false, so that the chunk readers
    and seek reject the handle. *)
Theorem avi_parser_open_rejects_bad_signature :
  forall fs fuel log p0 path d,
    fs path = Some d ->
    firstn 4 d <> riff_tag \/ firstn 4 (skipn 8 d) <> avi_tag ->
    exists p',
      avi_parser_open fs fuel log (Some p0) (Some path)
        = Some (ESP_ERR_INVALID_ARG, Some p', log ++ [EvOpen path; EvClose path])
      /\ file p' = None
      /\ initialized p' = false
      /\ (forall malloc_ok fuel' fr,
            avi_parser_read_video_frame malloc_ok fuel' (Some p') fr
              = Some (ESP_ERR_INVALID_ARG, Some p', fr))
      /\ (forall fuel' buf max_size br,
            avi_parser_read_audio_chunk fuel' (Some p') buf max_size br
              = Some (ESP_ERR_INVALID_ARG, Some p', buf, br))
      /\ (forall malloc_ok fuel' n,
            avi_parser_seek malloc_ok fuel' (Some p') n
              = Some (ESP_ERR_INVALID_ARG, Some p')).
Proof.
  intros fs fuel log p0 path d Hfs Hsig.
  unfold avi_parser_open, fopen. rewrite Hfs.
  set (f := mkFILE path d 0 false).
  destruct (parse_avi_header_bad_signature fuel
              (set_file zero_parser (Some f)) f eq_refl eq_refl Hsig)
    as (f' & Hp & Hpath).
  rewrite Hp. cbn [esp_err_is_ok negb file set_file].
  exists (set_file (set_file (set_file zero_parser (Some f)) (Some f')) None).
  split.
  { unfold fclose. rewrite Hpath. cbn [fpath f]. rewrite <- app_assoc.
    reflexivity. }
  split; [reflexivity|]. split; [reflexivity|].
  split; [|split].
  - intros malloc_ok fuel' [fr|]; reflexivity.
  - intros fuel' [buf|] max_size br; reflexivity.
  - intros malloc_ok fuel' n. reflexivity.
Qed.

(** ** The decode stage *)

(** C3, with the build condition.  A frame whose header dimensions
    exceed the decoder's maximum width or height makes
    mjpeg_decoder_decode_frame return ESP_ERR_INVALID_SIZE in a build
    that has the JPEG component, and ESP_ERR_NOT_SUPPORTED in a build
    without it, where the stub refuses every frame.  In both builds the
    decoder state, the destination pixel array and the two dimension
    outputs are as before the call, whatever the decoding routine would
    have done to the array, and a frame buffer owning the array keeps
    its pixels and its readiness flag. *)
Theorem decode_frame_rejects_oversized :
  forall (has : bool) get_info process d fr fb ow oh t0 t1 w h,
    get_info (fr_data fr) (fr_size fr) = (ESP_OK, (w, h)) ->
    0 <= w < 2^16 -> 0 <= h < 2^16 ->
    max_width d < w \/ max_height d < h ->
    exists out',
      mjpeg_decoder_decode_frame has get_info process
        (Some d) (Some fr) (Some (fb_buffer fb)) ow oh t0 t1
        = (if has then ESP_ERR_INVALID_SIZE else ESP_ERR_NOT_SUPPORTED,
           Some d, Some out', ow, oh)
      /\ out' = fb_buffer fb
      /\ fb_with_pixels fb out' = fb
      /\ ready (fb_with_pixels fb out') = ready fb.
Proof.
  intros has get_info process d fr fb ow oh t0 t1 w h Hinfo Hw Hh Hbig.
  exists (fb_buffer fb).
  assert (K : fb_with_pixels fb (fb_buffer fb) = fb) by (destruct fb; reflexivity).
  destruct has.
  - unfold mjpeg_decoder_decode_frame. rewrite Hinfo.
    cbn [esp_err_is_ok negb]. unfold u16.
    rewrite !Z.mod_small by lia.
    assert (B : (max_width d <? w) || (max_height d <? h) = true).
    { apply orb_true_iff. destruct Hbig as [Hb|Hb]; [left|right];
        apply Z.ltb_lt; exact Hb. }
    rewrite B. repeat split. exact K.
  - repeat split. exact K.
Qed.

(** Without the JPEG component the stub refuses every frame and touches
    nothing. *)
Lemma decode_frame_stub get_info process d fr out ow oh t0 t1 :
  mjpeg_decoder_decode_frame false get_info process
    (Some d) (Some fr) (Some out) ow oh t0 t1
  = (ESP_ERR_NOT_SUPPORTED, Some d, Some out, ow, oh).
Proof. reflexivity. Qed.

(** ** Volume scaling *)

Lemma apply_volume_full (samples : list Z) (count : Z) :
  apply_volume samples count 100 = samples.
Proof. reflexivity. Qed.

(** At full volume the write path hands the caller's bytes to the
    driver as they are. *)
Lemma audio_player_write_full_volume malloc_ok i2s pl data size bw :
  a_initialized pl = true -> a_state pl = AUDIO_STATE_PLAYING ->
  volume pl = 100 ->
  snd (audio_player_write malloc_ok i2s (Some pl) (Some data) size bw)
  = Some (firstn (Z.to_nat size) data).
Proof.
  intros Hi Hs Hv. unfold audio_player_write.
  rewrite Hi, Hs, Hv. cbn [negb].
  change (100 <? 100) with false. cbn [andb].
  destruct (i2s (tx_handle pl) (firstn (Z.to_nat size) data) size).
  reflexivity.
Qed.

Lemma to_long_small (x : Z) : 0 <= x < 2^31 -> to_long x = x.
Proof.
  intros H. unfold to_long, u32.
  rewrite Z.mod_small by lia.
  destruct (x <? 2^31) eqn:L; [reflexivity|].
  apply Z.ltb_ge in L. lia.
Qed.

Lemma to_int16_small (x : Z) : 0 <= x < 2^15 -> to_int16 x = x.
Proof.
  intros H. unfold to_int16, u16.
  rewrite Z.mod_small by lia.
  destruct (x <? 2^15) eqn:L; [reflexivity|].
  apply Z.ltb_ge in L. lia.
Qed.

(** Non-negative samples are scaled by [scale / 65536], rounded down. *)
Lemma scale_sample_nonneg (scale s : Z) :
  0 <= scale < 65536 -> 0 <= s <= 32767 ->
  scale_sample scale s = s * scale / 65536.
Proof.
  intros Hsc Hs.
  assert (P : 0 <= s * scale < 2^31) by nia.
  assert (Q : 0 <= s * scale / 65536 <= 32767).
  { split; [apply Z.div_pos; lia|].
    apply Z.lt_succ_r. apply Z.div_lt_upper_bound; nia. }
  assert (X : to_long (Z.shiftr (u32 (u32 s * scale)) 16) = s * scale / 65536).
  { unfold u32. rewrite (Z.mod_small s) by lia.
    rewrite Z.mod_small by lia.
    rewrite Z.shiftr_div_pow2 by lia. change (2^16) with 65536.
    apply to_long_small. lia. }
  unfold scale_sample. cbv zeta. rewrite X.
  destruct (32767 <? s * scale / 65536) eqn:L1; [apply Z.ltb_lt in L1; lia|].
  destruct (s * scale / 65536 <? -32768) eqn:L2; [apply Z.ltb_lt in L2; lia|].
  apply to_int16_small. lia.
Qed.

(** Negative samples: the unsigned product has its top bit set, the
    shifted value is at least 32768 and is clamped to 32767. *)
Lemma scale_sample_negative (scale s : Z) :
  0 < scale < 65536 -> -32768 <= s < 0 ->
  scale_sample scale s = 32767.
Proof.
  intros Hsc Hs.
  assert (U : u32 s = 2^32 + s).
  { unfold u32. symmetry. apply (Z.mod_unique_pos _ _ (-1)); lia. }
  assert (B : - 2^31 <= s * scale < 0) by nia.
  assert (P : u32 ((2^32 + s) * scale) = 2^32 + s * scale).
  { unfold u32. symmetry. apply (Z.mod_unique_pos _ _ (scale - 1)); lia. }
  assert (Q : 32768 <= (2^32 + s * scale) / 2^16 < 65536).
  { split.
    - apply Z.div_le_lower_bound; lia.
    - apply Z.div_lt_upper_bound; lia. }
  assert (X : to_long (Z.shiftr (u32 (u32 s * scale)) 16)
              = (2^32 + s * scale) / 2^16).
  { rewrite U, P. rewrite Z.shiftr_div_pow2 by lia.
    apply to_long_small. lia. }
  unfold scale_sample. cbv zeta. rewrite X.
  destruct (32767 <? (2^32 + s * scale) / 2^16) eqn:L1;
    [|apply Z.ltb_ge in L1; lia].
  reflexivity.
Qed.

(** C7, at a failing input.  At volume 50 the factor is 32768 / 65536;
    the samples -1 and -1000 come out as 32767, where scaling by one
    half gives -1 and -500; the positive sample 1000 comes out as 500. *)
Theorem apply_volume_negative_samples :
  apply_volume [-1; -1000; 1000] 3 50 = [32767; 32767; 500].
Proof. vm_compute. reflexivity. Qed.

(** ** Stream identity through header parsing *)

Lemma same_stream_refl f : same_stream f f.
Proof. split; reflexivity. Qed.

Lemma same_stream_trans f g h :
  same_stream f g -> same_stream g h -> same_stream f h.
Proof. intros [A B] [C D]. split; congruence. Qed.

Lemma keeps_ret {A} (a : A) : keeps_stream (ret a).
Proof.
  intros p a' p' f Hf H. inversion H; subst.
  exists f. split; [exact Hf|apply same_stream_refl].
Qed.

Lemma keeps_stuck {A} : keeps_stream (@stuck A).
Proof. intros p a p' f Hf H. discriminate. Qed.

Lemma keeps_bind {A B} (c : M A) (k : A -> M B) :
  keeps_stream c -> (forall a, keeps_stream (k a)) -> keeps_stream (bind c k).
Proof.
  intros Hc Hk p b p' f Hf H.
  apply bind_Some in H. destruct H as (a & p1 & E1 & E2).
  destruct (Hc p a p1 f Hf E1) as (f1 & Hf1 & S1).
  destruct (Hk a p1 b p' f1 Hf1 E2) as (f2 & Hf2 & S2).
  exists f2. split; [exact Hf2|]. eapply same_stream_trans; eassumption.
Qed.

Lemma keeps_on_file {A} (op : FILE -> A * FILE) :
  (forall f, same_stream f (snd (op f))) -> keeps_stream (on_file op).
Proof.
  intros Hop p a p' f Hf H.
  apply on_file_Some in H. destruct H as (f0 & Hf0 & _ & ->).
  rewrite Hf in Hf0. inversion Hf0; subst f0.
  exists (snd (op f)). split; [reflexivity|apply Hop].
Qed.

Lemma keeps_get {A} (proj : avi_parser_t -> A) : keeps_stream (get proj).
Proof.
  intros p a p' f Hf H. inversion H; subst.
  exists f. split; [exact Hf|apply same_stream_refl].
Qed.

Lemma keeps_modify (upd : avi_parser_t -> avi_parser_t) :
  (forall p, file (upd p) = file p) -> keeps_stream (modify upd).
Proof.
  intros Hu p a p' f Hf H. inversion H; subst.
  exists f. split; [rewrite Hu; exact Hf|apply same_stream_refl].
Qed.

Lemma same_stream_fseek_cur f off : same_stream f (fseek_cur f off).
Proof.
  unfold fseek_cur.
  destruct ((0 <=? fpos f + off) && (fpos f + off <=? LONG_MAX));
    split; reflexivity.
Qed.

Lemma same_stream_fseek_set f off : same_stream f (fseek_set f off).
Proof.
  unfold fseek_set.
  destruct ((0 <=? off) && (off <=? LONG_MAX)); split; reflexivity.
Qed.

Lemma same_stream_read_le32 f : same_stream f (snd (read_le32 f)).
Proof. rewrite read_le32_word. split; reflexivity. Qed.

Lemma same_stream_read_le16 f : same_stream f (snd (read_le16 f)).
Proof.
  unfold read_le16. destruct (fread f 2) as [buf f'] eqn:E.
  assert (S : same_stream f f').
  { replace f' with (snd (fread f 2)) by (rewrite E; reflexivity).
    split; reflexivity. }
  destruct buf as [|b0 [|b1 [|b2 r]]]; exact S.
Qed.

Lemma keeps_rd_le32 : keeps_stream rd_le32.
Proof. apply keeps_on_file. apply same_stream_read_le32. Qed.

Lemma keeps_rd_le16 : keeps_stream rd_le16.
Proof. apply keeps_on_file. apply same_stream_read_le16. Qed.

Lemma keeps_rd_fourcc : keeps_stream rd_fourcc.
Proof. apply keeps_on_file. apply same_stream_read_le32. Qed.

Lemma keeps_seek_cur off : keeps_stream (seek_cur off).
Proof. apply keeps_on_file. intros f. apply same_stream_fseek_cur. Qed.

Lemma keeps_seek_set off : keeps_stream (seek_set off).
Proof. apply keeps_on_file. intros f. apply same_stream_fseek_set. Qed.

Lemma keeps_tell : keeps_stream tell.
Proof. apply keeps_on_file. intros f. apply same_stream_refl. Qed.

Lemma keeps_at_eof : keeps_stream at_eof.
Proof. apply keeps_on_file. intros f. apply same_stream_refl. Qed.

Lemma keeps_skip_remaining size k : keeps_stream (skip_remaining size k).
Proof.
  unfold skip_remaining.
  destruct (0 <? to_long (u32 (size - k)));
    [apply keeps_seek_cur|apply keeps_ret].
Qed.

Lemma keeps_upd_mh g : keeps_stream (upd_mh g).
Proof. apply keeps_modify. reflexivity. Qed.

Lemma keeps_upd_vi g : keeps_stream (upd_vi g).
Proof. apply keeps_modify. reflexivity. Qed.

Lemma keeps_upd_ai g : keeps_stream (upd_ai g).
Proof. apply keeps_modify. reflexivity. Qed.

Create HintDb keeps discriminated.

#[local] Hint Resolve keeps_ret keeps_stuck keeps_get keeps_rd_le32
  keeps_rd_le16 keeps_rd_fourcc keeps_seek_cur keeps_seek_set keeps_tell
  keeps_at_eof keeps_skip_remaining keeps_upd_mh keeps_upd_vi keeps_upd_ai
  : keeps.

Ltac keeps_steps :=
  repeat first
    [ apply keeps_bind; [|intros ?]
    | apply keeps_modify; reflexivity
    | match goal with
      | |- keeps_stream (if ?b then _ else _) => destruct b
      end
    | solve [auto with keeps] ].

Lemma keeps_parse_avih size : keeps_stream (parse_avih size).
Proof. unfold parse_avih. keeps_steps. Qed.

Lemma keeps_parse_strh size : keeps_stream (parse_strh size).
Proof. unfold parse_strh. keeps_steps. Qed.

Lemma keeps_parse_strf_video size : keeps_stream (parse_strf_video size).
Proof. unfold parse_strf_video. keeps_steps. Qed.

Lemma keeps_parse_strf_audio size : keeps_stream (parse_strf_audio size).
Proof. unfold parse_strf_audio. keeps_steps. Qed.

#[local] Hint Resolve keeps_parse_avih keeps_parse_strh
  keeps_parse_strf_video keeps_parse_strf_audio : keeps.

Lemma keeps_parse_list fuel : forall list_size,
  keeps_stream (parse_list fuel list_size).
Proof.
  induction fuel as [|fuel IH]; intros list_size; cbn [parse_list].
  - apply keeps_stuck.
  - apply keeps_bind; [auto with keeps|]. intros list_type.
    destruct (list_type =? FOURCC_MOVI).
    + keeps_steps.
    + match goal with
      | |- keeps_stream (?loop fuel 4) =>
        assert (L : forall n b, keeps_stream (loop n b)); [|apply L]
      end.
      induction n as [|n IHn]; intros b.
      * destruct (b <? u32 (list_size - 4)); auto with keeps.
      * destruct (b <? u32 (list_size - 4)); [|auto with keeps].
        apply keeps_bind; [auto with keeps|]. intros fourcc.
        apply keeps_bind; [auto with keeps|]. intros size.
        cbv zeta.
        apply keeps_bind.
        { destruct (fourcc =? FOURCC_AVIH); [keeps_steps|].
          destruct (fourcc =? FOURCC_STRH); [keeps_steps|].
          destruct (fourcc =? FOURCC_STRF); [keeps_steps|].
          destruct (fourcc =? FOURCC_LIST); [|auto with keeps].
          apply keeps_bind; [apply IH|]. intros ?. auto with keeps. }
        intros _.
        destruct (is_odd size).
        -- apply keeps_bind; [auto with keeps|]. intros _. apply IHn.
        -- apply IHn.
Qed.

Lemma keeps_parse_avi_header_loop fuel :
  keeps_stream (parse_avi_header_loop fuel).
Proof.
  induction fuel as [|fuel IH]; cbn [parse_avi_header_loop].
  - keeps_steps.
  - apply keeps_bind; [auto with keeps|]. intros e.
    destruct e; [auto with keeps|].
    apply keeps_bind; [auto with keeps|]. intros fourcc.
    apply keeps_bind; [auto with keeps|]. intros e.
    destruct e; [auto with keeps|].
    apply keeps_bind; [auto with keeps|]. intros size.
    apply keeps_bind.
    { destruct (fourcc =? FOURCC_LIST); [|auto with keeps].
      apply keeps_bind; [apply keeps_parse_list|]. intros ?.
      auto with keeps. }
    intros _.
    apply keeps_bind; [destruct (is_odd size); auto with keeps|]. intros _.
    apply keeps_bind; [auto with keeps|]. intros mo.
    destruct (negb (mo =? 0)); [auto with keeps|apply IH].
Qed.

Lemma keeps_parse_avi_header fuel : keeps_stream (parse_avi_header fuel).
Proof.
  unfold parse_avi_header.
  apply keeps_bind; [auto with keeps|]. intros fourcc.
  destruct (negb (fourcc =? FOURCC_RIFF)); [auto with keeps|].
  apply keeps_bind; [auto with keeps|]. intros sz.
  apply keeps_bind; [auto with keeps|]. intros fourcc2.
  destruct (negb (fourcc2 =? FOURCC_AVI)); [auto with keeps|].
  apply keeps_bind; [apply keeps_parse_avi_header_loop|]. intros _.
  keeps_steps.
Qed.

(** What a successful [avi_parser_open] leaves behind. *)
Lemma avi_parser_open_ok fs fuel log parser path a log' :
  avi_parser_open fs fuel log parser (Some path) = Some (ESP_OK, Some a, log') ->
  log' = log ++ [EvOpen path] /\
  initialized a = true /\
  current_frame a = 0 /\
  exists f, file a = Some f /\ fpath f = path /\ fs path = Some (fdata f).
Proof.
  unfold avi_parser_open, fopen.
  destruct parser as [p0|]; [|discriminate].
  destruct (fs path) as [d|] eqn:Hfs; [|discriminate].
  set (f0 := mkFILE path d 0 false).
  destruct (parse_avi_header fuel (set_file zero_parser (Some f0)))
    as [[r p1]|] eqn:Hp; [|discriminate].
  destruct (keeps_parse_avi_header fuel (set_file zero_parser (Some f0)) r p1 f0
              eq_refl Hp)
    as (f1 & Hf1 & S1).
  destruct r; cbn [esp_err_is_ok negb];
    try (rewrite Hf1; discriminate).
  destruct (seek_set (to_long (movi_offset p1)) p1) as [[u p2]|] eqn:Hs;
    [|discriminate].
  destruct (keeps_seek_set _ p1 u p2 f1 Hf1 Hs) as (f2 & Hf2 & S2).
  intros H. inversion H; subst a log'; clear H.
  split; [reflexivity|]. split; [reflexivity|]. split; [reflexivity|].
  exists f2. cbn. split; [exact Hf2|].
  destruct (same_stream_trans _ _ _ S1 S2) as (P & D).
  split; [exact P|]. rewrite D. reflexivity.
Qed.

(** ** The playback controller *)

Lemma video_player_close_effect log pl :
  video_player_close log (Some pl)
  = (Some (set_vp_current_frame
             (set_avi_parser pl
                (match file (avi_parser pl) with
                 | Some _ => set_initialized (set_file (avi_parser pl) None) false
                 | None => set_initialized (avi_parser pl) false
                 end)) 0),
     match file (avi_parser pl) with
     | Some f => log ++ [EvClose (fpath f)]
     | None => log
     end).
Proof.
  unfold video_player_close, avi_parser_close, fclose.
  destruct (file (avi_parser pl)); reflexivity.
Qed.

(** What a successful [video_player_open] leaves behind. *)
Lemma video_player_open_ok fs fuel log pl path pl' log' :
  video_player_open fs fuel log (Some pl) (Some path)
    = Some (ESP_OK, Some pl', log') ->
  let a := avi_parser pl' in
  let fps0 := uint16_of_float32 (avi_parser_get_fps (Some a)) in
  log' = (match file (avi_parser pl) with
          | Some f => log ++ [EvClose (fpath f)]
          | None => log
          end) ++ [EvOpen path] /\
  initialized a = true /\
  current_frame a = 0 /\
  (exists f, file a = Some f /\ fpath f = path /\ fs path = Some (fdata f)) /\
  fps (info pl') = (if fps0 =? 0 then 15 else fps0) /\
  frame_count (info pl') = total_frames a /\
  duration_sec (info pl') = total_frames a / (if 0 <? fps0 then fps0 else 15) /\
  vp_current_frame pl' = 0 /\
  state pl' = state pl /\
  decoder pl' = decoder pl /\
  frame_buffer0 pl' = frame_buffer0 pl /\
  frame_buffer1 pl' = frame_buffer1 pl.
Proof.
  unfold video_player_open. rewrite video_player_close_effect.
  set (log1 := match file (avi_parser pl) with
               | Some f => log ++ [EvClose (fpath f)]
               | None => log
               end).
  set (pl1 := set_vp_current_frame _ 0).
  destruct (avi_parser_open fs fuel log1 (Some (avi_parser pl1)) (Some path))
    as [[[r [a|]] log2]|] eqn:Ho; try discriminate.
  destruct r; cbn [esp_err_is_ok negb]; try discriminate.
  apply avi_parser_open_ok in Ho.
  destruct Ho as (Hl & Hi & Hc & Hf).
  set (fps0 := uint16_of_float32 (avi_parser_get_fps (Some a))).
  unfold udiv.
  destruct ((if 0 <? fps0 then fps0 else 15) =? 0) eqn:D1; [discriminate|].
  destruct ((if fps0 =? 0 then 15 else fps0) =? 0) eqn:D2; [discriminate|].
  intros H. inversion H; subst pl' log'; clear H.
  cbn. fold fps0.
  repeat split; try assumption; reflexivity.
Qed.

(** What the code reports for the interval of C6.  For a container
    whose header declares micro_sec_per_frame = 66667 and
    total_frames = 150, after a successful video_player_open the
    information record holds fps = 14 (the single-precision quotient
    1000000 / 66667 is below 15 and the conversion to an integer
    discards the fraction instead of rounding to the nominal rate) and
    duration_sec = 10 (150 / 14 in integer arithmetic); get_info
    returns that record. *)
Theorem open_reports_fps_14_for_66667 :
  forall fs fuel log pl path pl' log' info0,
    video_player_open fs fuel log (Some pl) (Some path)
      = Some (ESP_OK, Some pl', log') ->
    micro_sec_per_frame (main_header (avi_parser pl')) = 66667 ->
    total_frames (avi_parser pl') = 150 ->
    fps (info pl') = 14 /\
    duration_sec (info pl') = 10 /\
    video_player_get_info (Some pl') (Some info0) = (ESP_OK, Some (info pl')).
Proof.
  intros fs fuel log pl path pl' log' info0 Ho Hus Htf.
  apply video_player_open_ok in Ho. cbv zeta in Ho.
  destruct Ho as (_ & _ & _ & _ & Hfps & _ & Hdur & _).
  assert (F : uint16_of_float32 (avi_parser_get_fps (Some (avi_parser pl'))) = 14).
  { unfold avi_parser_get_fps. rewrite Hus. vm_compute. reflexivity. }
  rewrite F in Hfps, Hdur. rewrite Htf in Hdur.
  split; [exact Hfps|]. split; [exact Hdur|]. reflexivity.
Qed.

(** C8, as the code has it.  A successful video_player_open closes the
    stream of a previously open container (if there is one), opens the
    file at the new path and makes it the player's container, resets
    both frame indices to 0, and leaves the state field as it was:
    the player is Stopped afterwards exactly when it was Stopped
    before. *)
Theorem video_player_open_effect :
  forall fs fuel log pl path pl' log',
    video_player_open fs fuel log (Some pl) (Some path)
      = Some (ESP_OK, Some pl', log') ->
    log' = (match file (avi_parser pl) with
            | Some f => log ++ [EvClose (fpath f)]
            | None => log
            end) ++ [EvOpen path] /\
    initialized (avi_parser pl') = true /\
    (exists f, file (avi_parser pl') = Some f /\ fpath f = path
               /\ fs path = Some (fdata f)) /\
    vp_current_frame pl' = 0 /\
    current_frame (avi_parser pl') = 0 /\
    state pl' = state pl.
Proof.
  intros fs fuel log pl path pl' log' Ho.
  apply video_player_open_ok in Ho. cbv zeta in Ho.
  destruct Ho as (Hl & Hi & Hc & Hf & _ & _ & _ & Hv & Hs & _).
  repeat split; assumption.
Qed.

(** C9. On a player in the Playing state video_player_pause returns
    ESP_OK and changes the state field to Paused; every other field of
    the player (frame index, container handle, video information,
    decoder, frame buffers, task, callbacks, timing) is unchanged. *)
Theorem video_player_pause_frame :
  forall pl,
    state pl = VIDEO_STATE_PLAYING ->
    exists pl',
      video_player_pause (Some pl) = (ESP_OK, Some pl') /\
      state pl' = VIDEO_STATE_PAUSED /\
      vp_current_frame pl' = vp_current_frame pl /\
      avi_parser pl' = avi_parser pl /\
      info pl' = info pl /\
      decoder pl' = decoder pl /\
      frame_buffer0 pl' = frame_buffer0 pl /\
      frame_buffer1 pl' = frame_buffer1 pl /\
      current_buffer pl' = current_buffer pl /\
      playback_task pl' = playback_task pl /\
      callbacks pl' = callbacks pl /\
      user_data pl' = user_data pl /\
      frame_time_us pl' = frame_time_us pl /\
      last_frame_time pl' = last_frame_time pl.
Proof.
  intros pl Hs. exists (set_state pl VIDEO_STATE_PAUSED).
  unfold video_player_pause. rewrite Hs.
  repeat split.
Qed.

(** C10. The queries are defined on a NULL handle: get_state gives
    Error, get_current_frame gives 0 and get_position_sec gives 0;
    get_position_sec also gives 0 when the fps field is 0, and in no
    case does it divide by zero. *)
Theorem video_player_queries_total :
  video_player_get_state None = VIDEO_STATE_ERROR /\
  video_player_get_current_frame None = 0 /\
  video_player_get_position_sec None = Some 0 /\
  (forall pl, fps (info pl) = 0 ->
              video_player_get_position_sec (Some pl) = Some 0) /\
  (forall player, exists sec, video_player_get_position_sec player = Some sec) /\
  (forall pl, fps (info pl) <> 0 ->
              video_player_get_position_sec (Some pl)
              = Some (vp_current_frame pl / fps (info pl))).
Proof.
  split; [reflexivity|]. split; [reflexivity|]. split; [reflexivity|].
  split; [|split].
  - intros pl H. unfold video_player_get_position_sec. rewrite H. reflexivity.
  - intros [pl|]; [|exists 0; reflexivity].
    unfold video_player_get_position_sec, udiv.
    destruct (fps (info pl) =? 0); eexists; reflexivity.
  - intros pl H. unfold video_player_get_position_sec, udiv.
    apply Z.eqb_neq in H. rewrite H. reflexivity.
Qed.

(** ** Timestamps *)

(** The timestamp grows with the index as long as the product of index
    and frame interval fits in 32 bits. *)
Lemma frame_timestamp_ms_monotone (cur us : Z) :
  0 <= cur -> 0 <= us -> (cur + 1) * us < 2^32 ->
  frame_timestamp_ms cur us <= frame_timestamp_ms (cur + 1) us.
Proof.
  intros Hc Hu Hb. unfold frame_timestamp_ms, u32.
  rewrite !Z.mod_small by nia.
  apply Z.div_le_mono; nia.
Qed.

(** At 66667 microseconds per frame (15 frames per second) the wrap
    comes after 64425 frames, about 71.6 minutes into the stream: the
    frame read at index 64424 is stamped 4294954 ms, the next one
    54 ms. *)
Lemma timestamps_wrap_at_15_fps malloc_ok fuel1 fuel2 p fr0 p1 fr1 fr0' p2 fr2 :
  micro_sec_per_frame (main_header p) = 66667 ->
  current_frame p = 64424 ->
  avi_parser_read_video_frame malloc_ok fuel1 (Some p) (Some fr0)
    = Some (ESP_OK, Some p1, Some fr1) ->
  avi_parser_read_video_frame malloc_ok fuel2 (Some p1) (Some fr0')
    = Some (ESP_OK, Some p2, Some fr2) ->
  timestamp_ms fr1 = 4294954 /\ timestamp_ms fr2 = 54.
Proof.
  intros Hus Hc H1 H2.
  apply read_video_frame_effect in H1. apply read_video_frame_effect in H2.
  destruct H1 as (V1 & Hok1 & _). destruct H2 as (_ & Hok2 & _).
  destruct (Hok1 eq_refl) as (_ & T1 & C1).
  destruct (Hok2 eq_refl) as (_ & T2 & _).
  assert (M : main_header p1 = main_header p).
  { unfold header_view in V1. congruence. }
  rewrite T1, T2, M, C1, Hus, Hc. split; reflexivity.
Qed.

(** C2, at a failing input.  On the slide-show image (2400000000
    microseconds per frame) three reads in a row succeed and deliver
    the indices 0, 1, 2 with the timestamps 0, 2400000 and 505032: the
    third timestamp is below the second, because 2 * 2400000000 does
    not fit in 32 bits.  At 66667 microseconds per frame the same
    happens between the indices 64424 and 64425. *)
Theorem timestamps_wrap_around :
  map (fun fr => (frame_num fr, timestamp_ms fr))
      (read_frames always_grant demo_fuel 3 slides_parser)
  = [(0, 0); (1, 2400000); (2, 505032)]
  /\ frame_timestamp_ms 64424 66667 = 4294954
  /\ frame_timestamp_ms 64425 66667 = 54.
Proof. vm_compute. repeat split. Qed.

(** ** Standard chunk tags *)

(** The tag test of the video reader depends on the first two bytes of
    the tag only: it holds exactly for tags that begin with 'd' 'c' or
    'd' 'b'.  In a standard tag ("00dc", "01dc", "00db", ...) these two
    bytes are the stream digits. *)
Lemma is_video_chunk_first_bytes (b0 b1 b2 b3 : byte) :
  is_video_chunk (le32 b0 b1 b2 b3) = true <->
  byte_val b0 = 0x64 /\ (byte_val b1 = 0x63 \/ byte_val b1 = 0x62).
Proof.
  unfold is_video_chunk.
  change 0xFFFF with (Z.ones 16). rewrite Z.land_ones by lia.
  rewrite le32_sum.
  pose proof (byte_val_range b0) as R0. pose proof (byte_val_range b1) as R1.
  pose proof (byte_val_range b2) as R2. pose proof (byte_val_range b3) as R3.
  assert (E : (byte_val b0 + 256 * byte_val b1 + 65536 * byte_val b2
               + 16777216 * byte_val b3) mod 2^16
              = byte_val b0 + 256 * byte_val b1).
  { replace (byte_val b0 + 256 * byte_val b1 + 65536 * byte_val b2
             + 16777216 * byte_val b3)
      with (byte_val b0 + 256 * byte_val b1
            + (byte_val b2 + 256 * byte_val b3) * 2^16) by lia.
    rewrite Z.mod_add by lia. apply Z.mod_small. lia. }
  rewrite E. rewrite orb_true_iff, !Z.eqb_eq. lia.
Qed.

(** C1, at a failing input.  The image [std_avi] is a container with
    150 frames declared and video chunks tagged "00dc".  It opens; the
    tag test of the reader looks at the low-order half of the tag,
    which for "00dc" holds the stream digits "00"; seek to frame 0
    succeeds and the read that follows finds no frame; seek to frame 1
    fails. *)
Theorem seek_then_read_on_standard_tags :
  option_map (fun r => fst (fst r))
    (avi_parser_open demo_fs demo_fuel [] (Some zero_parser) (Some std_path))
    = Some ESP_OK
  /\ initialized std_parser = true
  /\ total_frames std_parser = 150
  /\ is_video_chunk FOURCC_00DC = false
  /\ avi_parser_seek always_grant demo_fuel (Some std_parser) 0
     = Some (ESP_OK, Some std_parser)
  /\ option_map (fun r => (fst (fst r), snd r))
       (avi_parser_read_video_frame always_grant demo_fuel
          (Some std_parser) (Some blank_frame))
     = Some (ESP_ERR_NOT_FOUND, Some blank_frame)
  /\ option_map fst
       (avi_parser_seek always_grant demo_fuel (Some std_parser) 1)
     = Some ESP_FAIL.
Proof. vm_compute. repeat split. Qed.

(** With tags the reader recognises, seek and read agree on the demo
    image. *)
Example seek_then_read_demo :
  match avi_parser_seek always_grant demo_fuel (Some demo_parser) 2 with
  | Some (ESP_OK, p) =>
    option_map (fun r => option_map frame_num (snd r))
      (avi_parser_read_video_frame always_grant demo_fuel p (Some blank_frame))
  | _ => None
  end = Some (Some 2).
Proof. vm_compute. reflexivity. Qed.

(** ** Counterexamples to the claims as stated *)

(** C6, at a failing input.  The image [std_avi] declares 66667
    microseconds per frame (the nominal 15 frames per second) and 150
    frames: the open succeeds and the fps reported is 14, not 15. *)
Lemma fps_15_for_66667_fails :
  video_player_open demo_fs demo_fuel [] (Some demo_player) (Some std_path)
    = Some (ESP_OK, Some (player_after_open demo_player std_path),
            [EvOpen std_path])
  /\ micro_sec_per_frame
       (main_header (avi_parser (player_after_open demo_player std_path)))
     = 66667
  /\ total_frames (avi_parser (player_after_open demo_player std_path)) = 150
  /\ fps (info (player_after_open demo_player std_path)) = 14
  /\ fps (info (player_after_open demo_player std_path)) <> 15.
Proof.
  split; [vm_compute; reflexivity|].
  split; [vm_compute; reflexivity|].
  split; [vm_compute; reflexivity|].
  split; [vm_compute; reflexivity|].
  vm_compute. intros H. discriminate H.
Qed.

(** C8 as stated fails for a player that is Playing: the open of
    another image succeeds and the player is still Playing, not
    Stopped. *)
Lemma open_leaves_stopped_fails :
  state playing_player = VIDEO_STATE_PLAYING
  /\ video_player_open demo_fs demo_fuel [EvOpen demo_path]
       (Some playing_player) (Some other_path)
     = Some (ESP_OK, Some (player_after_open playing_player other_path),
             [EvOpen demo_path; EvClose demo_path; EvOpen other_path])
  /\ state (player_after_open playing_player other_path)
     = VIDEO_STATE_PLAYING
  /\ state (player_after_open playing_player other_path)
     <> VIDEO_STATE_STOPPED.
Proof.
  split; [vm_compute; reflexivity|].
  split; [vm_compute; reflexivity|].
  split; [vm_compute; reflexivity|].
  vm_compute. intros H. discriminate H.
Qed.

(** C3 as stated fails in the build without the JPEG component: the
    frame is 1000 x 1000, the decoder takes at most 320 x 240, and the
    call returns ESP_ERR_NOT_SUPPORTED, not ESP_ERR_INVALID_SIZE. *)
Lemma size_exceeded_in_stub_build_fails :
  big_get_info (fr_data demo_frame) (fr_size demo_frame)
    = (ESP_OK, (1000, 1000))
  /\ max_width demo_decoder < 1000
  /\ mjpeg_decoder_decode_frame false big_get_info white_process
       (Some demo_decoder) (Some demo_frame)
       (Some (fb_buffer demo_frame_buffer)) (Some 0) (Some 0) 0 5000
     = (ESP_ERR_NOT_SUPPORTED, Some demo_decoder,
        Some (fb_buffer demo_frame_buffer), Some 0, Some 0)
  /\ fst (fst (fst (fst
        (mjpeg_decoder_decode_frame false big_get_info white_process
           (Some demo_decoder) (Some demo_frame)
           (Some (fb_buffer demo_frame_buffer)) (Some 0) (Some 0) 0 5000))))
     <> ESP_ERR_INVALID_SIZE.
Proof.
  split; [reflexivity|].
  split; [vm_compute; reflexivity|].
  split; [reflexivity|].
  vm_compute. intros H. discriminate H.
Qed.


(** ** Instances *)


Lemma avi_parser_open_rejects_bad_signature_witness :
  exists p',
    avi_parser_open demo_fs demo_fuel [] (Some zero_parser) (Some bogus_path)
      = Some (ESP_ERR_INVALID_ARG, Some p', [EvOpen bogus_path; EvClose bogus_path])
    /\ file p' = None
    /\ initialized p' = false
    /\ (forall malloc_ok fuel' fr,
          avi_parser_read_video_frame malloc_ok fuel' (Some p') fr
            = Some (ESP_ERR_INVALID_ARG, Some p', fr))
    /\ (forall fuel' buf max_size br,
          avi_parser_read_audio_chunk fuel' (Some p') buf max_size br
            = Some (ESP_ERR_INVALID_ARG, Some p', buf, br))
    /\ (forall malloc_ok fuel' n,
          avi_parser_seek malloc_ok fuel' (Some p') n
            = Some (ESP_ERR_INVALID_ARG, Some p')).
Proof.
  apply (avi_parser_open_rejects_bad_signature demo_fs demo_fuel []
           zero_parser bogus_path bogus_image).
  - vm_compute. reflexivity.
  - left. vm_compute. intros H. discriminate H.
Defined.

Lemma decode_frame_rejects_oversized_witness :
  big_get_info (fr_data demo_frame) (fr_size demo_frame)
    = (ESP_OK, (1000, 1000)) /\
  0 <= 1000 < 2^16 /\
  (max_width demo_decoder < 1000 \/ max_height demo_decoder < 1000) /\
  (exists out',
    mjpeg_decoder_decode_frame true big_get_info white_process
      (Some demo_decoder) (Some demo_frame)
      (Some (fb_buffer demo_frame_buffer)) (Some 0) (Some 0) 0 5000
    = (ESP_ERR_INVALID_SIZE, Some demo_decoder, Some out', Some 0, Some 0)
    /\ out' = fb_buffer demo_frame_buffer
    /\ fb_with_pixels demo_frame_buffer out' = demo_frame_buffer
    /\ ready (fb_with_pixels demo_frame_buffer out') = ready demo_frame_buffer)
  /\
  (exists out',
    mjpeg_decoder_decode_frame false big_get_info white_process
      (Some demo_decoder) (Some demo_frame)
      (Some (fb_buffer demo_frame_buffer)) (Some 0) (Some 0) 0 5000
    = (ESP_ERR_NOT_SUPPORTED, Some demo_decoder, Some out', Some 0, Some 0)
    /\ out' = fb_buffer demo_frame_buffer
    /\ fb_with_pixels demo_frame_buffer out' = demo_frame_buffer
    /\ ready (fb_with_pixels demo_frame_buffer out') = ready demo_frame_buffer).
Proof.
  split; [reflexivity|]. split; [lia|].
  split; [left; vm_compute; reflexivity|].
  split.
  - apply (decode_frame_rejects_oversized true big_get_info white_process
             demo_decoder demo_frame demo_frame_buffer (Some 0) (Some 0)
             0 5000 1000 1000).
    + reflexivity.
    + lia.
    + lia.
    + left. vm_compute. reflexivity.
  - apply (decode_frame_rejects_oversized false big_get_info white_process
             demo_decoder demo_frame demo_frame_buffer (Some 0) (Some 0)
             0 5000 1000 1000).
    + reflexivity.
    + lia.
    + lia.
    + left. vm_compute. reflexivity.
Defined.

Lemma open_reports_fps_14_for_66667_witness :
  video_player_open demo_fs demo_fuel [] (Some demo_player) (Some std_path)
    = Some (ESP_OK, Some (player_after_open demo_player std_path),
            [EvOpen std_path]) /\
  fps (info (player_after_open demo_player std_path)) = 14 /\
  duration_sec (info (player_after_open demo_player std_path)) = 10 /\
  video_player_get_info (Some (player_after_open demo_player std_path))
                        (Some (info demo_player))
    = (ESP_OK, Some (info (player_after_open demo_player std_path))).
Proof.
  split; [vm_compute; reflexivity|].
  apply (open_reports_fps_14_for_66667 demo_fs demo_fuel [] demo_player
           std_path (player_after_open demo_player std_path)
           [EvOpen std_path] (info demo_player)).
  - vm_compute. reflexivity.
  - vm_compute. reflexivity.
  - vm_compute. reflexivity.
Defined.

Lemma video_player_open_effect_witness :
  video_player_open demo_fs demo_fuel [EvOpen demo_path]
    (Some playing_player) (Some other_path)
  = Some (ESP_OK, Some (player_after_open playing_player other_path),
          [EvOpen demo_path; EvClose demo_path; EvOpen other_path]) /\
  state (player_after_open playing_player other_path) = VIDEO_STATE_PLAYING /\
  vp_current_frame (player_after_open playing_player other_path) = 0.
Proof.
  split; [vm_compute; reflexivity|].
  destruct (video_player_open_effect demo_fs demo_fuel [EvOpen demo_path]
              playing_player other_path
              (player_after_open playing_player other_path)
              [EvOpen demo_path; EvClose demo_path; EvOpen other_path])
    as (_ & _ & _ & Hv & _ & Hs).
  - vm_compute. reflexivity.
  - split; [rewrite Hs; vm_compute; reflexivity|exact Hv].
Defined.

Lemma video_player_pause_frame_witness :
  state playing_player = VIDEO_STATE_PLAYING /\
  exists pl',
    video_player_pause (Some playing_player) = (ESP_OK, Some pl') /\
    state pl' = VIDEO_STATE_PAUSED /\
    vp_current_frame pl' = vp_current_frame playing_player /\
    avi_parser pl' = avi_parser playing_player /\
    info pl' = info playing_player /\
    decoder pl' = decoder playing_player /\
    frame_buffer0 pl' = frame_buffer0 playing_player /\
    frame_buffer1 pl' = frame_buffer1 playing_player /\
    current_buffer pl' = current_buffer playing_player /\
    playback_task pl' = playback_task playing_player /\
    callbacks pl' = callbacks playing_player /\
    user_data pl' = user_data playing_player /\
    frame_time_us pl' = frame_time_us playing_player /\
    last_frame_time pl' = last_frame_time playing_player.
Proof.
  split; [vm_compute; reflexivity|].
  apply (video_player_pause_frame playing_player).
  vm_compute. reflexivity.
Defined.

Lemma video_player_queries_total_witness :
  fps (info demo_player) = 0 /\
  video_player_get_position_sec (Some demo_player) = Some 0.
Proof.
  split; [reflexivity|].
  destruct video_player_queries_total as (_ & _ & _ & H & _).
  apply (H demo_player). reflexivity.
Defined.

(* ================================================================== *)
(** * Further properties of the code *)

(** ** Words read from the stream *)

(** X1. read_le32 assembles the next four bytes of the stream in
    little-endian order, b0 + 2^8 b1 + 2^16 b2 + 2^24 b3, and moves the
    cursor by four; with fewer than four bytes left it returns 0, moves
    the cursor to what was left and raises the end-of-file indicator. *)
Theorem read_le32_little_endian :
  forall f,
    (forall b0 b1 b2 b3 rest,
        skipn (Z.to_nat (fpos f)) (fdata f) = b0 :: b1 :: b2 :: b3 :: rest ->
        read_le32 f =
        (byte_val b0 + 256 * byte_val b1 + 65536 * byte_val b2
         + 16777216 * byte_val b3,
         mkFILE (fpath f) (fdata f) (fpos f + 4) (feof f)))
    /\
    ((length (skipn (Z.to_nat (fpos f)) (fdata f)) < 4)%nat ->
     fst (read_le32 f) = 0 /\
     feof (snd (read_le32 f)) = true /\
     fpos (snd (read_le32 f))
     = fpos f + Z.of_nat (length (skipn (Z.to_nat (fpos f)) (fdata f)))).
Proof.
  intros f. split.
  - intros b0 b1 b2 b3 rest H.
    unfold read_le32, fread. rewrite H.
    change (Z.to_nat 4) with 4%nat. cbn [firstn length].
    rewrite le32_sum. f_equal. f_equal.
    change (Z.of_nat 4 <? 4) with false. apply orb_false_r.
  - intros H. rewrite read_le32_word. cbn [fst snd].
    rewrite fread_pos, fread_bytes. change (Z.to_nat 4) with 4%nat.
    set (l := skipn (Z.to_nat (fpos f)) (fdata f)) in *.
    rewrite firstn_all2 by lia.
    split; [|split].
    + destruct l as [|b0 [|b1 [|b2 [|b3 r]]]]; try reflexivity.
      simpl in H. lia.
    + unfold fread. cbn [snd feof]. fold l.
      change (Z.to_nat 4) with 4%nat. rewrite firstn_all2 by lia.
      assert (E : (Z.of_nat (length l) <? 4) = true) by (apply Z.ltb_lt; lia).
      rewrite E. apply orb_true_r.
    + reflexivity.
Qed.

Lemma read_le32_little_endian_witness :
  read_le32 four_bytes_file
  = (FOURCC_RIFF, mkFILE "w" (bytes_of [0x52; 0x49; 0x46; 0x46; 7]) 4 false)
  /\ fst (read_le32 (snd (read_le32 four_bytes_file))) = 0.
Proof.
  destruct (read_le32_little_endian four_bytes_file) as (H1 & _).
  destruct (read_le32_little_endian (snd (read_le32 four_bytes_file)))
    as (_ & H2).
  split.
  - rewrite (H1 _ _ _ _ _ eq_refl). reflexivity.
  - apply H2. vm_compute. lia.
Defined.

(** ** Frames delivered by the video reader *)

(** A successful pass of the scanning loop fills the frame structure
    completely. *)
Lemma read_video_loop_frame malloc_ok fuel :
  forall frame p fr' p',
    read_video_loop malloc_ok fuel frame p = Some ((ESP_OK, fr'), p') ->
    exists data,
      fr' = mk_frame (Block data) (Z.of_nat (length data)) (current_frame p)
              (frame_timestamp_ms (current_frame p)
                 (micro_sec_per_frame (main_header p)))
      /\ malloc_ok (Z.of_nat (length data)) = true.
Proof.
  induction fuel as [|fuel IH]; intros frame p fr' p' H;
    rewrite read_video_loop_eq in H.
  - mstep H as e q E. destruct e; inversion H.
  - mstep H as e q E. apply on_file_view in E. destruct E as (V & C & _).
    destruct e; [inversion H|].
    mstep H as fourcc q1 E. apply on_file_view in E. destruct E as (V1 & C1 & _).
    mstep H as e q2 E. apply on_file_view in E. destruct E as (V2 & C2 & _).
    destruct e; [inversion H|].
    mstep H as size q3 E. apply on_file_view in E. destruct E as (V3 & C3 & _).
    destruct (is_video_chunk fourcc).
    + destruct (malloc_ok size) eqn:Hm; cbn [negb] in H; [|inversion H].
      mstep H as data q4 E. apply on_file_view in E. destruct E as (V4 & C4 & _).
      destruct (Z.of_nat (length data) =? size) eqn:L; cbn [negb] in H;
        [|inversion H].
      apply Z.eqb_eq in L.
      mstep H as cur q5 E. inversion E; subst; clear E.
      mstep H as us q6 E. inversion E; subst; clear E.
      mstep H as u q7 E. inversion E; subst; clear E.
      mstep H as u' q8 E.
      inversion H; subst; clear H.
      exists data. split; [|exact Hm].
      assert (HV : header_view q6 = header_view p) by congruence.
      assert (HC : current_frame q6 = current_frame p) by congruence.
      unfold header_view in HV. inversion HV. congruence.
    + mstep H as u q4 E. apply on_file_view in E. destruct E as (V4 & C4 & _).
      mstep H as u' q5 E. apply pad_skip_view in E. destruct E as (V5 & C5).
      apply IH in H. destruct H as (data & Hfr & Hm).
      exists data. split; [|exact Hm].
      assert (HV : header_view q5 = header_view p) by congruence.
      assert (HC : current_frame q5 = current_frame p) by congruence.
      unfold header_view in HV. inversion HV. congruence.
Qed.

(** X2. A call of avi_parser_read_video_frame changes nothing of the
    handle but the stream and the frame counter.  When it returns
    ESP_OK the frame holds an allocated block whose length is the size
    field, the index is the counter before the call, the timestamp is
    derived from that index, and the counter has advanced by one (as a
    32-bit value); with any other result the counter is unchanged. *)
Theorem read_video_frame_contract :
  forall malloc_ok fuel p fr r p' fr',
    avi_parser_read_video_frame malloc_ok fuel (Some p) (Some fr)
      = Some (r, Some p', Some fr') ->
    header_view p' = header_view p /\
    (r = ESP_OK ->
       (exists data,
           fr_data fr' = Block data /\
           fr_size fr' = Z.of_nat (length data)) /\
       frame_num fr' = current_frame p /\
       timestamp_ms fr' =
         frame_timestamp_ms (current_frame p)
                            (micro_sec_per_frame (main_header p)) /\
       current_frame p' = u32 (current_frame p + 1)) /\
    (r <> ESP_OK -> current_frame p' = current_frame p).
Proof.
  intros malloc_ok fuel p fr r p' fr' H.
  pose proof (read_video_frame_effect _ _ _ _ _ _ _ H) as (V & Hok & Hko).
  split; [exact V|]. split; [|exact Hko].
  intros ->. destruct (Hok eq_refl) as (F & T & C).
  repeat split; try assumption.
  unfold avi_parser_read_video_frame in H.
  destruct (negb (initialized p)); [discriminate|].
  destruct (read_video_loop malloc_ok fuel fr p) as [[[r0 fr0] p0]|] eqn:E;
    [|discriminate].
  inversion H; subst r0 p0 fr0.
  apply read_video_loop_frame in E. destruct E as (data & -> & _).
  exists data. split; reflexivity.
Qed.

Lemma read_video_frame_contract_witness :
  avi_parser_read_video_frame always_grant demo_fuel (Some demo_parser)
    (Some blank_frame)
  = Some (ESP_OK, Some (parser_after_read demo_parser),
          Some (frame_after_read demo_parser))
  /\ frame_num (frame_after_read demo_parser) = 0
  /\ current_frame (parser_after_read demo_parser) = 1.
Proof.
  split; [vm_compute; reflexivity|].
  destruct (read_video_frame_contract always_grant demo_fuel demo_parser
              blank_frame ESP_OK (parser_after_read demo_parser)
              (frame_after_read demo_parser)) as (_ & Ok & _).
  - vm_compute. reflexivity.
  - destruct (Ok eq_refl) as (_ & N & _ & C).
    split; [rewrite N|rewrite C]; vm_compute; reflexivity.
Defined.

(** ** Seek *)



(** ** The audio reader and the frame counter *)

Lemma pad_rest_view (b : bool) (off : Z) p (u : unit) p' :
  (if b then seek_cur off else ret tt) p = Some (u, p') ->
  header_view p' = header_view p /\ current_frame p' = current_frame p.
Proof.
  destruct b; intros H.
  - apply on_file_view in H. tauto.
  - inversion H; subst. auto.
Qed.

Lemma read_audio_loop_outcome fuel :
  forall buffer max_size bytes_read p r buf' br' p',
    read_audio_loop fuel buffer max_size bytes_read p
      = Some ((r, buf', br'), p') ->
    header_view p' = header_view p /\
    current_frame p' = current_frame p /\
    (r = ESP_OK \/ r = ESP_ERR_NOT_FOUND) /\
    (r = ESP_ERR_NOT_FOUND -> buf' = buffer /\ br' = bytes_read).
Proof.
  induction fuel as [|fuel IH];
    intros buffer max_size bytes_read p r buf' br' p' H;
    rewrite read_audio_loop_eq in H.
  - mstep H as e q E. apply on_file_view in E. destruct E as (V & C & _).
    destruct e; [|discriminate].
    inversion H; subst. repeat split; auto.
  - mstep H as e q E. apply on_file_view in E. destruct E as (V & C & _).
    destruct e.
    { inversion H; subst. repeat split; auto. }
    mstep H as fourcc q1 E. apply on_file_view in E. destruct E as (V1 & C1 & _).
    mstep H as e q2 E. apply on_file_view in E. destruct E as (V2 & C2 & _).
    destruct e.
    { inversion H; subst. repeat split; try congruence. auto. }
    mstep H as size q3 E. apply on_file_view in E. destruct E as (V3 & C3 & _).
    destruct (is_audio_chunk fourcc).
    + cbv zeta in H.
      mstep H as data q4 E. apply on_file_view in E. destruct E as (V4 & C4 & _).
      mstep H as u q5 E. apply pad_rest_view in E. destruct E as (V5 & C5).
      mstep H as u' q6 E. apply pad_skip_view in E. destruct E as (V6 & C6).
      inversion H; subst; clear H.
      split; [congruence|]. split; [congruence|]. split; [left; reflexivity|].
      discriminate.
    + mstep H as u q4 E. apply on_file_view in E. destruct E as (V4 & C4 & _).
      mstep H as u' q5 E. apply pad_skip_view in E. destruct E as (V5 & C5).
      apply IH in H. destruct H as (V6 & C6 & R & N).
      split; [congruence|]. split; [congruence|]. split; assumption.
Qed.

(** What a call of the audio reader that returns has done. *)
Lemma read_audio_chunk_outcome :
  forall fuel p buffer max_size bytes_read r p' buf' br',
    initialized p = true ->
    avi_parser_read_audio_chunk fuel (Some p) (Some buffer) max_size bytes_read
      = Some (r, Some p', Some buf', br') ->
    header_view p' = header_view p /\
    current_frame p' = current_frame p /\
    (r = ESP_OK \/ r = ESP_ERR_NOT_FOUND) /\
    (r = ESP_ERR_NOT_FOUND -> buf' = buffer /\ br' = bytes_read).
Proof.
  intros fuel p buffer max_size bytes_read r p' buf' br' Hi H.
  unfold avi_parser_read_audio_chunk in H. rewrite Hi in H. cbn [negb] in H.
  destruct (read_audio_loop fuel buffer max_size bytes_read p)
    as [[[[r0 b0] n0] q]|] eqn:E; [|discriminate].
  inversion H; subst r0 q b0 n0; clear H.
  exact (read_audio_loop_outcome _ _ _ _ _ _ _ _ _ E).
Qed.

(** ** What header parsing keeps *)

Lemma preserves_ret {A} Q (a : A) : preserves Q (ret a).
Proof. intros p a' p' HQ H. inversion H; subst. exact HQ. Qed.

Lemma preserves_stuck {A} Q : preserves Q (@stuck A).
Proof. intros p a p' HQ H. discriminate. Qed.

Lemma preserves_bind {A B} Q (c : M A) (k : A -> M B) :
  preserves Q c -> (forall a, preserves Q (k a)) -> preserves Q (bind c k).
Proof.
  intros Hc Hk p b p' HQ H.
  apply bind_Some in H. destruct H as (a & p1 & E1 & E2).
  exact (Hk a p1 b p' (Hc p a p1 HQ E1) E2).
Qed.

Lemma preserves_get {A} Q (proj : avi_parser_t -> A) : preserves Q (get proj).
Proof. intros p a p' HQ H. inversion H; subst. exact HQ. Qed.

Lemma parse_inv_set_file p f : parse_inv p -> parse_inv (set_file p f).
Proof. intros H. exact H. Qed.

Lemma preserves_on_file {A} (op : FILE -> A * FILE) :
  preserves parse_inv (on_file op).
Proof.
  intros p a p' HQ H. apply on_file_Some in H.
  destruct H as (f & _ & _ & ->). exact HQ.
Qed.

Lemma preserves_skip_remaining size k :
  preserves parse_inv (skip_remaining size k).
Proof.
  unfold skip_remaining.
  destruct (0 <? to_long (u32 (size - k)));
    [apply preserves_on_file|apply preserves_ret].
Qed.

(** Straight-line parser code: split a run into its steps. *)
Ltac run H :=
  repeat (apply bind_Some in H;
          let a := fresh "a" in
          let q := fresh "q" in
          let E := fresh "E" in
          destruct H as (a & q & E & H);
          first [ apply on_file_Some in E;
                  let f := fresh "f" in
                  let Hf := fresh "Hf" in
                  destruct E as (f & Hf & _ & ->); clear Hf
                | unfold upd_mh, upd_vi, upd_ai, modify, get, ret in E;
                  injection E as <- <- ]).

Lemma preserves_parse_avih size : preserves parse_inv (parse_avih size).
Proof.
  intros p r p' (I1 & I2 & I3 & I4 & I5) H. unfold parse_avih in H.
  run H.
  apply bind_Some in H. destruct H as (u & q & E & H).
  inversion H; subst; clear H.
  apply (preserves_skip_remaining size 48 _ _ _) in E; [exact E|].
  unfold parse_inv. cbn [total_frames main_header video_info movi_offset
    current_frame initialized set_total_frames set_main_header set_file
    set_audio_info mh_total_frames].
  refine (conj _ (conj _ (conj I3 (conj _ _)))); first [assumption | reflexivity].
Qed.

Lemma preserves_parse_strh size : preserves parse_inv (parse_strh size).
Proof.
  intros p r p' (I1 & I2 & I3 & I4 & I5) H. unfold parse_strh in H.
  run H.
  apply bind_Some in H. destruct H as (u & q & E & H).
  apply bind_Some in H. destruct H as (u' & q' & E' & H).
  inversion H; subst; clear H.
  apply (preserves_skip_remaining size 48 _ _ _) in E'; [exact E'|].
  destruct (a =? FOURCC_VIDS);
    [|destruct (a =? FOURCC_AUDS)];
    unfold upd_ai, modify, ret in E; injection E as _ <-;
    unfold parse_inv;
    cbn [total_frames main_header video_info movi_offset
      current_frame initialized set_total_frames set_main_header set_file
      set_audio_info mh_total_frames];
    refine (conj _ (conj _ (conj I3 (conj _ _)))); first [assumption | reflexivity].
Qed.

Lemma preserves_parse_strf_audio size :
  preserves parse_inv (parse_strf_audio size).
Proof.
  intros p r p' (I1 & I2 & I3 & I4 & I5) H. unfold parse_strf_audio in H.
  run H.
  apply bind_Some in H. destruct H as (u & q & E & H).
  inversion H; subst; clear H.
  apply (preserves_skip_remaining size 16 _ _ _) in E; [exact E|].
  unfold parse_inv. cbn [total_frames main_header video_info movi_offset
    current_frame initialized set_total_frames set_main_header set_file
    set_audio_info mh_total_frames].
  refine (conj _ (conj _ (conj I3 (conj _ _)))); first [assumption | reflexivity].
Qed.

(** With no video format recorded, a stream format chunk goes to the
    audio routine. *)
Lemma preserves_strf_dispatch size :
  preserves parse_inv
    (found <- get (fun p => vi_found (video_info p)) ;;
     if found : bool then parse_strf_video size ;;; ret tt
     else parse_strf_audio size ;;; ret tt).
Proof.
  intros p r p' HQ H.
  apply bind_Some in H. destruct H as (found & q & E & H).
  inversion E; subst found q; clear E.
  destruct HQ as (I1 & I2 & I3 & I4 & I5).
  rewrite I2 in H. cbn [vi_found] in H.
  apply bind_Some in H. destruct H as (e & q & E & H).
  inversion H; subst; clear H.
  apply (preserves_parse_strf_audio size _ _ _) in E; [exact E|].
  exact (conj I1 (conj I2 (conj I3 (conj I4 I5)))).
Qed.

Lemma u32_range (x : Z) : 0 <= u32 x < 2^32.
Proof. unfold u32. apply Z.mod_pos_bound. reflexivity. Qed.

Lemma preserves_parse_list fuel : forall list_size,
  preserves parse_inv (parse_list fuel list_size).
Proof.
  induction fuel as [|fuel IH]; intros list_size; cbn [parse_list].
  - apply preserves_stuck.
  - apply preserves_bind; [apply preserves_on_file|]. intros list_type.
    destruct (list_type =? FOURCC_MOVI).
    + intros p r p' (I1 & I2 & I3 & I4 & I5) H. run H.
      inversion H; subst; clear H.
      unfold parse_inv. cbn [total_frames main_header video_info movi_offset
        current_frame initialized set_movi set_file].
      refine (conj _ (conj _ (conj (u32_range _) (conj _ _)))); assumption.
    + match goal with
      | |- preserves _ (?loop fuel 4) =>
        assert (L : forall n b, preserves parse_inv (loop n b)); [|apply L]
      end.
      induction n as [|n IHn]; intros b.
      * destruct (b <? u32 (list_size - 4));
          [apply preserves_stuck|apply preserves_ret].
      * destruct (b <? u32 (list_size - 4)); [|apply preserves_ret].
        apply preserves_bind; [apply preserves_on_file|]. intros fourcc.
        apply preserves_bind; [apply preserves_on_file|]. intros size.
        cbv zeta.
        apply preserves_bind.
        { destruct (fourcc =? FOURCC_AVIH).
          { apply preserves_bind; [apply preserves_parse_avih|].
            intros ?. apply preserves_ret. }
          destruct (fourcc =? FOURCC_STRH).
          { apply preserves_bind; [apply preserves_parse_strh|].
            intros ?. apply preserves_ret. }
          destruct (fourcc =? FOURCC_STRF);
            [apply preserves_strf_dispatch|].
          destruct (fourcc =? FOURCC_LIST); [|apply preserves_on_file].
          apply preserves_bind; [apply IH|]. intros ?. apply preserves_ret. }
        intros _.
        destruct (is_odd size).
        -- apply preserves_bind; [apply preserves_on_file|]. intros _.
           apply IHn.
        -- apply IHn.
Qed.

Lemma preserves_parse_avi_header_loop fuel :
  preserves parse_inv (parse_avi_header_loop fuel).
Proof.
  induction fuel as [|fuel IH]; cbn [parse_avi_header_loop].
  - apply preserves_bind; [apply preserves_on_file|]. intros e.
    destruct e; [apply preserves_ret|apply preserves_stuck].
  - apply preserves_bind; [apply preserves_on_file|]. intros e.
    destruct e; [apply preserves_ret|].
    apply preserves_bind; [apply preserves_on_file|]. intros fourcc.
    apply preserves_bind; [apply preserves_on_file|]. intros e.
    destruct e; [apply preserves_ret|].
    apply preserves_bind; [apply preserves_on_file|]. intros size.
    apply preserves_bind.
    { destruct (fourcc =? FOURCC_LIST); [|apply preserves_on_file].
      apply preserves_bind; [apply preserves_parse_list|]. intros ?.
      apply preserves_ret. }
    intros _.
    apply preserves_bind.
    { destruct (is_odd size); [apply preserves_on_file|apply preserves_ret]. }
    intros _.
    apply preserves_bind; [apply preserves_get|]. intros mo.
    destruct (negb (mo =? 0)); [apply preserves_ret|apply IH].
Qed.

(** The header parser keeps the invariant and reports the three
    outcomes its source shows: a wrong signature, no payload list, or a
    payload list at a non-zero offset. *)
Lemma parse_avi_header_outcome fuel p r p' :
  parse_inv p ->
  parse_avi_header fuel p = Some (r, p') ->
  parse_inv p' /\
  (r = ESP_ERR_INVALID_ARG \/
   (r = ESP_FAIL /\ movi_offset p' = 0) \/
   (r = ESP_OK /\ movi_offset p' <> 0)).
Proof.
  intros HQ H. unfold parse_avi_header in H.
  apply bind_Some in H. destruct H as (fourcc & q1 & E1 & H).
  apply (preserves_on_file _ _ _ _ HQ) in E1.
  destruct (negb (fourcc =? FOURCC_RIFF)).
  { inversion H; subst. split; [exact E1|left; reflexivity]. }
  apply bind_Some in H. destruct H as (sz & q2 & E2 & H).
  apply (preserves_on_file _ _ _ _ E1) in E2.
  apply bind_Some in H. destruct H as (fourcc2 & q3 & E3 & H).
  apply (preserves_on_file _ _ _ _ E2) in E3.
  destruct (negb (fourcc2 =? FOURCC_AVI)).
  { inversion H; subst. split; [exact E3|left; reflexivity]. }
  apply bind_Some in H. destruct H as (u & q4 & E4 & H).
  apply (preserves_parse_avi_header_loop fuel _ _ _ E3) in E4.
  apply bind_Some in H. destruct H as (mo & q5 & E5 & H).
  inversion E5; subst mo q5; clear E5.
  destruct (movi_offset q4 =? 0) eqn:Z0; inversion H; subst; clear H.
  - apply Z.eqb_eq in Z0. split; [exact E4|]. right. left. auto.
  - apply Z.eqb_neq in Z0. split; [exact E4|]. right. right. auto.
Qed.

Lemma parse_inv_zero f : parse_inv (set_file zero_parser f).
Proof.
  unfold parse_inv. cbn.
  refine (conj _ (conj _ (conj _ (conj _ _)))); (reflexivity || lia).
Qed.

(** ** Opening and closing a container *)

(** A failed open: codes, handle and I/O log. *)
Lemma avi_parser_open_not_ok :
  forall fs fuel log p0 path r p' log',
    avi_parser_open fs fuel log (Some p0) (Some path)
      = Some (r, Some p', log') ->
    r <> ESP_OK ->
    (r = ESP_FAIL \/ r = ESP_ERR_INVALID_ARG) /\
    file p' = None /\
    initialized p' = false /\
    current_frame p' = 0 /\
    (fs path = None -> r = ESP_FAIL /\ log' = log) /\
    (fs path <> None -> log' = log ++ [EvOpen path; EvClose path]).
Proof.
  intros fs fuel log p0 path r p' log' H Hr.
  unfold avi_parser_open, fopen in H.
  destruct (fs path) as [d|] eqn:Hfs.
  - set (f0 := mkFILE path d 0 false) in H.
    destruct (parse_avi_header fuel (set_file zero_parser (Some f0)))
      as [[r1 p1]|] eqn:Hp; [|discriminate].
    destruct (keeps_parse_avi_header fuel (set_file zero_parser (Some f0))
                r1 p1 f0 eq_refl Hp)
      as (f1 & Hf1 & (P1 & D1)).
    destruct (parse_avi_header_outcome fuel _ r1 p1 (parse_inv_zero _) Hp)
      as ((I1 & I2 & I3 & I4 & I5) & O).
    destruct (negb (esp_err_is_ok r1)) eqn:Hn.
    + rewrite Hf1 in H. inversion H; subst r1 p' log'; clear H.
      split.
      { destruct O as [O|[(O & _)|(O & _)]]; auto. contradiction. }
      split; [reflexivity|]. split; [exact I5|]. split; [exact I4|].
      split; [discriminate|]. intros _.
      unfold fclose. rewrite P1. rewrite <- app_assoc. reflexivity.
    + destruct (seek_set (to_long (movi_offset p1)) p1) as [[u p2]|];
        [|discriminate].
      inversion H; subst. contradiction.
  - inversion H; subst r p' log'; clear H.
    split; [left; reflexivity|]. repeat split; auto.
    intros C. contradiction.
Qed.

(** X5. When avi_parser_open is given a handle and a path and does not
    return ESP_OK, it returns ESP_FAIL or ESP_ERR_INVALID_ARG and leaves
    the handle without a stream, not initialized and with a zero frame
    counter.  The stream it may have opened has been closed again: the
    I/O log is unchanged when the file could not be opened, and grew by
    one open and one close of that path otherwise. *)
Theorem avi_parser_open_failure :
  forall fs fuel log p0 path r p' log',
    avi_parser_open fs fuel log (Some p0) (Some path)
      = Some (r, Some p', log') ->
    r <> ESP_OK ->
    (r = ESP_FAIL \/ r = ESP_ERR_INVALID_ARG) /\
    file p' = None /\
    initialized p' = false /\
    current_frame p' = 0 /\
    (fs path = None -> r = ESP_FAIL /\ log' = log) /\
    (fs path <> None -> log' = log ++ [EvOpen path; EvClose path]).
Proof. exact avi_parser_open_not_ok. Qed.

Lemma avi_parser_open_failure_witness :
  avi_parser_open demo_fs demo_fuel [] (Some demo_parser) (Some bogus_path)
    = Some (ESP_ERR_INVALID_ARG, Some zero_parser,
            [EvOpen bogus_path; EvClose bogus_path])
  /\ file zero_parser = None.
Proof.
  split; [vm_compute; reflexivity|].
  apply (avi_parser_open_failure demo_fs demo_fuel [] demo_parser bogus_path
           ESP_ERR_INVALID_ARG zero_parser
           [EvOpen bogus_path; EvClose bogus_path]).
  - vm_compute. reflexivity.
  - intros C. discriminate C.
Defined.

(** X6. After avi_parser_open has returned ESP_OK the handle is
    initialized, its frame counter is 0, its frame total is the one of
    the main header, and the offset of the payload list is a non-zero
    32-bit value.  The stream is the file of that path; its cursor
    stands at the payload offset provided the offset is representable
    as a long. *)
Theorem avi_parser_open_success :
  forall fs fuel log p0 path a log',
    avi_parser_open fs fuel log (Some p0) (Some path)
      = Some (ESP_OK, Some a, log') ->
    log' = log ++ [EvOpen path] /\
    initialized a = true /\
    current_frame a = 0 /\
    total_frames a = mh_total_frames (main_header a) /\
    0 < movi_offset a < 2^32 /\
    exists f,
      file a = Some f /\ fpath f = path /\ fs path = Some (fdata f) /\
      (movi_offset a <= LONG_MAX ->
       fpos f = movi_offset a /\ feof f = false).
Proof.
  intros fs fuel log p0 path a log' H.
  destruct (avi_parser_open_ok _ _ _ _ _ _ _ H) as (L & Hi & Hc & f & Hf & Hp & Hd).
  split; [exact L|]. split; [exact Hi|]. split; [exact Hc|].
  unfold avi_parser_open, fopen in H.
  destruct (fs path) as [d|] eqn:Hfs; [|discriminate].
  set (f0 := mkFILE path d 0 false) in H.
  destruct (parse_avi_header fuel (set_file zero_parser (Some f0)))
    as [[r1 p1]|] eqn:E; [|discriminate].
  destruct (parse_avi_header_outcome fuel _ r1 p1 (parse_inv_zero _) E)
    as ((I1 & I2 & I3 & I4 & I5) & O).
  destruct r1; cbn [esp_err_is_ok negb] in H;
    try (destruct (file p1); discriminate).
  destruct O as [O|[(O & _)|(_ & O)]]; try discriminate.
  destruct (seek_set (to_long (movi_offset p1)) p1) as [[u p2]|] eqn:S;
    [|discriminate].
  pose proof S as S'. apply on_file_view in S'. destruct S' as (V & C & _).
  apply on_file_Some in S. destruct S as (f1 & Hf1 & _ & Hp2).
  inversion H; subst a log'; clear H.
  cbn [total_frames main_header movi_offset set_initialized set_current_frame].
  assert (HV : main_header p2 = main_header p1 /\
               total_frames p2 = total_frames p1 /\
               movi_offset p2 = movi_offset p1).
  { unfold header_view in V. inversion V. auto. }
  destruct HV as (V1 & V2 & V3).
  rewrite V1, V2, V3.
  split; [exact I1|]. split; [lia|].
  exists f. split; [exact Hf|]. split; [exact Hp|]. split; [exact Hd|].
  intros Hle.
  cbn [file set_initialized set_current_frame] in Hf.
  rewrite Hp2 in Hf. cbn [file set_file snd] in Hf.
  inversion Hf; subst f; clear Hf.
  unfold fseek_set. rewrite to_long_small by (unfold LONG_MAX in Hle; lia).
  assert (B : (0 <=? movi_offset p1) && (movi_offset p1 <=? LONG_MAX) = true).
  { apply andb_true_iff. split; apply Z.leb_le; lia. }
  rewrite B. cbn [fpos feof]. auto.
Qed.

Lemma avi_parser_open_success_witness :
  avi_parser_open demo_fs demo_fuel [] (Some zero_parser) (Some demo_path)
    = Some (ESP_OK, Some demo_parser, [EvOpen demo_path])
  /\ total_frames demo_parser = 150
  /\ movi_offset demo_parser = 224.
Proof.
  split; [vm_compute; reflexivity|].
  destruct (avi_parser_open_success demo_fs demo_fuel [] zero_parser demo_path
              demo_parser [EvOpen demo_path])
    as (_ & _ & _ & T & _ & _).
  - vm_compute. reflexivity.
  - split; [rewrite T|]; vm_compute; reflexivity.
Defined.

(** A successful open leaves the video format record as the [memset]
    made it. *)
Lemma avi_parser_open_video_info fs fuel log parser path a log' :
  avi_parser_open fs fuel log parser (Some path) = Some (ESP_OK, Some a, log') ->
  video_info a = mk_video_info 0 0 0 0 false.
Proof.
  unfold avi_parser_open, fopen.
  destruct parser as [p0|]; [|discriminate].
  destruct (fs path) as [d|]; [|discriminate].
  set (f0 := mkFILE path d 0 false).
  destruct (parse_avi_header fuel (set_file zero_parser (Some f0)))
    as [[r1 p1]|] eqn:E; [|discriminate].
  destruct (parse_avi_header_outcome fuel _ r1 p1 (parse_inv_zero _) E)
    as ((I1 & I2 & I3 & I4 & I5) & O).
  destruct r1; cbn [esp_err_is_ok negb];
    try (destruct (file p1); discriminate).
  destruct (seek_set (to_long (movi_offset p1)) p1) as [[u p2]|] eqn:S;
    [|discriminate].
  apply on_file_view in S. destruct S as (V & _).
  intros H. inversion H; subst a log'; clear H.
  cbn [video_info set_initialized set_current_frame].
  unfold header_view in V. inversion V. congruence.
Qed.

(** X7. Whatever the container declares, after a successful
    video_player_open the parser has recorded no video format (the
    routine that would set the found flag is only reached when the flag
    is already set), so the information record reports width 0 and
    height 0. *)
Theorem open_never_records_video_format :
  forall fs fuel log pl path pl' log',
    video_player_open fs fuel log (Some pl) (Some path)
      = Some (ESP_OK, Some pl', log') ->
    video_info (avi_parser pl') = mk_video_info 0 0 0 0 false /\
    width (info pl') = 0 /\
    height (info pl') = 0.
Proof.
  intros fs fuel log pl path pl' log' H.
  unfold video_player_open in H. rewrite video_player_close_effect in H.
  match type of H with
  | context [avi_parser_open fs fuel ?l ?q (Some path)] =>
    destruct (avi_parser_open fs fuel l q (Some path))
      as [[[r [a|]] log2]|] eqn:Ho; try discriminate
  end.
  destruct r; cbn [esp_err_is_ok negb] in H; try discriminate.
  apply avi_parser_open_video_info in Ho.
  unfold udiv in H.
  destruct (_ =? 0) in H; [discriminate|].
  destruct (_ =? 0) in H; [discriminate|].
  inversion H; subst pl' log'; clear H.
  cbn. rewrite Ho. repeat split.
Qed.

Lemma open_never_records_video_format_witness :
  video_player_open demo_fs demo_fuel [] (Some demo_player) (Some demo_path)
    = Some (ESP_OK, Some (player_after_open demo_player demo_path),
            [EvOpen demo_path])
  /\ width (info (player_after_open demo_player demo_path)) = 0
  /\ height (info (player_after_open demo_player demo_path)) = 0.
Proof.
  split; [vm_compute; reflexivity|].
  destruct (open_never_records_video_format demo_fs demo_fuel [] demo_player
              demo_path (player_after_open demo_player demo_path)
              [EvOpen demo_path]) as (_ & W & Hh).
  - vm_compute. reflexivity.
  - split; assumption.
Defined.

Lemma u16_range (x : Z) : 0 <= u16 x < 2^16.
Proof. unfold u16. apply Z.mod_pos_bound. reflexivity. Qed.

(** X8. After a successful video_player_open the frame rate reported is
    between 1 and 65535 (a rate of 0 is replaced by 15), the frame
    period is 1000000 divided by that rate, hence between 15 and
    1000000 microseconds, the frame count is the parser's total, the
    duration is the frame count divided by the rate, and the path is
    the first 255 characters of the argument. *)
Theorem video_player_open_timing :
  forall fs fuel log pl fp pl' log',
    video_player_open fs fuel log (Some pl) (Some fp)
      = Some (ESP_OK, Some pl', log') ->
    1 <= fps (info pl') <= 65535 /\
    frame_time_us pl' = 1000000 / fps (info pl') /\
    15 <= frame_time_us pl' <= 1000000 /\
    frame_count (info pl') = total_frames (avi_parser pl') /\
    duration_sec (info pl') = frame_count (info pl') / fps (info pl') /\
    path (info pl') = copy_path fp.
Proof.
  intros fs fuel log pl fp pl' log' H.
  unfold video_player_open in H. rewrite video_player_close_effect in H.
  match type of H with
  | context [avi_parser_open fs fuel ?l ?q (Some fp)] =>
    destruct (avi_parser_open fs fuel l q (Some fp))
      as [[[r [a|]] log2]|] eqn:Ho; try discriminate
  end.
  destruct r; cbn [esp_err_is_ok negb] in H; try discriminate.
  set (fps0 := uint16_of_float32 (avi_parser_get_fps (Some a))) in H.
  assert (R : 0 <= fps0 < 2^16) by apply u16_range.
  unfold udiv in H.
  destruct ((if 0 <? fps0 then fps0 else 15) =? 0) eqn:D1; [discriminate|].
  destruct ((if fps0 =? 0 then 15 else fps0) =? 0) eqn:D2; [discriminate|].
  inversion H; subst pl' log'; clear H.
  cbn [info fps frame_time_us frame_count duration_sec path avi_parser
       set_vp_current_frame set_frame_time_us set_info set_avi_parser
       avi_parser_get_total_frames].
  assert (F : 1 <= (if fps0 =? 0 then 15 else fps0) <= 65535).
  { destruct (fps0 =? 0) eqn:Z0; [lia|]. apply Z.eqb_neq in Z0. lia. }
  assert (Q : (if 0 <? fps0 then fps0 else 15)
              = (if fps0 =? 0 then 15 else fps0)).
  { destruct (fps0 =? 0) eqn:Z0.
    - apply Z.eqb_eq in Z0. rewrite Z0. reflexivity.
    - apply Z.eqb_neq in Z0.
      assert (L : (0 <? fps0) = true) by (apply Z.ltb_lt; lia).
      rewrite L. reflexivity. }
  set (k := if fps0 =? 0 then 15 else fps0) in *.
  split; [exact F|]. split; [reflexivity|].
  split.
  { split.
    - apply Z.div_le_lower_bound; lia.
    - apply Z.div_le_upper_bound; lia. }
  split; [reflexivity|]. split; [rewrite Q; reflexivity|reflexivity].
Qed.

Lemma video_player_open_timing_witness :
  video_player_open demo_fs demo_fuel [] (Some demo_player) (Some slides_path)
    = Some (ESP_OK, Some (player_after_open demo_player slides_path),
            [EvOpen slides_path])
  /\ fps (info (player_after_open demo_player slides_path)) = 15
  /\ frame_time_us (player_after_open demo_player slides_path) = 66666.
Proof.
  split; [vm_compute; reflexivity|].
  destruct (video_player_open_timing demo_fs demo_fuel [] demo_player
              slides_path (player_after_open demo_player slides_path)
              [EvOpen slides_path]) as (_ & T & _).
  - vm_compute. reflexivity.
  - split; [|rewrite T]; vm_compute; reflexivity.
Defined.

(** X9. When video_player_open fails on a player and a path, the player
    keeps its state and its information record (which still describes
    the previous file), its frame index is 0, and the parser is left
    closed: a following video_player_play returns ESP_FAIL and changes
    nothing, whether or not a task could be created. *)
Theorem video_player_open_failure :
  forall fs fuel log pl path r pl' log',
    video_player_open fs fuel log (Some pl) (Some path)
      = Some (r, Some pl', log') ->
    r <> ESP_OK ->
    (r = ESP_FAIL \/ r = ESP_ERR_INVALID_ARG) /\
    state pl' = state pl /\
    info pl' = info pl /\
    vp_current_frame pl' = 0 /\
    file (avi_parser pl') = None /\
    initialized (avi_parser pl') = false /\
    forall task now,
      video_player_play (Some pl') task now = (ESP_FAIL, Some pl').
Proof.
  intros fs fuel log pl path r pl' log' H Hr.
  unfold video_player_open in H. rewrite video_player_close_effect in H.
  match type of H with
  | context [avi_parser_open fs fuel ?l (Some ?p0) (Some path)] =>
    destruct (avi_parser_open fs fuel l (Some p0) (Some path))
      as [[[r1 [a|]] log2]|] eqn:Ho; try discriminate;
    pose proof (avi_parser_open_not_ok fs fuel l p0 path r1 a log2 Ho) as F
  end.
  assert (R1 : r1 = r /\ pl' = set_avi_parser
            (set_vp_current_frame
               (set_avi_parser pl
                  (match file (avi_parser pl) with
                   | Some _ =>
                     set_initialized (set_file (avi_parser pl) None) false
                   | None => set_initialized (avi_parser pl) false
                   end)) 0) a).
  { destruct r1; cbn [esp_err_is_ok negb] in H;
      try (inversion H; split; reflexivity).
    unfold udiv in H.
    destruct (_ =? 0) in H; [discriminate|].
    destruct (_ =? 0) in H; [discriminate|].
    inversion H; subst. contradiction. }
  destruct R1 as (-> & ->). clear H.
  destruct (F Hr) as (E & Fn & I & _).
  cbn [state info vp_current_frame avi_parser set_avi_parser
       set_vp_current_frame].
  split; [exact E|]. split; [reflexivity|]. split; [reflexivity|].
  split; [reflexivity|]. split; [exact Fn|]. split; [exact I|].
  intros task now. unfold video_player_play.
  cbn [avi_parser set_avi_parser]. rewrite I. reflexivity.
Qed.

Lemma video_player_open_failure_witness :
  exists pl',
    video_player_open demo_fs demo_fuel [EvOpen demo_path] (Some playing_player)
      (Some bogus_path)
    = Some (ESP_ERR_INVALID_ARG, Some pl',
            [EvOpen demo_path; EvClose demo_path;
             EvOpen bogus_path; EvClose bogus_path])
    /\ state pl' = VIDEO_STATE_PLAYING
    /\ path (info pl') = demo_path
    /\ video_player_play (Some pl') (Some 2) 5000 = (ESP_FAIL, Some pl').
Proof.
  eexists. split; [vm_compute; reflexivity|].
  match goal with
  | |- state ?q = _ /\ _ =>
    destruct (video_player_open_failure demo_fs demo_fuel [EvOpen demo_path]
                playing_player bogus_path ESP_ERR_INVALID_ARG q
                [EvOpen demo_path; EvClose demo_path;
                 EvOpen bogus_path; EvClose bogus_path])
      as (_ & S & I & _ & _ & _ & P)
  end.
  - vm_compute. reflexivity.
  - intros C. discriminate C.
  - split; [rewrite S; vm_compute; reflexivity|].
    split; [rewrite I; vm_compute; reflexivity|].
    apply P.
Defined.

(** X10. avi_parser_close leaves the handle without a stream and not
    initialized and touches no other field; the stream, if one was
    open, is closed exactly once, so a second close changes neither the
    handle nor the I/O log.  On the closed handle every read and seek
    returns ESP_ERR_INVALID_ARG and leaves handle and arguments as
    they were. *)
Theorem avi_parser_close_effect :
  forall log p p' log',
    avi_parser_close log (Some p) = (Some p', log') ->
    p' = set_initialized (set_file p None) false /\
    log' = match file p with
           | Some f => log ++ [EvClose (fpath f)]
           | None => log
           end /\
    avi_parser_close log' (Some p') = (Some p', log') /\
    (forall malloc_ok fuel fr,
        avi_parser_read_video_frame malloc_ok fuel (Some p') fr
          = Some (ESP_ERR_INVALID_ARG, Some p', fr)) /\
    (forall fuel buf max_size br,
        avi_parser_read_audio_chunk fuel (Some p') buf max_size br
          = Some (ESP_ERR_INVALID_ARG, Some p', buf, br)) /\
    (forall malloc_ok fuel n,
        avi_parser_seek malloc_ok fuel (Some p') n
          = Some (ESP_ERR_INVALID_ARG, Some p')).
Proof.
  intros log p p' log' H. unfold avi_parser_close in H.
  assert (E : p' = set_initialized (set_file p None) false /\
              log' = match file p with
                     | Some f => log ++ [EvClose (fpath f)]
                     | None => log
                     end).
  { destruct p as [[f|] mh vi ai mo ms cf tf ini]; cbn in H |- *;
      inversion H; subst; split; reflexivity. }
  destruct E as (-> & ->). clear H.
  split; [reflexivity|]. split; [reflexivity|].
  split; [reflexivity|].
  split; [|split].
  - intros malloc_ok fuel [fr|]; reflexivity.
  - intros fuel [buf|] max_size br; reflexivity.
  - intros malloc_ok fuel n. reflexivity.
Qed.

Lemma avi_parser_close_effect_witness :
  avi_parser_close [EvOpen demo_path] (Some demo_parser)
    = (Some (set_initialized (set_file demo_parser None) false),
       [EvOpen demo_path; EvClose demo_path])
  /\ avi_parser_seek always_grant demo_fuel
       (Some (set_initialized (set_file demo_parser None) false)) 2
     = Some (ESP_ERR_INVALID_ARG,
             Some (set_initialized (set_file demo_parser None) false)).
Proof.
  split; [vm_compute; reflexivity|].
  destruct (avi_parser_close_effect [EvOpen demo_path] demo_parser
              (set_initialized (set_file demo_parser None) false)
              [EvOpen demo_path; EvClose demo_path])
    as (_ & _ & _ & _ & _ & S).
  - vm_compute. reflexivity.
  - apply S.
Defined.

(** ** The playback controller: how the operations compose *)

(** X11. video_player_stop followed by video_player_open: when the two
    calls succeed the player is in the stopped state unless it was in
    the error state before, in which case it stays there; its frame
    index is 0 and no playback task is recorded if one was stopped. *)
Theorem stop_then_open_state :
  forall fs fuel log pl pl1 path pl2 log',
    video_player_stop (Some pl) = (ESP_OK, Some pl1) ->
    video_player_open fs fuel log (Some pl1) (Some path)
      = Some (ESP_OK, Some pl2, log') ->
    (state pl <> VIDEO_STATE_ERROR -> state pl2 = VIDEO_STATE_STOPPED) /\
    (state pl = VIDEO_STATE_ERROR -> state pl2 = VIDEO_STATE_ERROR) /\
    vp_current_frame pl2 = 0 /\
    (state pl = VIDEO_STATE_PLAYING \/ state pl = VIDEO_STATE_PAUSED ->
     playback_task pl2 = None).
Proof.
  intros fs fuel log pl pl1 path pl2 log' Hs Ho.
  pose proof (video_player_open_ok _ _ _ _ _ _ _ Ho) as K.
  cbv zeta in K.
  destruct K as (_ & _ & _ & _ & _ & _ & _ & Hc & Hst & _).
  assert (T : playback_task pl2 = playback_task pl1).
  { clear Hs Hc Hst.
    unfold video_player_open in Ho. rewrite video_player_close_effect in Ho.
    match type of Ho with
    | context [avi_parser_open fs fuel ?l ?q (Some path)] =>
      destruct (avi_parser_open fs fuel l q (Some path))
        as [[[r [a|]] log2]|]; try discriminate
    end.
    destruct r; cbn [esp_err_is_ok negb] in Ho; try discriminate.
    unfold udiv in Ho.
    destruct (_ =? 0) in Ho; [discriminate|].
    destruct (_ =? 0) in Ho; [discriminate|].
    inversion Ho; subst. reflexivity. }
  unfold video_player_stop in Hs.
  rewrite Hst, T. clear Ho Hst T.
  cbv zeta in Hs. cbn [playback_task set_state] in Hs.
  destruct (state pl) eqn:S; destruct (playback_task pl) eqn:T0;
    inversion Hs; subst pl1; clear Hs;
    cbn [state set_state set_vp_current_frame set_playback_task playback_task].
  all: split; [intros C; first [reflexivity | exact S | congruence]|].
  all: split; [intros C; first [discriminate C | exact S]|].
  all: split; [exact Hc|].
  all: intros [C|C]; try discriminate C.
  all: first [reflexivity | exact T0].
Qed.

Lemma stop_then_open_state_witness :
  state playing_player = VIDEO_STATE_PLAYING /\
  exists pl1 pl2,
    video_player_stop (Some playing_player) = (ESP_OK, Some pl1) /\
    video_player_open demo_fs demo_fuel [EvOpen demo_path] (Some pl1)
      (Some other_path)
    = Some (ESP_OK, Some pl2,
            [EvOpen demo_path; EvClose demo_path; EvOpen other_path]) /\
    state pl2 = VIDEO_STATE_STOPPED /\
    playback_task pl2 = None.
Proof.
  split; [vm_compute; reflexivity|].
  eexists. eexists.
  split; [vm_compute; reflexivity|].
  split; [vm_compute; reflexivity|].
  match goal with
  | |- state ?q2 = _ /\ _ =>
    destruct (stop_then_open_state demo_fs demo_fuel [EvOpen demo_path]
                playing_player
                (set_vp_current_frame
                   (set_playback_task
                      (set_state playing_player VIDEO_STATE_STOPPED) None) 0)
                other_path q2
                [EvOpen demo_path; EvClose demo_path; EvOpen other_path])
      as (S & _ & _ & T)
  end.
  - vm_compute. reflexivity.
  - vm_compute. reflexivity.
  - split.
    + apply S. vm_compute. intros C. discriminate C.
    + apply T. left. vm_compute. reflexivity.
Defined.

(** X12. Pausing a playing player and calling video_player_play again
    returns ESP_OK and brings the player back to the playing state at
    the same frame index and with the same parser; the second call does
    not find the state PLAYING and therefore creates a playback task
    once more: the handle of the new task replaces the recorded one,
    and the time of the last frame is reset to the timer reading. *)
Theorem pause_then_play_resumes :
  forall pl pl1 h now,
    state pl = VIDEO_STATE_PLAYING ->
    initialized (avi_parser pl) = true ->
    video_player_pause (Some pl) = (ESP_OK, Some pl1) ->
    exists pl2,
      video_player_play (Some pl1) (Some h) now = (ESP_OK, Some pl2) /\
      state pl2 = VIDEO_STATE_PLAYING /\
      vp_current_frame pl2 = vp_current_frame pl /\
      avi_parser pl2 = avi_parser pl /\
      info pl2 = info pl /\
      playback_task pl2 = Some h /\
      last_frame_time pl2 = now.
Proof.
  intros pl pl1 h now S I H.
  unfold video_player_pause in H. rewrite S in H.
  inversion H; subst pl1; clear H.
  unfold video_player_play.
  cbn [avi_parser set_state state]. rewrite I. cbn [negb].
  eexists. split; [reflexivity|].
  cbn. repeat split; reflexivity.
Qed.

Lemma pause_then_play_resumes_witness :
  playback_task playing_player = Some 1 /\
  exists pl2,
    video_player_play (Some (set_state playing_player VIDEO_STATE_PAUSED))
      (Some 2) 9000 = (ESP_OK, Some pl2) /\
    state pl2 = VIDEO_STATE_PLAYING /\
    vp_current_frame pl2 = vp_current_frame playing_player /\
    avi_parser pl2 = avi_parser playing_player /\
    info pl2 = info playing_player /\
    playback_task pl2 = Some 2 /\
    last_frame_time pl2 = 9000.
Proof.
  split; [vm_compute; reflexivity|].
  apply (pause_then_play_resumes playing_player
           (set_state playing_player VIDEO_STATE_PAUSED) 2 9000).
  - vm_compute. reflexivity.
  - vm_compute. reflexivity.
  - vm_compute. reflexivity.
Defined.



(** ** Reading back what was laid out *)

Lemma byte_val_of_Z (x : Z) : byte_val (byte_of_Z x) = u8 x.
Proof.
  unfold byte_of_Z, byte_val.
  assert (R : 0 <= u8 x < 256).
  { unfold u8. apply Z.mod_pos_bound. reflexivity. }
  destruct (Byte.of_N (Z.to_N (u8 x))) as [b|] eqn:E.
  - apply Byte.to_of_N in E. rewrite E. rewrite Z2N.id by lia. reflexivity.
  - apply Byte.of_N_None_iff in E. lia.
Qed.

Lemma le32_of_le32_bytes (v : Z) :
  0 <= v < 2^32 ->
  le32 (byte_of_Z v) (byte_of_Z (Z.shiftr v 8))
       (byte_of_Z (Z.shiftr v 16)) (byte_of_Z (Z.shiftr v 24)) = v.
Proof.
  intros R. rewrite le32_sum, !byte_val_of_Z.
  rewrite !Z.shiftr_div_pow2 by lia. unfold u8.
  change (2^8) with 256. change (2^16) with 65536.
  change (2^24) with 16777216. change (2^32) with 4294967296 in R.
  Z.to_euclidean_division_equations. lia.
Qed.

Lemma skipn_cursor f pre suf :
  cursor_at f pre suf -> skipn (Z.to_nat (fpos f)) (fdata f) = suf.
Proof.
  intros (D & P & _). rewrite D, P, Nat2Z.id.
  rewrite skipn_app, skipn_all, Nat.sub_diag. reflexivity.
Qed.

Lemma cursor_advance f pre got rest :
  cursor_at f pre (got ++ rest) ->
  cursor_at (advance f (Z.of_nat (length got))) (pre ++ got) rest.
Proof.
  intros (D & P & E). unfold cursor_at, advance. cbn [fdata fpos feof].
  rewrite D, P, <- app_assoc, length_app, Nat2Z.inj_add. auto.
Qed.

Lemma fread_cursor f pre got rest :
  cursor_at f pre (got ++ rest) ->
  fread f (Z.of_nat (length got)) = (got, advance f (Z.of_nat (length got))).
Proof.
  intros C. unfold fread. rewrite (skipn_cursor _ _ _ C).
  rewrite Nat2Z.id, firstn_app, firstn_all, Nat.sub_diag.
  cbn [firstn]. rewrite app_nil_r.
  destruct C as (_ & _ & E). rewrite E, Z.ltb_irrefl. reflexivity.
Qed.

Lemma read_le32_cursor f pre v rest :
  0 <= v < 2^32 ->
  cursor_at f pre (le32_bytes v ++ rest) ->
  read_le32 f = (v, advance f 4).
Proof.
  intros R C. unfold read_le32.
  change 4 with (Z.of_nat (length (le32_bytes v))).
  rewrite (fread_cursor f pre (le32_bytes v) rest C).
  unfold le32_bytes at 1. rewrite le32_of_le32_bytes by exact R. reflexivity.
Qed.

Lemma fseek_cur_cursor f pre got rest :
  cursor_at f pre (got ++ rest) ->
  Z.of_nat (length (fdata f)) <= LONG_MAX ->
  fseek_cur f (Z.of_nat (length got)) = advance f (Z.of_nat (length got)).
Proof.
  intros (D & P & E) L. unfold fseek_cur, advance.
  rewrite D, !length_app in L.
  assert (B : (0 <=? fpos f + Z.of_nat (length got))
              && (fpos f + Z.of_nat (length got) <=? LONG_MAX) = true).
  { apply andb_true_iff. split; apply Z.leb_le; lia. }
  rewrite B. reflexivity.
Qed.

(** Running stream operations on a handle whose stream is known. *)
Lemma bind_on_file {A B} (op : FILE -> A * FILE) (k : A -> M B) p f a f' :
  file p = Some f -> op f = (a, f') ->
  bind (on_file op) k p = k a (set_file p (Some f')).
Proof.
  intros Hf Ho. unfold bind, on_file. rewrite Hf, Ho. reflexivity.
Qed.

Lemma set_file_id p f : file p = Some f -> set_file p (Some f) = p.
Proof. destruct p; cbn. intros ->. reflexivity. Qed.

Lemma bind_at_eof {B} (k : bool -> M B) p f :
  bind at_eof k (set_file p (Some f)) = k (feof f) (set_file p (Some f)).
Proof. reflexivity. Qed.

Lemma bind_rd_le32 {B} (k : Z -> M B) p f v f' :
  read_le32 f = (v, f') ->
  bind rd_le32 k (set_file p (Some f)) = k v (set_file p (Some f')).
Proof.
  intros Ho. unfold bind, rd_le32, on_file. cbn [file set_file].
  rewrite Ho. reflexivity.
Qed.

Lemma bind_rd_fourcc {B} (k : Z -> M B) p f v f' :
  read_le32 f = (v, f') ->
  bind rd_fourcc k (set_file p (Some f)) = k v (set_file p (Some f')).
Proof. exact (bind_rd_le32 k p f v f'). Qed.

Lemma bind_rd_bytes {B} (k : list byte -> M B) n p f got f' :
  fread f n = (got, f') ->
  bind (rd_bytes n) k (set_file p (Some f)) = k got (set_file p (Some f')).
Proof.
  intros Ho. unfold bind, rd_bytes, on_file. cbn [file set_file].
  rewrite Ho. reflexivity.
Qed.

Lemma bind_seek_cur {B} (k : unit -> M B) off p f f' :
  fseek_cur f off = f' ->
  bind (seek_cur off) k (set_file p (Some f)) = k tt (set_file p (Some f')).
Proof.
  intros Ho. unfold bind, seek_cur, on_file. cbn [file set_file].
  rewrite Ho. reflexivity.
Qed.

Lemma length_le32_bytes v : length (le32_bytes v) = 4%nat.
Proof. reflexivity. Qed.

Lemma riff_chunk_layout tag payload :
  riff_chunk tag payload
  = le32_bytes tag ++ le32_bytes (Z.of_nat (length payload)) ++ payload
    ++ (if is_odd (Z.of_nat (length payload)) then [x00] else []).
Proof. reflexivity. Qed.

Lemma length_riff_chunk tag payload :
  Z.of_nat (length (riff_chunk tag payload))
  = 8 + Z.of_nat (length payload)
    + (if is_odd (Z.of_nat (length payload)) then 1 else 0).
Proof.
  rewrite riff_chunk_layout, !length_app, !length_le32_bytes.
  destruct (is_odd _); cbn [length]; lia.
Qed.

(** The stream after the header, the data and the pad byte of a chunk
    have been passed. *)
Lemma advance_advance f a b : advance (advance f a) b = advance f (a + b).
Proof. unfold advance. cbn [fpath fdata fpos]. f_equal. lia. Qed.

Lemma advance_path f n : fpath (advance f n) = fpath f.
Proof. reflexivity. Qed.

Lemma advance_data f n : fdata (advance f n) = fdata f.
Proof. reflexivity. Qed.

Section ChunkSteps.

Variable malloc_ok : Z -> bool.

(** The video reader passes over a chunk whose tag it does not accept. *)
Lemma read_video_loop_skip fuel frame p f pre tag payload rest :
  file p = Some f ->
  cursor_at f pre (riff_chunk tag payload ++ rest) ->
  Z.of_nat (length (fdata f)) <= LONG_MAX ->
  0 <= tag < 2^32 ->
  is_video_chunk tag = false ->
  read_video_loop malloc_ok (S fuel) frame p
  = read_video_loop malloc_ok fuel frame
      (set_file p (Some (advance f (Z.of_nat (length (riff_chunk tag payload)))))).
Proof.
  intros Hf C L Rt Hv.
  pose proof C as (D & P & E).
  assert (Ls : 0 <= Z.of_nat (length payload) < 2^31).
  { rewrite D, riff_chunk_layout, !length_app in L.
    unfold LONG_MAX in L. lia. }
  rewrite <- (set_file_id p f Hf) at 1.
  rewrite read_video_loop_eq.
  rewrite bind_at_eof. rewrite E.
  rewrite riff_chunk_layout, <- !app_assoc in C.
  rewrite (bind_rd_fourcc _ _ f tag (advance f 4)
             (read_le32_cursor f pre tag _ Rt C)).
  apply (cursor_advance f pre (le32_bytes tag)) in C.
  rewrite length_le32_bytes in C. change (Z.of_nat 4) with 4 in C.
  rewrite bind_at_eof. cbn [feof advance]. fold (advance f 4).
  assert (Rs : 0 <= Z.of_nat (length payload) < 2^32) by lia.
  rewrite (bind_rd_le32 _ _ (advance f 4) (Z.of_nat (length payload))
             (advance (advance f 4) 4)
             (read_le32_cursor _ _ _ _ Rs C)).
  apply (cursor_advance _ _ (le32_bytes (Z.of_nat (length payload)))) in C.
  rewrite length_le32_bytes in C. change (Z.of_nat 4) with 4 in C.
  rewrite Hv.
  rewrite to_long_small by lia.
  assert (L' : Z.of_nat (length (fdata (advance (advance f 4) 4))) <= LONG_MAX)
    by exact L.
  rewrite (bind_seek_cur _ _ _ (advance (advance f 4) 4)
             (advance (advance (advance f 4) 4) (Z.of_nat (length payload)))
             (fseek_cur_cursor _ _ payload _ C L')).
  apply (cursor_advance _ _ payload) in C.
  rewrite length_riff_chunk.
  destruct (is_odd (Z.of_nat (length payload))) eqn:O.
  - assert (S1 : fseek_cur (advance (advance (advance f 4) 4)
                                    (Z.of_nat (length payload))) 1
                 = advance (advance (advance (advance f 4) 4)
                                    (Z.of_nat (length payload))) 1).
    { exact (fseek_cur_cursor _ _ [x00] _ C L). }
    rewrite (bind_seek_cur _ _ _ _ _ S1).
    rewrite !advance_advance.
    replace (4 + (4 + (Z.of_nat (length payload) + 1)))
      with (8 + Z.of_nat (length payload) + 1) by lia.
    reflexivity.
  - unfold bind at 1, ret at 1.
    rewrite !advance_advance.
    replace (4 + (4 + Z.of_nat (length payload)))
      with (8 + Z.of_nat (length payload) + 0) by lia.
    reflexivity.
Qed.

(** The video reader delivers the chunk at the cursor when it accepts
    its tag. *)
Lemma read_video_loop_take fuel frame p f pre tag payload rest :
  file p = Some f ->
  cursor_at f pre (riff_chunk tag payload ++ rest) ->
  Z.of_nat (length (fdata f)) <= LONG_MAX ->
  0 <= tag < 2^32 ->
  is_video_chunk tag = true ->
  malloc_ok (Z.of_nat (length payload)) = true ->
  read_video_loop malloc_ok (S fuel) frame p
  = Some ((ESP_OK,
           mk_frame (Block payload) (Z.of_nat (length payload))
                    (current_frame p)
                    (frame_timestamp_ms (current_frame p)
                       (micro_sec_per_frame (main_header p)))),
          set_current_frame
            (set_file p
               (Some (advance f (Z.of_nat (length (riff_chunk tag payload))))))
            (u32 (current_frame p + 1))).
Proof.
  intros Hf C L Rt Hv Hm.
  pose proof C as (D & P & E).
  assert (Ls : 0 <= Z.of_nat (length payload) < 2^31).
  { rewrite D, riff_chunk_layout, !length_app in L.
    unfold LONG_MAX in L. lia. }
  rewrite <- (set_file_id p f Hf) at 1.
  rewrite read_video_loop_eq.
  rewrite bind_at_eof. rewrite E.
  rewrite riff_chunk_layout, <- !app_assoc in C.
  rewrite (bind_rd_fourcc _ _ f tag (advance f 4)
             (read_le32_cursor f pre tag _ Rt C)).
  apply (cursor_advance f pre (le32_bytes tag)) in C.
  rewrite length_le32_bytes in C. change (Z.of_nat 4) with 4 in C.
  rewrite bind_at_eof. cbn [feof advance]. fold (advance f 4).
  assert (Rs : 0 <= Z.of_nat (length payload) < 2^32) by lia.
  rewrite (bind_rd_le32 _ _ (advance f 4) (Z.of_nat (length payload))
             (advance (advance f 4) 4)
             (read_le32_cursor _ _ _ _ Rs C)).
  apply (cursor_advance _ _ (le32_bytes (Z.of_nat (length payload)))) in C.
  rewrite length_le32_bytes in C. change (Z.of_nat 4) with 4 in C.
  rewrite Hv, Hm. cbn [negb].
  rewrite (bind_rd_bytes _ _ _ (advance (advance f 4) 4) payload
             (advance (advance (advance f 4) 4) (Z.of_nat (length payload)))
             (fread_cursor _ _ payload _ C)).
  rewrite Z.eqb_refl. cbn [negb].
  apply (cursor_advance _ _ payload) in C.
  rewrite length_riff_chunk.
  unfold bind at 1, get at 1. unfold bind at 1, get at 1.
  unfold bind at 1, modify at 1.
  cbn [current_frame main_header set_file].
  destruct (is_odd (Z.of_nat (length payload))) eqn:O.
  - assert (S1 : fseek_cur (advance (advance (advance f 4) 4)
                                    (Z.of_nat (length payload))) 1
                 = advance (advance (advance (advance f 4) 4)
                                    (Z.of_nat (length payload))) 1).
    { exact (fseek_cur_cursor _ _ [x00] _ C L). }
    unfold bind, seek_cur, on_file, ret.
    cbn [file set_file set_current_frame]. rewrite S1.
    rewrite !advance_advance.
    replace (4 + (4 + Z.of_nat (length payload)) + 1)
      with (8 + Z.of_nat (length payload) + 1) by lia.
    reflexivity.
  - unfold bind, ret.
    rewrite !advance_advance.
    replace (4 + (4 + Z.of_nat (length payload)))
      with (8 + Z.of_nat (length payload) + 0) by lia.
    reflexivity.
Qed.

(** The reader passes over the chunks it does not accept and delivers
    the first one it accepts. *)
Lemma read_video_loop_chunks tag payload rest :
  forall skipped fuel frame p f pre,
    file p = Some f ->
    cursor_at f pre (chunks_bytes skipped ++ riff_chunk tag payload ++ rest) ->
    Z.of_nat (length (fdata f)) <= LONG_MAX ->
    tags_in_range skipped ->
    Forall (fun c => is_video_chunk (fst c) = false) skipped ->
    0 <= tag < 2^32 ->
    is_video_chunk tag = true ->
    malloc_ok (Z.of_nat (length payload)) = true ->
    (length skipped < fuel)%nat ->
    read_video_loop malloc_ok fuel frame p
    = Some ((ESP_OK,
             mk_frame (Block payload) (Z.of_nat (length payload))
                      (current_frame p)
                      (frame_timestamp_ms (current_frame p)
                         (micro_sec_per_frame (main_header p)))),
            set_current_frame
              (set_file p
                 (Some (advance f
                          (Z.of_nat (length (chunks_bytes skipped
                                             ++ riff_chunk tag payload))))))
              (u32 (current_frame p + 1))).
Proof.
  induction skipped as [|[t d] skipped IH];
    intros fuel frame p f pre Hf C L Rg Nv Rt Hv Hm Hfuel.
  - destruct fuel as [|fuel]; [cbn in Hfuel; lia|].
    cbn [chunks_bytes flat_map app] in C |- *.
    apply (read_video_loop_take fuel frame p f pre tag payload rest);
      assumption.
  - destruct fuel as [|fuel]; [cbn in Hfuel; lia|].
    cbn [length] in Hfuel.
    inversion Rg as [|? ? Rt1 Rg']; subst.
    inversion Nv as [|? ? Nv1 Nv']; subst.
    cbn [fst] in Rt1, Nv1.
    cbn [chunks_bytes flat_map fst snd] in C |- *.
    fold (chunks_bytes skipped) in C |- *.
    rewrite <- app_assoc in C.
    rewrite (read_video_loop_skip fuel frame p f pre t d _ Hf C L Rt1 Nv1).
    apply (cursor_advance f pre (riff_chunk t d)) in C.
    rewrite (IH fuel frame
               (set_file p
                  (Some (advance f (Z.of_nat (length (riff_chunk t d))))))
               (advance f (Z.of_nat (length (riff_chunk t d))))
               (pre ++ riff_chunk t d) eq_refl C L Rg' Nv' Rt Hv Hm
               ltac:(lia)).
    cbn [current_frame main_header set_file].
    rewrite advance_advance.
    rewrite <- app_assoc, (length_app (riff_chunk t d)), Nat2Z.inj_add.
    reflexivity.
Qed.

(** A read in front of laid-out chunks. *)
Lemma read_video_frame_next_chunk_aux :
  forall fuel p f fr pre skipped tag payload rest,
    initialized p = true ->
    file p = Some f ->
    cursor_at f pre (chunks_bytes skipped ++ riff_chunk tag payload ++ rest) ->
    Z.of_nat (length (fdata f)) <= LONG_MAX ->
    tags_in_range skipped ->
    Forall (fun c => is_video_chunk (fst c) = false) skipped ->
    0 <= tag < 2^32 ->
    is_video_chunk tag = true ->
    malloc_ok (Z.of_nat (length payload)) = true ->
    (length skipped < fuel)%nat ->
    exists p' f',
      avi_parser_read_video_frame malloc_ok fuel (Some p) (Some fr)
      = Some (ESP_OK, Some p',
              Some (mk_frame (Block payload) (Z.of_nat (length payload))
                      (current_frame p)
                      (frame_timestamp_ms (current_frame p)
                         (micro_sec_per_frame (main_header p))))) /\
      file p' = Some f' /\
      fpath f' = fpath f /\
      cursor_at f' (pre ++ chunks_bytes skipped ++ riff_chunk tag payload) rest /\
      current_frame p' = u32 (current_frame p + 1) /\
      header_view p' = header_view p.
Proof.
  intros fuel p f fr pre skipped tag payload rest
         Hi Hf C L Rg Nv Rt Hv Hm Hfuel.
  unfold avi_parser_read_video_frame. rewrite Hi. cbn [negb].
  rewrite (read_video_loop_chunks tag payload rest skipped fuel fr p f pre
             Hf C L Rg Nv Rt Hv Hm Hfuel).
  eexists. eexists. split; [reflexivity|].
  split; [reflexivity|]. split; [reflexivity|].
  split.
  { rewrite app_assoc in C.
    apply (cursor_advance f pre (chunks_bytes skipped ++ riff_chunk tag payload))
      in C. exact C. }
  split; reflexivity.
Qed.

Lemma chunks_bytes_app a b :
  chunks_bytes (a ++ b) = chunks_bytes a ++ chunks_bytes b.
Proof. unfold chunks_bytes. apply flat_map_app. Qed.

Lemma video_payloads_split cs d ds :
  video_payloads cs = d :: ds ->
  exists skipped tag rest,
    cs = skipped ++ (tag, d) :: rest /\
    Forall (fun c => is_video_chunk (fst c) = false) skipped /\
    is_video_chunk tag = true /\
    video_payloads rest = ds.
Proof.
  induction cs as [|[t x] cs IH]; intros H; [discriminate|].
  unfold video_payloads in H. cbn [filter fst] in H.
  destruct (is_video_chunk t) eqn:V.
  - cbn [map snd] in H. inversion H; subst.
    exists [], t, cs. repeat split; auto.
  - apply IH in H. destruct H as (sk & tag & rest & -> & F & Hv & R).
    exists ((t, x) :: sk), tag, rest. repeat split; auto.
Qed.

Lemma length_chunks_bytes cs :
  (length cs <= length (chunks_bytes cs))%nat.
Proof.
  induction cs as [|[t d] cs IH]; [apply Nat.le_refl|].
  cbn [chunks_bytes flat_map length fst snd]. fold (chunks_bytes cs).
  rewrite length_app.
  pose proof (length_riff_chunk t d) as Hl.
  destruct (is_odd (Z.of_nat (length d))); lia.
Qed.

Lemma length_video_payloads cs :
  (length (video_payloads cs) <= length cs)%nat.
Proof.
  unfold video_payloads. rewrite length_map. apply filter_length_le.
Qed.

(** The skipping loop of the seek, over a laid-out payload region. *)
Lemma seek_loop_chunks fuel target post :
  forall k cs p f pre,
    initialized p = true ->
    file p = Some f ->
    cursor_at f pre (chunks_bytes cs ++ post) ->
    Z.of_nat (length (fdata f)) <= LONG_MAX ->
    tags_in_range cs ->
    (forall d, In d (video_payloads cs) ->
               malloc_ok (Z.of_nat (length d)) = true) ->
    (length cs < fuel)%nat ->
    (k <= length (video_payloads cs))%nat ->
    0 <= current_frame p ->
    current_frame p + Z.of_nat k = target ->
    target < 2^32 ->
    exists done todo p' f',
      cs = done ++ todo /\
      video_payloads todo = skipn k (video_payloads cs) /\
      seek_loop malloc_ok k fuel target p = Some (ESP_OK, p') /\
      file p' = Some f' /\
      fdata f' = fdata f /\
      cursor_at f' (pre ++ chunks_bytes done) (chunks_bytes todo ++ post) /\
      current_frame p' = target /\
      header_view p' = header_view p.
Proof.
  induction k as [|k IH];
    intros cs p f pre Hi Hf C L Rg Hm Hfuel Hk H0 Ht Hr.
  - exists [], cs, p, f. cbn [seek_loop app chunks_bytes flat_map skipn].
    assert (E : (current_frame p <? target) = false) by (apply Z.ltb_ge; lia).
    rewrite E, app_nil_r.
    repeat split; auto; try apply C. lia.
  - destruct (video_payloads cs) as [|d ds] eqn:Vp; [cbn in Hk; lia|].
    destruct (video_payloads_split cs d ds Vp)
      as (sk & tag & rest & -> & Nv & Hv & Vr).
    assert (Rsk : tags_in_range sk /\ 0 <= tag < 2^32 /\ tags_in_range rest).
    { unfold tags_in_range in *. apply Forall_app in Rg.
      destruct Rg as (R1 & R2). inversion R2; subst. auto. }
    destruct Rsk as (Rsk & Rt & Rrest).
    rewrite length_app in Hfuel. cbn [length] in Hfuel.
    assert (C1 : cursor_at f pre
                   (chunks_bytes sk ++ riff_chunk tag d
                    ++ (chunks_bytes rest ++ post))).
    { rewrite chunks_bytes_app in C.
      cbn [chunks_bytes flat_map fst snd] in C. fold (chunks_bytes rest) in C.
      rewrite <- !app_assoc in C. exact C. }
    cbn [seek_loop].
    assert (E : (current_frame p <? target) = true) by (apply Z.ltb_lt; lia).
    rewrite E.
    unfold avi_parser_read_video_frame. rewrite Hi. cbn [negb].
    rewrite (read_video_loop_chunks tag d _ sk fuel blank_frame p f pre
               Hf C1 L Rsk Nv Rt Hv
               (Hm d (or_introl eq_refl)) ltac:(lia)).
    set (n1 := Z.of_nat (length (chunks_bytes sk ++ riff_chunk tag d))).
    set (p1 := set_current_frame (set_file p (Some (advance f n1)))
                                 (u32 (current_frame p + 1))).
    assert (U : u32 (current_frame p + 1) = current_frame p + 1).
    { unfold u32. apply Z.mod_small. lia. }
    rewrite app_assoc in C1.
    apply (cursor_advance f pre (chunks_bytes sk ++ riff_chunk tag d)) in C1.
    fold n1 in C1.
    destruct (IH rest p1 (advance f n1)
                (pre ++ chunks_bytes sk ++ riff_chunk tag d))
      as (done & todo & p' & f' & Hcs & Hvp & Hs & Hf' & Hd & Hc & Hcur & Hv');
      try assumption; try reflexivity.
    + intros x Hx. apply Hm. right. rewrite <- Vr. exact Hx.
    + lia.
    + rewrite Vr. cbn [length] in Hk. lia.
    + subst p1. cbn [current_frame set_current_frame]. rewrite U. lia.
    + subst p1. cbn [current_frame set_current_frame]. rewrite U. lia.
    + exists (sk ++ (tag, d) :: done), todo, p', f'.
      split; [rewrite Hcs, <- app_assoc; reflexivity|].
      split; [cbn [skipn]; rewrite <- Vr; exact Hvp|].
      split; [exact Hs|]. split; [exact Hf'|]. split; [exact Hd|].
      split.
      { rewrite chunks_bytes_app.
        cbn [chunks_bytes flat_map fst snd]. fold (chunks_bytes done).
        rewrite <- !app_assoc in Hc. rewrite <- ?app_assoc. exact Hc. }
      split; [exact Hcur|]. rewrite Hv'. reflexivity.
Qed.

End ChunkSteps.

(** X14. With the cursor of an initialized handle in front of a run of
    chunks whose tags the video test rejects, followed by a chunk whose
    tag it accepts, avi_parser_read_video_frame returns ESP_OK with a
    frame that holds exactly the data of that chunk; the rejected
    chunks are passed over, the cursor ends behind the accepted chunk
    and its pad byte, and the frame counter has advanced by one.  (The
    file does not exceed LONG_MAX bytes, the allocation is granted and
    the iteration budget covers the chunks passed over.) *)
Theorem read_video_frame_next_chunk :
  forall malloc_ok fuel p f fr pre skipped tag payload rest,
    initialized p = true ->
    file p = Some f ->
    cursor_at f pre (chunks_bytes skipped ++ riff_chunk tag payload ++ rest) ->
    Z.of_nat (length (fdata f)) <= LONG_MAX ->
    tags_in_range skipped ->
    Forall (fun c => is_video_chunk (fst c) = false) skipped ->
    0 <= tag < 2^32 ->
    is_video_chunk tag = true ->
    malloc_ok (Z.of_nat (length payload)) = true ->
    (length skipped < fuel)%nat ->
    exists p' f',
      avi_parser_read_video_frame malloc_ok fuel (Some p) (Some fr)
      = Some (ESP_OK, Some p',
              Some (mk_frame (Block payload) (Z.of_nat (length payload))
                      (current_frame p)
                      (frame_timestamp_ms (current_frame p)
                         (micro_sec_per_frame (main_header p))))) /\
      file p' = Some f' /\
      fpath f' = fpath f /\
      cursor_at f' (pre ++ chunks_bytes skipped ++ riff_chunk tag payload) rest /\
      current_frame p' = u32 (current_frame p + 1) /\
      header_view p' = header_view p.
Proof. exact read_video_frame_next_chunk_aux. Qed.


Lemma skipn_nth_error {A} (l : list A) : forall n x,
  nth_error l n = Some x -> skipn n l = x :: skipn (S n) l.
Proof.
  induction l as [|a l IH]; intros [|n] x H; try discriminate.
  - inversion H; subst. reflexivity.
  - cbn [nth_error] in H. apply IH in H. exact H.
Qed.

Lemma tags_in_range_app a b :
  tags_in_range (a ++ b) -> tags_in_range a /\ tags_in_range b.
Proof. unfold tags_in_range. apply Forall_app. Qed.

Lemma video_payloads_app a b :
  video_payloads (a ++ b) = video_payloads a ++ video_payloads b.
Proof. unfold video_payloads. rewrite filter_app, map_app. reflexivity. Qed.

(** What [avi_parser_seek] followed by a read does on a laid-out payload
    region. *)
Lemma seek_then_read_chunks malloc_ok fuel p f pre cs post n payload fr :
  initialized p = true ->
  file p = Some f ->
  fdata f = pre ++ chunks_bytes cs ++ post ->
  movi_offset p = Z.of_nat (length pre) ->
  Z.of_nat (length (fdata f)) <= LONG_MAX ->
  tags_in_range cs ->
  (forall d, In d (video_payloads cs) ->
             malloc_ok (Z.of_nat (length d)) = true) ->
  (length cs < fuel)%nat ->
  nth_error (video_payloads cs) n = Some payload ->
  exists p1 p2,
    avi_parser_seek malloc_ok fuel (Some p) (Z.of_nat n)
      = Some (ESP_OK, Some p1) /\
    current_frame p1 = Z.of_nat n /\
    avi_parser_read_video_frame malloc_ok fuel (Some p1) (Some fr)
      = Some (ESP_OK, Some p2,
              Some (mk_frame (Block payload) (Z.of_nat (length payload))
                      (Z.of_nat n)
                      (frame_timestamp_ms (Z.of_nat n)
                         (micro_sec_per_frame (main_header p))))) /\
    current_frame p2 = Z.of_nat n + 1 /\
    header_view p2 = header_view p.
Proof.
  intros Hi Hf D Mo L Rg Hm Hfuel Hn.
  assert (Bn : (n < length (video_payloads cs))%nat).
  { apply nth_error_Some. rewrite Hn. discriminate. }
  assert (Bcs : Z.of_nat (length cs) <= LONG_MAX).
  { pose proof (length_chunks_bytes cs) as B1.
    rewrite D, !length_app in L. lia. }
  pose proof (length_video_payloads cs) as Bv.
  assert (Pre : 0 <= Z.of_nat (length pre) <= LONG_MAX).
  { rewrite D, !length_app in L. lia. }
  unfold avi_parser_seek. rewrite Hi. cbn [negb].
  unfold seek_set, on_file. rewrite Hf.
  rewrite Mo, to_long_small by (unfold LONG_MAX in Pre; lia).
  unfold fseek_set.
  assert (B : (0 <=? Z.of_nat (length pre))
              && (Z.of_nat (length pre) <=? LONG_MAX) = true).
  { apply andb_true_iff. split; apply Z.leb_le; lia. }
  rewrite B. rewrite Nat2Z.id.
  set (f0 := mkFILE (fpath f) (fdata f) (Z.of_nat (length pre)) false).
  set (p0 := set_current_frame (set_file p (Some f0)) 0).
  assert (C0 : cursor_at f0 pre (chunks_bytes cs ++ post)).
  { unfold cursor_at, f0. cbn [fdata fpos feof]. auto. }
  destruct (seek_loop_chunks malloc_ok fuel (Z.of_nat n) post n cs p0 f0 pre)
    as (done & todo & p1 & f1 & Hcs & Hvp & Hs & Hf1 & Hd1 & C1 & Hc1 & Hv1);
    try assumption; try reflexivity; try lia.
  { unfold LONG_MAX in Bcs. lia. }
  rewrite Hs.
  rewrite (skipn_nth_error _ _ _ Hn) in Hvp.
  destruct (video_payloads_split todo payload _ Hvp)
    as (sk & tag & rest & -> & Nv & Hv & Vr).
  subst cs.
  apply tags_in_range_app in Rg. destruct Rg as (_ & Rg).
  apply tags_in_range_app in Rg. destruct Rg as (Rsk & Rg).
  assert (Rt : 0 <= tag < 2^32).
  { unfold tags_in_range in Rg. inversion Rg; subst. assumption. }
  assert (I1 : initialized p1 = true /\ main_header p1 = main_header p).
  { assert (Hv1' : header_view p1 = header_view p)
      by (rewrite Hv1; reflexivity).
    unfold header_view in Hv1'. inversion Hv1'. split; [congruence|].
    reflexivity. }
  destruct I1 as (I1 & M1).
  rewrite chunks_bytes_app in C1.
  cbn [chunks_bytes flat_map fst snd] in C1. fold (chunks_bytes rest) in C1.
  rewrite <- !app_assoc in C1.
  rewrite !length_app in Hfuel. cbn [length] in Hfuel.
  destruct (read_video_frame_next_chunk_aux malloc_ok fuel p1 f1 fr
              (pre ++ chunks_bytes done) sk tag payload
              (chunks_bytes rest ++ post))
    as (p2 & f2 & Hr & _ & _ & _ & Hc2 & Hv2); try assumption.
  - rewrite Hd1. exact L.
  - apply Hm. rewrite !video_payloads_app. apply in_or_app. right.
    apply in_or_app. right. unfold video_payloads. cbn [filter fst].
    rewrite Hv. left. reflexivity.
  - lia.
  - exists p1, p2.
    split; [reflexivity|]. split; [exact Hc1|].
    rewrite Hc1, M1 in Hr. split; [exact Hr|].
    split.
    + rewrite Hc2, Hc1. unfold u32. apply Z.mod_small.
      unfold LONG_MAX in Bcs. lia.
    + rewrite Hv2, Hv1. reflexivity.
Qed.

(** X15. On a container whose payload region is a sequence of chunks
    laid out one after the other at the recorded offset,
    avi_parser_seek to [n] followed by avi_parser_read_video_frame
    returns ESP_OK twice and delivers the data of the chunk number [n]
    (counting from 0) among those whose tag the video test accepts,
    with index [n]; the counter is then [n + 1].  (The file does not
    exceed LONG_MAX bytes, allocations are granted and the iteration
    budget covers the chunks.) *)
Theorem seek_then_read_nth_frame :
  forall malloc_ok fuel p f pre cs post n payload fr,
    initialized p = true ->
    file p = Some f ->
    fdata f = pre ++ chunks_bytes cs ++ post ->
    movi_offset p = Z.of_nat (length pre) ->
    Z.of_nat (length (fdata f)) <= LONG_MAX ->
    tags_in_range cs ->
    (forall d, In d (video_payloads cs) ->
               malloc_ok (Z.of_nat (length d)) = true) ->
    (length cs < fuel)%nat ->
    nth_error (video_payloads cs) n = Some payload ->
    exists p1 p2,
      avi_parser_seek malloc_ok fuel (Some p) (Z.of_nat n)
        = Some (ESP_OK, Some p1) /\
      current_frame p1 = Z.of_nat n /\
      avi_parser_read_video_frame malloc_ok fuel (Some p1) (Some fr)
        = Some (ESP_OK, Some p2,
                Some (mk_frame (Block payload) (Z.of_nat (length payload))
                        (Z.of_nat n)
                        (frame_timestamp_ms (Z.of_nat n)
                           (micro_sec_per_frame (main_header p))))) /\
      current_frame p2 = Z.of_nat n + 1 /\
      header_view p2 = header_view p.
Proof. exact seek_then_read_chunks. Qed.

Lemma read_video_frame_next_chunk_witness :
  exists p' f',
    avi_parser_read_video_frame always_grant demo_fuel
      (Some (parser_after_read demo_parser)) (Some blank_frame)
    = Some (ESP_OK, Some p',
            Some (mk_frame (Block (bytes_of [0xFF; 0xD8; 2; 2; 0xFF; 0xD9]))
                    (Z.of_nat (length (bytes_of [0xFF; 0xD8; 2; 2; 0xFF; 0xD9])))
                    (current_frame (parser_after_read demo_parser))
                    (frame_timestamp_ms
                       (current_frame (parser_after_read demo_parser))
                       (micro_sec_per_frame
                          (main_header (parser_after_read demo_parser)))))) /\
    file p' = Some f' /\
    fpath f' = fpath (stream_of (parser_after_read demo_parser)) /\
    cursor_at f'
      ((demo_prefix ++ demo_first_chunk)
       ++ chunks_bytes [(TAG_WB01, bytes_of [1; 2; 3; 4; 5; 6; 7])]
       ++ riff_chunk TAG_DC00 (bytes_of [0xFF; 0xD8; 2; 2; 0xFF; 0xD9]))
      (chunks_bytes (skipn 3 demo_chunks)) /\
    current_frame p' = u32 (current_frame (parser_after_read demo_parser) + 1) /\
    header_view p' = header_view (parser_after_read demo_parser).
Proof.
  apply (read_video_frame_next_chunk always_grant demo_fuel
           (parser_after_read demo_parser)
           (stream_of (parser_after_read demo_parser)) blank_frame
           (demo_prefix ++ demo_first_chunk)
           [(TAG_WB01, bytes_of [1; 2; 3; 4; 5; 6; 7])]
           TAG_DC00 (bytes_of [0xFF; 0xD8; 2; 2; 0xFF; 0xD9])
           (chunks_bytes (skipn 3 demo_chunks))).
  - vm_compute. reflexivity.
  - vm_compute. reflexivity.
  - unfold cursor_at. split; [|split]; vm_compute; reflexivity.
  - vm_compute. intros C. discriminate C.
  - constructor; [|constructor]. cbn [fst]. unfold TAG_WB01. lia.
  - constructor; [|constructor]. vm_compute. reflexivity.
  - unfold TAG_DC00. lia.
  - vm_compute. reflexivity.
  - reflexivity.
  - vm_compute. lia.
Defined.

Lemma seek_then_read_nth_frame_witness :
  exists p1 p2,
    avi_parser_seek always_grant demo_fuel (Some demo_parser) (Z.of_nat 2)
      = Some (ESP_OK, Some p1) /\
    current_frame p1 = Z.of_nat 2 /\
    avi_parser_read_video_frame always_grant demo_fuel (Some p1)
      (Some blank_frame)
      = Some (ESP_OK, Some p2,
              Some (mk_frame (Block (bytes_of [0xFF; 0xD8; 3; 0xFF; 0xD9]))
                      (Z.of_nat (length (bytes_of [0xFF; 0xD8; 3; 0xFF; 0xD9])))
                      (Z.of_nat 2)
                      (frame_timestamp_ms (Z.of_nat 2)
                         (micro_sec_per_frame (main_header demo_parser))))) /\
    current_frame p2 = Z.of_nat 2 + 1 /\
    header_view p2 = header_view demo_parser.
Proof.
  apply (seek_then_read_nth_frame always_grant demo_fuel demo_parser
           (stream_of demo_parser) demo_prefix demo_chunks [] 2
           (bytes_of [0xFF; 0xD8; 3; 0xFF; 0xD9]) blank_frame).
  - vm_compute. reflexivity.
  - vm_compute. reflexivity.
  - vm_compute. reflexivity.
  - vm_compute. reflexivity.
  - vm_compute. intros C. discriminate C.
  - repeat constructor; cbn [fst]; unfold TAG_DC00, TAG_WB01; lia.
  - intros d _. reflexivity.
  - vm_compute. lia.
  - vm_compute. reflexivity.
Defined.

(* ------------------------------------------------------------------ *)
(** ** Scans over a laid-out payload come to an end

    On a stream that holds nothing but chunks from the cursor to the
    end of the file, every skip goes forward, so the scanning loops of
    the two readers and of the seek return. *)

Lemma fread_at_end f pre n :
  cursor_at f pre [] -> 0 < n ->
  fread f n = ([], mkFILE (fpath f) (fdata f) (fpos f + 0) true).
Proof.
  intros C Hn. unfold fread. rewrite (skipn_cursor _ _ _ C).
  rewrite firstn_nil. cbn [length Z.of_nat].
  destruct C as (_ & _ & E). rewrite E. cbn [orb].
  assert (L : (0 <? n) = true) by (apply Z.ltb_lt; exact Hn).
  rewrite L. reflexivity.
Qed.

Lemma read_le32_at_end f pre :
  cursor_at f pre [] ->
  read_le32 f = (0, mkFILE (fpath f) (fdata f) (fpos f + 0) true).
Proof.
  intros C. unfold read_le32. rewrite (fread_at_end f pre 4 C) by lia.
  reflexivity.
Qed.

Section ScansReturn.

Variable malloc_ok : Z -> bool.






End ScansReturn.

(** The audio reader passes over a chunk whose tag it does not accept. *)
Lemma read_audio_loop_skip fuel buffer max_size bytes_read p f pre tag payload
      rest :
  file p = Some f ->
  cursor_at f pre (riff_chunk tag payload ++ rest) ->
  Z.of_nat (length (fdata f)) <= LONG_MAX ->
  0 <= tag < 2^32 ->
  is_audio_chunk tag = false ->
  read_audio_loop (S fuel) buffer max_size bytes_read p
  = read_audio_loop fuel buffer max_size bytes_read
      (set_file p (Some (advance f (Z.of_nat (length (riff_chunk tag payload)))))).
Proof.
  intros Hf C L Rt Hv.
  pose proof C as (D & P & E).
  assert (Ls : 0 <= Z.of_nat (length payload) < 2^31).
  { rewrite D, riff_chunk_layout, !length_app in L.
    unfold LONG_MAX in L. lia. }
  rewrite <- (set_file_id p f Hf) at 1.
  rewrite read_audio_loop_eq.
  rewrite bind_at_eof. rewrite E.
  rewrite riff_chunk_layout, <- !app_assoc in C.
  rewrite (bind_rd_fourcc _ _ f tag (advance f 4)
             (read_le32_cursor f pre tag _ Rt C)).
  apply (cursor_advance f pre (le32_bytes tag)) in C.
  rewrite length_le32_bytes in C. change (Z.of_nat 4) with 4 in C.
  rewrite bind_at_eof. cbn [feof advance]. fold (advance f 4).
  assert (Rs : 0 <= Z.of_nat (length payload) < 2^32) by lia.
  rewrite (bind_rd_le32 _ _ (advance f 4) (Z.of_nat (length payload))
             (advance (advance f 4) 4)
             (read_le32_cursor _ _ _ _ Rs C)).
  apply (cursor_advance _ _ (le32_bytes (Z.of_nat (length payload)))) in C.
  rewrite length_le32_bytes in C. change (Z.of_nat 4) with 4 in C.
  rewrite Hv.
  rewrite to_long_small by lia.
  assert (L' : Z.of_nat (length (fdata (advance (advance f 4) 4))) <= LONG_MAX)
    by exact L.
  rewrite (bind_seek_cur _ _ _ (advance (advance f 4) 4)
             (advance (advance (advance f 4) 4) (Z.of_nat (length payload)))
             (fseek_cur_cursor _ _ payload _ C L')).
  apply (cursor_advance _ _ payload) in C.
  rewrite length_riff_chunk.
  destruct (is_odd (Z.of_nat (length payload))) eqn:O.
  - assert (S1 : fseek_cur (advance (advance (advance f 4) 4)
                                    (Z.of_nat (length payload))) 1
                 = advance (advance (advance (advance f 4) 4)
                                    (Z.of_nat (length payload))) 1).
    { exact (fseek_cur_cursor _ _ [x00] _ C L). }
    rewrite (bind_seek_cur _ _ _ _ _ S1).
    rewrite !advance_advance.
    replace (4 + (4 + (Z.of_nat (length payload) + 1)))
      with (8 + Z.of_nat (length payload) + 1) by lia.
    reflexivity.
  - unfold bind at 1, ret at 1.
    rewrite !advance_advance.
    replace (4 + (4 + Z.of_nat (length payload)))
      with (8 + Z.of_nat (length payload) + 0) by lia.
    reflexivity.
Qed.

(** At the end of the file the audio reader finds nothing and leaves
    the caller's memory alone. *)
Lemma read_audio_loop_end fuel buffer max_size bytes_read p f pre :
  file p = Some f ->
  cursor_at f pre [] ->
  exists p',
    read_audio_loop (S fuel) buffer max_size bytes_read p
    = Some ((ESP_ERR_NOT_FOUND, buffer, bytes_read), p').
Proof.
  intros Hf C. pose proof C as (_ & _ & E).
  rewrite <- (set_file_id p f Hf).
  rewrite read_audio_loop_eq, bind_at_eof, E.
  rewrite (bind_rd_fourcc _ _ f 0 _ (read_le32_at_end f pre C)).
  rewrite bind_at_eof. cbn [feof].
  eexists. reflexivity.
Qed.

(** A chunk the audio reader accepts is delivered. *)
Lemma read_audio_loop_take_ok fuel buffer max_size bytes_read p f pre tag
      payload rest :
  file p = Some f ->
  cursor_at f pre (riff_chunk tag payload ++ rest) ->
  Z.of_nat (length (fdata f)) <= LONG_MAX ->
  0 <= tag < 2^32 ->
  is_audio_chunk tag = true ->
  exists buf' br' p',
    read_audio_loop (S fuel) buffer max_size bytes_read p
    = Some ((ESP_OK, buf', br'), p').
Proof.
  intros Hf C L Rt Hv.
  pose proof C as (D & P & E).
  assert (Ls : 0 <= Z.of_nat (length payload) < 2^31).
  { rewrite D, riff_chunk_layout, !length_app in L.
    unfold LONG_MAX in L. lia. }
  rewrite <- (set_file_id p f Hf).
  rewrite read_audio_loop_eq, bind_at_eof, E.
  rewrite riff_chunk_layout, <- !app_assoc in C.
  rewrite (bind_rd_fourcc _ _ f tag (advance f 4)
             (read_le32_cursor f pre tag _ Rt C)).
  apply (cursor_advance f pre (le32_bytes tag)) in C.
  rewrite length_le32_bytes in C. change (Z.of_nat 4) with 4 in C.
  rewrite bind_at_eof. cbn [feof advance]. fold (advance f 4).
  assert (Rs : 0 <= Z.of_nat (length payload) < 2^32) by lia.
  rewrite (bind_rd_le32 _ _ (advance f 4) (Z.of_nat (length payload))
             (advance (advance f 4) 4)
             (read_le32_cursor _ _ _ _ Rs C)).
  rewrite Hv. cbv zeta.
  unfold bind, rd_bytes, seek_cur, on_file, ret. cbn [file set_file].
  destruct (fread _ _) as [data f3].
  destruct (max_size <? Z.of_nat (length payload));
    destruct (is_odd (Z.of_nat (length payload)));
    cbn [file set_file]; eexists; eexists; eexists; reflexivity.
Qed.

(** The audio reader returns, with ESP_OK exactly when a chunk ahead
    carries a tag it accepts. *)
Lemma read_audio_loop_returns :
  forall cs fuel buffer max_size bytes_read p f pre,
    file p = Some f ->
    cursor_at f pre (chunks_bytes cs) ->
    Z.of_nat (length (fdata f)) <= LONG_MAX ->
    tags_in_range cs ->
    (length cs < fuel)%nat ->
    exists r buf' br' p',
      read_audio_loop fuel buffer max_size bytes_read p
      = Some ((r, buf', br'), p') /\
      (r = ESP_OK <-> Exists (fun c => is_audio_chunk (fst c) = true) cs).
Proof.
  induction cs as [|[t d] cs IH];
    intros fuel buffer max_size bytes_read p f pre Hf C L Rg Hfuel.
  - destruct fuel as [|fuel]; [cbn in Hfuel; lia|].
    destruct (read_audio_loop_end fuel buffer max_size bytes_read p f pre Hf C)
      as (p' & R).
    exists ESP_ERR_NOT_FOUND, buffer, bytes_read, p'. split; [exact R|].
    split; [intros K; discriminate K | intros K; inversion K].
  - destruct fuel as [|fuel]; [cbn in Hfuel; lia|].
    cbn [length] in Hfuel.
    inversion Rg as [|? ? Rt Rg']; subst. cbn [fst] in Rt.
    cbn [chunks_bytes flat_map fst snd] in C. fold (chunks_bytes cs) in C.
    destruct (is_audio_chunk t) eqn:V.
    + destruct (read_audio_loop_take_ok fuel buffer max_size bytes_read p f
                  pre t d _ Hf C L Rt V) as (buf' & br' & p' & R).
      exists ESP_OK, buf', br', p'. split; [exact R|].
      split; [intros _; left; exact V | reflexivity].
    + rewrite (read_audio_loop_skip fuel buffer max_size bytes_read p f pre
                 t d _ Hf C L Rt V).
      apply (cursor_advance f pre (riff_chunk t d)) in C.
      destruct (IH fuel buffer max_size bytes_read
                  (set_file p
                     (Some (advance f (Z.of_nat (length (riff_chunk t d))))))
                  (advance f (Z.of_nat (length (riff_chunk t d))))
                  (pre ++ riff_chunk t d) eq_refl C L Rg' ltac:(lia))
        as (r & buf' & br' & p' & R & Iff).
      exists r, buf', br', p'. split; [exact R|].
      rewrite Iff. split; [intros K; right; exact K|].
      intros K. inversion K as [? ? K1|? ? K1]; subst; [|exact K1].
      cbn [fst] in K1. congruence.
Qed.



(** X4. avi_parser_read_audio_chunk on an initialized handle changes
    nothing of the handle but the stream: the video frame counter and
    the header fields stay as they were.  A call that returns yields
    ESP_OK or ESP_ERR_NOT_FOUND, and when no audio chunk is found the
    caller's buffer and byte count are untouched.  With the cursor in
    front of a sequence of chunks that reaches to the end of the file
    (at most LONG_MAX bytes) the call does return, within an iteration
    budget above the number of chunks, and it returns ESP_OK exactly
    when one of the chunks carries a tag the audio test accepts.
    Nothing is stated about the end of the scan on other files. *)
Theorem read_audio_chunk_contract :
  forall fuel p buffer max_size bytes_read,
    initialized p = true ->
    (forall r p' buf' br',
        avi_parser_read_audio_chunk fuel (Some p) (Some buffer) max_size
          bytes_read
        = Some (r, Some p', Some buf', br') ->
        header_view p' = header_view p /\
        current_frame p' = current_frame p /\
        (r = ESP_OK \/ r = ESP_ERR_NOT_FOUND) /\
        (r = ESP_ERR_NOT_FOUND -> buf' = buffer /\ br' = bytes_read)) /\
    (forall f pre cs,
        file p = Some f ->
        cursor_at f pre (chunks_bytes cs) ->
        Z.of_nat (length (fdata f)) <= LONG_MAX ->
        tags_in_range cs ->
        (length cs < fuel)%nat ->
        exists r p' buf' br',
          avi_parser_read_audio_chunk fuel (Some p) (Some buffer) max_size
            bytes_read
          = Some (r, Some p', Some buf', br') /\
          (r = ESP_OK <->
           Exists (fun c => is_audio_chunk (fst c) = true) cs)).
Proof.
  intros fuel p buffer max_size bytes_read Hi. split.
  - intros r p' buf' br' H.
    exact (read_audio_chunk_outcome fuel p buffer max_size bytes_read
             r p' buf' br' Hi H).
  - intros f pre cs Hf C L Rg Hfuel.
    destruct (read_audio_loop_returns cs fuel buffer max_size bytes_read
                p f pre Hf C L Rg Hfuel) as (r & buf' & br' & p' & R & Iff).
    exists r, p', buf', br'.
    unfold avi_parser_read_audio_chunk. rewrite Hi. cbn [negb].
    rewrite R. split; [reflexivity | exact Iff].
Qed.

Lemma read_audio_chunk_contract_witness :
  avi_parser_read_audio_chunk demo_fuel (Some demo_parser) (Some demo_buffer)
    4 (Some 0)
  = Some (ESP_OK, Some audio_demo_parser, Some audio_demo_buffer, Some 4)
  /\ current_frame audio_demo_parser = current_frame demo_parser
  /\ header_view audio_demo_parser = header_view demo_parser
  /\ exists r p' buf' br',
       avi_parser_read_audio_chunk demo_fuel (Some demo_parser)
         (Some demo_buffer) 4 (Some 0)
       = Some (r, Some p', Some buf', br') /\
       (r = ESP_OK <->
        Exists (fun c => is_audio_chunk (fst c) = true) demo_chunks).
Proof.
  split; [vm_compute; reflexivity|].
  destruct (read_audio_chunk_contract demo_fuel demo_parser demo_buffer 4
              (Some 0)) as (Out & Ret); [vm_compute; reflexivity|].
  destruct (Out ESP_OK audio_demo_parser audio_demo_buffer (Some 4))
    as (V & C & _); [vm_compute; reflexivity|].
  split; [exact C|]. split; [exact V|].
  apply (Ret (stream_of demo_parser) demo_prefix demo_chunks).
  - vm_compute. reflexivity.
  - unfold cursor_at. split; [|split]; vm_compute; reflexivity.
  - vm_compute. intros K. discriminate K.
  - repeat constructor; cbn [fst]; unfold TAG_DC00, TAG_WB01; lia.
  - vm_compute. lia.
Defined.




(** ** Chunk tags *)

(** X16. The video test accepts a tag exactly when its first two bytes
    in the file are 'd' 'c' or 'd' 'b', the audio test exactly when
    they are 'w' 'b'; the last two bytes play no part, and no tag is
    accepted by both tests. *)
Theorem chunk_tag_tests :
  forall b0 b1 b2 b3 : byte,
    (is_video_chunk (le32 b0 b1 b2 b3) = true <->
     byte_val b0 = 0x64 /\ (byte_val b1 = 0x63 \/ byte_val b1 = 0x62)) /\
    (is_audio_chunk (le32 b0 b1 b2 b3) = true <->
     byte_val b0 = 0x77 /\ byte_val b1 = 0x62) /\
    (is_video_chunk (le32 b0 b1 b2 b3)
     && is_audio_chunk (le32 b0 b1 b2 b3) = false).
Proof.
  intros b0 b1 b2 b3.
  unfold is_video_chunk, is_audio_chunk.
  change 0xFFFF with (Z.ones 16). rewrite Z.land_ones by lia.
  rewrite le32_sum.
  pose proof (byte_val_range b0) as R0. pose proof (byte_val_range b1) as R1.
  pose proof (byte_val_range b2) as R2. pose proof (byte_val_range b3) as R3.
  assert (E : (byte_val b0 + 256 * byte_val b1 + 65536 * byte_val b2
               + 16777216 * byte_val b3) mod 2^16
              = byte_val b0 + 256 * byte_val b1).
  { replace (byte_val b0 + 256 * byte_val b1 + 65536 * byte_val b2
             + 16777216 * byte_val b3)
      with (byte_val b0 + 256 * byte_val b1
            + (byte_val b2 + 256 * byte_val b3) * 2^16) by lia.
    rewrite Z.mod_add by lia. apply Z.mod_small. lia. }
  rewrite E.
  split; [rewrite orb_true_iff, !Z.eqb_eq; lia|].
  split; [rewrite Z.eqb_eq; lia|].
  destruct (byte_val b0 + 256 * byte_val b1 =? 0x6277) eqn:A;
    [|apply andb_false_r].
  apply Z.eqb_eq in A. rewrite A. reflexivity.
Qed.

(** ** The decode stage *)

(** X17. mjpeg_decoder_decode_frame on non-null arguments never changes
    the limits or the handle of the decoder.  When it returns ESP_OK
    the build has the JPEG component, the dimensions read from the
    frame header (as 16-bit values) are within the limits, they are
    stored through the non-null dimension pointers, the output is what
    the component left, and the decode time is the microsecond
    difference divided by 1000.  With any other result the decoder and
    both dimension cells are as before, and the output array is as
    before unless the component's decode step was reached.  In a build
    without the component the result is always ESP_ERR_NOT_SUPPORTED. *)
Theorem decode_frame_contract :
  forall (has : bool) get_info process d fr out ow oh t0 t1,
    let res := mjpeg_decoder_decode_frame has get_info process
                 (Some d) (Some fr) (Some out) ow oh t0 t1 in
    let r := fst (fst (fst (fst res))) in
    let w := u16 (fst (snd (get_info (fr_data fr) (fr_size fr)))) in
    let h := u16 (snd (snd (get_info (fr_data fr) (fr_size fr)))) in
    exists d' out',
      res = (r, Some d', Some out', snd (fst res), snd res) /\
      jpeg_handle d' = jpeg_handle d /\
      max_width d' = max_width d /\
      max_height d' = max_height d /\
      (r = ESP_OK ->
       has = true /\
       fst (get_info (fr_data fr) (fr_size fr)) = ESP_OK /\
       w <= max_width d /\ h <= max_height d /\
       process (jpeg_handle d) (fr_data fr) (fr_size fr) out = (ESP_OK, out') /\
       snd (fst res) = match ow with Some _ => Some w | None => None end /\
       snd res = match oh with Some _ => Some h | None => None end /\
       mjpeg_decoder_get_decode_time (Some d') = u32 (u64 (t1 - t0) / 1000)) /\
      (r <> ESP_OK ->
       d' = d /\ snd (fst res) = ow /\ snd res = oh /\
       (out' = out \/
        out' = snd (process (jpeg_handle d) (fr_data fr) (fr_size fr) out))) /\
      (has = false -> r = ESP_ERR_NOT_SUPPORTED /\ out' = out).
Proof.
  intros has get_info process d fr out ow oh t0 t1.
  cbv zeta. unfold mjpeg_decoder_decode_frame.
  destruct has.
  - destruct (get_info (fr_data fr) (fr_size fr)) as [r1 [hw hh]] eqn:G.
    cbn [fst snd].
    destruct (esp_err_is_ok r1) eqn:K1; cbn [negb].
    + assert (r1 = ESP_OK) by (destruct r1; try discriminate; reflexivity).
      subst r1.
      destruct ((max_width d <? u16 hw) || (max_height d <? u16 hh)) eqn:B.
      * exists d, out. cbn [fst snd].
        repeat split; try reflexivity; try discriminate; auto.
      * apply orb_false_iff in B. destruct B as (B1 & B2).
        apply Z.ltb_ge in B1, B2.
        destruct (process (jpeg_handle d) (fr_data fr) (fr_size fr) out)
          as [r2 out2] eqn:P.
        destruct (esp_err_is_ok r2) eqn:K2; cbn [negb].
        -- assert (r2 = ESP_OK) by (destruct r2; try discriminate; reflexivity).
           subst r2.
           eexists. exists out2. cbn [fst snd].
           split; [reflexivity|]. cbn [jpeg_handle max_width max_height].
           split; [reflexivity|]. split; [reflexivity|]. split; [reflexivity|].
           split; [|split]; [| |intros C; discriminate C].
           ++ intros _. repeat split; auto.
           ++ intros C. contradiction.
        -- exists d, out2. cbn [fst snd].
           split; [reflexivity|].
           split; [reflexivity|]. split; [reflexivity|]. split; [reflexivity|].
           split; [|split]; [| |intros C; discriminate C].
           ++ intros ->. discriminate K2.
           ++ intros _. repeat split; auto.
    + exists d, out. cbn [fst snd].
      split; [reflexivity|].
      split; [reflexivity|]. split; [reflexivity|]. split; [reflexivity|].
      split; [|split]; [| |intros C; discriminate C].
      * intros ->. discriminate K1.
      * intros _. repeat split; auto.
  - exists d, out. cbn [fst snd].
    repeat split; try reflexivity; try discriminate; auto.
Qed.

(** ** Volume scaling, sample by sample *)

Lemma scale_of_volume (vol : Z) :
  0 <= vol < 100 ->
  u32 (vol * 65536 / 100) = vol * 65536 / 100 /\
  0 <= vol * 65536 / 100 < 65536 /\
  (vol = 0 -> vol * 65536 / 100 = 0) /\
  (0 < vol -> 0 < vol * 65536 / 100).
Proof.
  intros H.
  assert (B : 0 <= vol * 65536 / 100 < 65536).
  { split; [apply Z.div_pos; lia|]. apply Z.div_lt_upper_bound; lia. }
  split; [unfold u32; apply Z.mod_small; lia|].
  split; [exact B|]. split.
  - intros ->. reflexivity.
  - intros P. apply Z.div_str_pos. lia.
Qed.

Lemma scale_sample_zero (s : Z) : scale_sample 0 s = 0.
Proof.
  unfold scale_sample. cbv zeta. rewrite Z.mul_0_r. reflexivity.
Qed.

Lemma scale_sample_scaled (vol s : Z) :
  0 <= vol < 100 -> -32768 <= s <= 32767 ->
  scale_sample (u32 (vol * 65536 / 100)) s = scaled_sample vol s.
Proof.
  intros Hv Hs.
  destruct (scale_of_volume vol Hv) as (U & B & Z0 & P).
  rewrite U. unfold scaled_sample.
  destruct (s <? 0) eqn:N.
  - apply Z.ltb_lt in N.
    destruct (vol =? 0) eqn:V.
    + apply Z.eqb_eq in V. rewrite (Z0 V). apply scale_sample_zero.
    + apply Z.eqb_neq in V. apply scale_sample_negative; lia.
  - apply Z.ltb_ge in N. apply scale_sample_nonneg; lia.
Qed.

Lemma scaled_sample_bounds (vol s : Z) :
  0 <= vol < 100 -> 0 <= s <= 32767 ->
  0 <= scaled_sample vol s <= s.
Proof.
  intros Hv Hs.
  destruct (scale_of_volume vol Hv) as (_ & B & _).
  unfold scaled_sample.
  assert (N : (s <? 0) = false) by (apply Z.ltb_ge; lia).
  rewrite N. split.
  - apply Z.div_pos; nia.
  - apply Z.div_le_upper_bound; nia.
Qed.

Lemma in_firstn {A} (n : nat) (l : list A) (x : A) :
  In x (firstn n l) -> In x l.
Proof.
  intros H. rewrite <- (firstn_skipn n l). apply in_or_app. left. exact H.
Qed.

(** Volume scaling, sample by sample. *)
Lemma apply_volume_pointwise_aux :
  forall samples count vol,
    0 <= vol < 100 ->
    Forall (fun s => -32768 <= s <= 32767) samples ->
    apply_volume samples count vol
    = map (scaled_sample vol) (firstn (Z.to_nat count) samples)
      ++ skipn (Z.to_nat count) samples
    /\ length (apply_volume samples count vol) = length samples
    /\ forall s, 0 <= s <= 32767 -> 0 <= scaled_sample vol s <= s.
Proof.
  intros samples count vol Hv Hs.
  assert (E : apply_volume samples count vol
              = map (scaled_sample vol) (firstn (Z.to_nat count) samples)
                ++ skipn (Z.to_nat count) samples).
  { unfold apply_volume.
    assert (L : (100 <=? vol) = false) by (apply Z.leb_gt; lia).
    rewrite L. f_equal.
    apply map_ext_in. intros s Hin.
    apply scale_sample_scaled; [exact Hv|].
    apply (Forall_forall (fun s => -32768 <= s <= 32767) samples);
      [exact Hs|].
    apply (in_firstn (Z.to_nat count)). exact Hin. }
  split; [exact E|]. split.
  - rewrite E, length_app, length_map, <- length_app, firstn_skipn.
    reflexivity.
  - intros s B. apply scaled_sample_bounds; assumption.
Qed.

(** X18. At a volume below 100 apply_volume replaces each of the first
    [count] samples: a non-negative sample s by s * scale / 65536
    rounded down, with scale = volume * 65536 / 100, which lies between
    0 and s; a negative sample by 32767, except at volume 0, where it
    becomes 0.  The samples after the first [count] and the number of
    samples are unchanged. *)
Theorem apply_volume_pointwise :
  forall samples count vol,
    0 <= vol < 100 ->
    Forall (fun s => -32768 <= s <= 32767) samples ->
    apply_volume samples count vol
    = map (scaled_sample vol) (firstn (Z.to_nat count) samples)
      ++ skipn (Z.to_nat count) samples
    /\ length (apply_volume samples count vol) = length samples
    /\ forall s, 0 <= s <= 32767 -> 0 <= scaled_sample vol s <= s.
Proof. exact apply_volume_pointwise_aux. Qed.

Lemma apply_volume_pointwise_witness :
  apply_volume [-1; 1000; -32768; 7] 3 80 = [32767; 799; 32767; 7]
  /\ apply_volume [-1; 1000; 7] 3 0 = [0; 0; 0].
Proof.
  destruct (apply_volume_pointwise [-1; 1000; -32768; 7] 3 80) as (E1 & _);
    [lia | repeat constructor; lia |].
  destruct (apply_volume_pointwise [-1; 1000; 7] 3 0) as (E2 & _);
    [lia | repeat constructor; lia |].
  split; [rewrite E1|rewrite E2]; vm_compute; reflexivity.
Defined.

(** ** The write path *)

Lemma pair_induction {A} (P : list A -> Prop) :
  P [] -> (forall a, P [a]) ->
  (forall a b l, P l -> P (a :: b :: l)) ->
  forall l, P l.
Proof.
  intros H0 H1 H2.
  assert (K : forall l, P l /\ forall a, P (a :: l)).
  { induction l as [|x l IH].
    - split; [exact H0|exact H1].
    - destruct IH as (IH1 & IH2). split; [apply IH2|].
      intros a. apply H2. exact IH1. }
  intros l. apply K.
Qed.

Lemma to_int16_range (x : Z) : -32768 <= to_int16 x <= 32767.
Proof.
  unfold to_int16. cbv zeta.
  pose proof (u16_range x) as R. change (2^16) with 65536 in R.
  change (2^15) with 32768. change (2^16) with 65536.
  destruct (u16 x <? 32768) eqn:L.
  - apply Z.ltb_lt in L. lia.
  - apply Z.ltb_ge in L. lia.
Qed.

Lemma samples_of_bytes_range (bs : list byte) :
  Forall (fun s => -32768 <= s <= 32767) (samples_of_bytes bs).
Proof.
  induction bs using pair_induction; cbn [samples_of_bytes];
    constructor; [apply to_int16_range|assumption].
Qed.

Lemma length_samples_of_bytes (bs : list byte) :
  length (samples_of_bytes bs) = (length bs / 2)%nat.
Proof.
  induction bs as [| a | a b l IH] using pair_induction; try reflexivity.
  cbn [samples_of_bytes length]. rewrite IH.
  change (S (S (length l))) with (2 + length l)%nat.
  replace (2 + length l)%nat with (length l + 1 * 2)%nat by lia.
  rewrite Nat.div_add by lia. lia.
Qed.

Lemma length_bytes_of_samples (ss : list Z) :
  length (bytes_of_samples ss) = (2 * length ss)%nat.
Proof.
  induction ss as [|s ss IH]; [reflexivity|].
  unfold bytes_of_samples in *. cbn [flat_map].
  rewrite length_app, IH. cbn [length le16_bytes]. lia.
Qed.

Lemma length_odd_tail (bs : list byte) :
  length (odd_tail bs) = (length bs mod 2)%nat.
Proof.
  unfold odd_tail.
  destruct (Nat.odd (length bs)) eqn:O.
  - rewrite length_skipn.
    assert (M : (length bs mod 2 = 1)%nat).
    { rewrite <- Nat.bit0_mod. unfold Nat.testbit. rewrite O. reflexivity. }
    assert (P : (0 < length bs)%nat).
    { destruct bs; [discriminate O|cbn; lia]. }
    lia.
  - assert (M : (length bs mod 2 = 0)%nat).
    { rewrite <- Nat.bit0_mod. unfold Nat.testbit. rewrite O. reflexivity. }
    rewrite M. reflexivity.
Qed.

(** X19. audio_player_write on an initialized, playing player and a
    buffer that holds [size] bytes calls the driver once, with a
    payload of exactly [size] bytes, and returns the driver's status.
    When the volume is below 100, the samples are 16 bits wide and the
    scratch buffer is granted, the payload is the buffer with every
    16-bit sample replaced by its scaled value (a trailing odd byte is
    copied); otherwise the payload is the buffer itself. *)
Theorem audio_player_write_payload :
  forall malloc_ok i2s pl data size bw,
    a_initialized pl = true ->
    a_state pl = AUDIO_STATE_PLAYING ->
    0 <= volume pl ->
    0 <= size <= Z.of_nat (length data) ->
    let src := firstn (Z.to_nat size) data in
    let pay :=
      if (volume pl <? 100) && (cfg_bits_per_sample (config pl) =? 16)
         && malloc_ok size
      then bytes_of_samples (map (scaled_sample (volume pl))
                                 (samples_of_bytes src))
           ++ odd_tail src
      else src in
    audio_player_write malloc_ok i2s (Some pl) (Some data) size bw
    = (fst (i2s (tx_handle pl) pay size),
       match bw with
       | Some _ => Some (snd (i2s (tx_handle pl) pay size))
       | None => None
       end,
       Some pay)
    /\ Z.of_nat (length pay) = size.
Proof.
  intros malloc_ok i2s pl data size bw Hi Hs Hv Hsz. cbv zeta.
  assert (Lsrc : length (firstn (Z.to_nat size) data) = Z.to_nat size).
  { apply firstn_length_le. lia. }
  unfold audio_player_write. rewrite Hi, Hs. cbn [negb].
  destruct ((volume pl <? 100) && (cfg_bits_per_sample (config pl) =? 16)
            && malloc_ok size) eqn:B.
  - apply andb_true_iff in B. destruct B as (B & _).
    apply andb_true_iff in B. destruct B as (B & _).
    apply Z.ltb_lt in B.
    destruct (apply_volume_pointwise_aux
                (samples_of_bytes (firstn (Z.to_nat size) data))
                (size / 2) (volume pl) ltac:(lia)
                (samples_of_bytes_range _)) as (E & _).
    rewrite E.
    assert (F : firstn (Z.to_nat (size / 2))
                  (samples_of_bytes (firstn (Z.to_nat size) data))
                = samples_of_bytes (firstn (Z.to_nat size) data)).
    { apply firstn_all2. rewrite length_samples_of_bytes, Lsrc.
      rewrite Z2Nat.inj_div by lia. change (Z.to_nat 2) with 2%nat. lia. }
    assert (G : skipn (Z.to_nat (size / 2))
                  (samples_of_bytes (firstn (Z.to_nat size) data)) = []).
    { apply skipn_all2. rewrite length_samples_of_bytes, Lsrc.
      rewrite Z2Nat.inj_div by lia. change (Z.to_nat 2) with 2%nat. lia. }
    rewrite F, G, app_nil_r.
    set (pay := bytes_of_samples _ ++ odd_tail _).
    destruct (i2s (tx_handle pl) pay size) as [r n] eqn:W. cbn [fst snd].
    split; [reflexivity|].
    subst pay. rewrite length_app, length_bytes_of_samples, length_map,
      length_samples_of_bytes, length_odd_tail, Lsrc.
    pose proof (Nat.div_mod_eq (Z.to_nat size) 2) as DM. lia.
  - set (pay := firstn (Z.to_nat size) data) in *.
    destruct (i2s (tx_handle pl) pay size) as [r n] eqn:W. cbn [fst snd].
    split; [reflexivity|]. rewrite Lsrc. lia.
Qed.

Lemma audio_player_write_payload_witness :
  audio_player_write always_grant echo_i2s_write
    (Some (set_a_state demo_audio_player AUDIO_STATE_PLAYING))
    (Some (bytes_of [0xE8; 0x03; 0xFF; 0xFF; 9])) 5 (Some 0)
  = (ESP_OK, Some 5, Some (bytes_of [0x1F; 0x03; 0xFF; 0x7F; 9])).
Proof.
  destruct (audio_player_write_payload always_grant echo_i2s_write
              (set_a_state demo_audio_player AUDIO_STATE_PLAYING)
              (bytes_of [0xE8; 0x03; 0xFF; 0xFF; 9]) 5 (Some 0))
    as (E & _).
  - reflexivity.
  - reflexivity.
  - vm_compute. intros C. discriminate C.
  - vm_compute. split; intros C; discriminate C.
  - rewrite E. vm_compute. reflexivity.
Defined.

(** ** Transport control of the audio player *)

Section Transport.

Variable driver : Type.
Variable enabled : driver -> bool.
Variables enable disable : Z -> driver -> esp_err_t * driver.

(** What the code relies on: a call that reports success has enabled
    (disabled) the channel, a call that reports failure has left it as
    it was. *)
Hypothesis enable_spec : forall h d,
  enabled (snd (enable h d))
  = if esp_err_is_ok (fst (enable h d)) then true else enabled d.
Hypothesis disable_spec : forall h d,
  enabled (snd (disable h d))
  = if esp_err_is_ok (fst (disable h d)) then false else enabled d.

Lemma audio_step_in_step op pl d r pl' d' :
  a_initialized pl = true ->
  audio_in_step enabled pl d ->
  audio_step enable disable op pl d = (r, Some pl', d') ->
  audio_in_step enabled pl' d' /\
  a_initialized pl' = true /\
  tx_handle pl' = tx_handle pl /\
  config pl' = config pl /\
  volume pl' = volume pl /\
  (r <> ESP_OK -> a_state pl' = a_state pl).
Proof.
  intros Hi Inv H. unfold audio_in_step in *.
  destruct op; cbn [audio_step] in H;
    unfold audio_player_start, audio_player_stop, audio_player_pause,
           audio_player_resume in H;
    rewrite Hi in H; cbn [negb] in H;
    destruct (a_state pl) eqn:S;
    try (inversion H; subst r pl' d'; clear H; rewrite S;
         repeat split; try tauto; try apply Inv; intros; try discriminate;
         apply Inv; assumption).
  all: match type of H with
       | context [enable ?h ?x] =>
         pose proof (enable_spec h x) as Sp;
         destruct (enable h x) as [r0 d0]
       | context [disable ?h ?x] =>
         pose proof (disable_spec h x) as Sp;
         destruct (disable h x) as [r0 d0]
       end;
       cbn [fst snd] in Sp;
       destruct (esp_err_is_ok r0) eqn:K; cbn [negb] in H;
       inversion H; subst r pl' d'; clear H;
       cbn [a_state set_a_state a_initialized tx_handle config volume];
       rewrite ?S, Sp;
       repeat split; auto; try discriminate; try tauto;
       try (intros C; exfalso; apply C; reflexivity);
       try (intros C; apply Inv in C; discriminate C);
       try (intros C; rewrite <- C; symmetry; apply not_true_is_false;
            intros T; apply Inv in T; discriminate T).
Qed.

(** A run of transport calls keeps the recorded state in step with the
    driver. *)
Lemma audio_run_in_step ops :
  forall pl d pl' d',
    a_initialized pl = true ->
    audio_in_step enabled pl d ->
    audio_run enable disable ops pl d = (pl', d') ->
    audio_in_step enabled pl' d' /\
    a_initialized pl' = true /\
    tx_handle pl' = tx_handle pl /\
    config pl' = config pl /\
    volume pl' = volume pl.
Proof.
  induction ops as [|op ops IH]; intros pl d pl' d' Hi Inv H;
    cbn [audio_run] in H.
  - inversion H; subst. auto.
  - destruct (audio_step enable disable op pl d) as [[r [pl1|]] d1] eqn:E.
    + destruct (audio_step_in_step _ _ _ _ _ _ Hi Inv E)
        as (Inv1 & Hi1 & T1 & C1 & V1 & _).
      destruct (IH _ _ _ _ Hi1 Inv1 H) as (Inv2 & Hi2 & T2 & C2 & V2).
      repeat split; try apply Inv2; congruence.
    + exfalso. destruct op; cbn [audio_step] in E;
        unfold audio_player_start, audio_player_stop, audio_player_pause,
               audio_player_resume in E;
        rewrite Hi in E; cbn [negb] in E;
        destruct (a_state pl);
        try discriminate E;
        match type of E with
        | context [enable ?h ?x] => destruct (enable h x) as [r0 d0]
        | context [disable ?h ?x] => destruct (disable h x) as [r0 d0]
        end;
        destruct (esp_err_is_ok r0); discriminate E.
Qed.

End Transport.

(** X20. For a driver whose enable and disable calls change the channel
    exactly when they report success, any sequence of
    audio_player_start, stop, pause and resume on an initialized player
    keeps the recorded state in step with the channel: the state is
    PLAYING exactly when the channel is enabled.  Handle, configuration
    and volume are never touched by these calls. *)
Theorem audio_transport_in_step :
  forall (driver : Type) (enabled : driver -> bool)
         (enable disable : Z -> driver -> esp_err_t * driver),
    (forall h d,
        enabled (snd (enable h d))
        = if esp_err_is_ok (fst (enable h d)) then true else enabled d) ->
    (forall h d,
        enabled (snd (disable h d))
        = if esp_err_is_ok (fst (disable h d)) then false else enabled d) ->
    forall ops pl d pl' d',
      a_initialized pl = true ->
      audio_in_step enabled pl d ->
      audio_run enable disable ops pl d = (pl', d') ->
      audio_in_step enabled pl' d' /\
      a_initialized pl' = true /\
      tx_handle pl' = tx_handle pl /\
      config pl' = config pl /\
      volume pl' = volume pl.
Proof.
  intros driver enabled enable disable He Hd ops.
  exact (audio_run_in_step driver enabled enable disable He Hd ops).
Qed.

Lemma audio_transport_in_step_witness :
  audio_run demo_enable demo_disable
    [OpStart; OpPause; OpPause; OpResume; OpStart; OpStop; OpResume]
    demo_audio_player false
  = (demo_audio_player, false)
  /\ audio_in_step (fun on : bool => on) demo_audio_player false.
Proof.
  split; [vm_compute; reflexivity|].
  destruct (audio_transport_in_step bool (fun on => on) demo_enable demo_disable)
    with (ops := [OpStart; OpPause; OpPause; OpResume; OpStart; OpStop;
                  OpResume])
         (pl := demo_audio_player) (d := false)
         (pl' := demo_audio_player) (d' := false) as (I & _).
  - intros h [|]; reflexivity.
  - intros h [|]; reflexivity.
  - reflexivity.
  - unfold audio_in_step. split; intros C; discriminate C.
  - vm_compute. reflexivity.
  - exact I.
Defined.

(** ** The channel manager *)

Lemma length_list_set {A} (l : list A) : forall i x,
  length (list_set l i x) = length l.
Proof.
  induction l as [|h t IH]; intros [|i] x; cbn [list_set length]; auto.
Qed.

Lemma firstn_list_set_before {A} (l : list A) : forall i k x,
  (k <= i)%nat -> firstn k (list_set l i x) = firstn k l.
Proof.
  induction l as [|h t IH]; intros [|i] [|k] x H; cbn [list_set firstn];
    try reflexivity; try lia.
  f_equal. apply IH. lia.
Qed.

Lemma firstn_list_set_at {A} (l : list A) : forall i x,
  (i < length l)%nat ->
  firstn (S i) (list_set l i x) = firstn i l ++ [x].
Proof.
  induction l as [|h t IH]; intros [|i] x H; cbn [length] in H; try lia.
  - reflexivity.
  - cbn [list_set]. change (firstn (S (S i)) (h :: list_set t i x))
      with (h :: firstn (S i) (list_set t i x)).
    rewrite IH by lia. reflexivity.
Qed.

Lemma nth_error_list_set_eq {A} (l : list A) : forall i x,
  (i < length l)%nat -> nth_error (list_set l i x) i = Some x.
Proof.
  induction l as [|h t IH]; intros [|i] x H; cbn [length] in H; try lia.
  - reflexivity.
  - cbn [list_set nth_error]. apply IH. lia.
Qed.

Lemma nth_error_list_set_neq {A} (l : list A) : forall i j x,
  i <> j -> nth_error (list_set l i x) j = nth_error l j.
Proof.
  induction l as [|h t IH]; intros [|i] [|j] x H; cbn [list_set nth_error];
    try reflexivity; try contradiction.
  apply IH. intros C. apply H. f_equal. exact C.
Qed.

Lemma Forall_list_set {A} (P : A -> Prop) (l : list A) : forall i x,
  Forall P l -> P x -> Forall P (list_set l i x).
Proof.
  induction l as [|h t IH]; intros [|i] x Hl Hx; cbn [list_set];
    try constructor; inversion Hl; subst; auto.
Qed.

Lemma firstn_app_full {A} (l r : list A) (n : nat) :
  length l = n -> firstn n (l ++ r) = l.
Proof.
  intros <-. rewrite firstn_app, Nat.sub_diag, firstn_all.
  cbn [firstn]. apply app_nil_r.
Qed.

Lemma u8_small (x : Z) : 0 <= x < 256 -> u8 x = x.
Proof. intros H. unfold u8. apply Z.mod_small. change (2^8) with 256. lia. Qed.

Section ScanProofs.

Variable opendir : string -> option (list dirent).
Variable stat_size : string -> option Z.

(** The episode loop appends the accepted entries to the slots in use,
    up to the size of the array. *)
Lemma scan_episodes_loop_view path : forall entries ch n,
  length (episodes ch) = 64%nat ->
  episode_count ch = Z.of_nat n -> (n <= 64)%nat ->
  let ch' := scan_episodes_loop stat_size entries path ch in
  let all := firstn n (episodes ch)
             ++ map (make_episode stat_size path) (filter episode_ok entries) in
  length (episodes ch') = 64%nat /\
  ch_name ch' = ch_name ch /\
  ch_path ch' = ch_path ch /\
  current_episode ch' = current_episode ch /\
  episode_count ch' = Z.of_nat (length (firstn 64 all)) /\
  firstn (length (firstn 64 all)) (episodes ch') = firstn 64 all.
Proof.
  induction entries as [|e rest IH]; intros ch n Hl Hc Hn; cbv zeta.
  - cbn [scan_episodes_loop filter map]. rewrite app_nil_r.
    assert (L : length (firstn n (episodes ch)) = n).
    { apply firstn_length_le. lia. }
    rewrite (firstn_all2 (n := 64)) by lia.
    rewrite L, Hc. repeat split; auto.
  - cbn [scan_episodes_loop].
    unfold MAX_EPISODES.
    destruct (episode_count ch <? 64) eqn:B.
    + apply Z.ltb_lt in B.
      cbn [filter].
      assert (EO : episode_ok e = is_reg e && is_video_file (d_name e))
        by reflexivity.
      rewrite EO. clear EO.
      destruct (is_reg e); cbn [negb andb].
      2:{ apply (IH ch n Hl Hc Hn). }
      destruct (is_video_file (d_name e)); cbn [negb].
      2:{ apply (IH ch n Hl Hc Hn). }
      cbn [map].
      set (ep := make_episode stat_size path e).
      set (ch1 := mk_channel _ _ _ _ _).
      assert (H1 : length (episodes ch1) = 64%nat).
      { subst ch1. cbn [episodes]. rewrite length_list_set. exact Hl. }
      assert (H2 : episode_count ch1 = Z.of_nat (S n)).
      { subst ch1. cbn [episode_count]. rewrite u8_small by lia. lia. }
      destruct (IH ch1 (S n) H1 H2 ltac:(lia)) as (A1 & A2 & A3 & A4 & A5 & A6).
      assert (F : firstn (S n) (episodes ch1) = firstn n (episodes ch) ++ [ep]).
      { subst ch1. cbn [episodes]. rewrite Hc, Nat2Z.id.
        apply firstn_list_set_at. lia. }
      rewrite F, <- app_assoc in A5, A6. cbn [app] in A5, A6.
      repeat split; assumption.
    + apply Z.ltb_ge in B.
      assert (N : n = 64%nat) by lia. subst n.
      assert (L : length (firstn 64 (episodes ch)) = 64%nat).
      { apply firstn_length_le. lia. }
      rewrite (firstn_app_full _ _ 64 L), L.
      repeat split; auto.
Qed.

(** [scan_channel_episodes] leaves in the slot the episodes listed for
    the directory. *)
Lemma scan_channel_episodes_view ch path :
  length (episodes ch) = 64%nat ->
  let '(r, ch') := scan_channel_episodes opendir stat_size ch path in
  length (episodes ch') = 64%nat /\
  ch_name ch' = ch_name ch /\
  ch_path ch' = ch_path ch /\
  (esp_err_is_ok r && (0 <? episode_count ch') = true ->
   episode_count ch'
   = Z.of_nat (length (listed_episodes opendir stat_size path)) /\
   firstn (Z.to_nat (episode_count ch')) (episodes ch')
   = listed_episodes opendir stat_size path /\
   0 < episode_count ch' <= 64) /\
  (esp_err_is_ok r && (0 <? episode_count ch') = false ->
   listed_episodes opendir stat_size path = []).
Proof.
  intros Hl. unfold scan_channel_episodes, listed_episodes.
  destruct (opendir path) as [entries|].
  - set (ch0 := mk_channel _ _ _ 0 _).
    destruct (scan_episodes_loop_view path entries ch0 0 Hl eq_refl ltac:(lia))
      as (A1 & A2 & A3 & A4 & A5 & A6).
    change (firstn 0 (episodes ch0)) with (@nil episode_t) in A5, A6.
    cbn [app] in A5, A6.
    change (Z.to_nat MAX_EPISODES) with 64%nat.
    fold episode_ok.
    set (listed := firstn 64 (map (make_episode stat_size path)
                                  (filter episode_ok entries))) in *.
    assert (B : (length listed <= 64)%nat).
    { subst listed. rewrite length_firstn. lia. }
    split; [exact A1|]. split; [exact A2|]. split; [exact A3|].
    cbn [esp_err_is_ok andb]. split.
    + intros P. apply Z.ltb_lt in P.
      rewrite A5 in P. rewrite A5, Nat2Z.id.
      split; [reflexivity|]. split; [exact A6|]. lia.
    + intros P. apply Z.ltb_ge in P. rewrite A5 in P.
      destruct listed; [reflexivity|cbn [length] in P; lia].
  - split; [exact Hl|]. split; [reflexivity|]. split; [reflexivity|].
    cbn [esp_err_is_ok andb]. split; [discriminate|reflexivity].
Qed.

Lemma shape_slot m n slot :
  manager_shape m ->
  nth_error (cm_channels m) n = Some slot ->
  length (episodes slot) = 64%nat.
Proof.
  intros (_ & F) H.
  apply (proj1 (Forall_forall _ _) F).
  apply nth_error_In in H. exact H.
Qed.

(** The channel loop appends the accepted directories to the channels
    in use, up to the size of the array. *)
Lemma scan_channels_loop_view : forall entries m n,
  manager_shape m ->
  channel_count m = Z.of_nat n -> (n <= 16)%nat ->
  Forall channel_ok (firstn n (cm_channels m)) ->
  exists m',
    scan_channels_loop opendir stat_size entries m = Some m' /\
    manager_shape m' /\
    current_channel m' = current_channel m /\
    let all := manager_view m
               ++ filter nonempty_view
                    (map (listed_channel opendir stat_size)
                         (filter is_channel_dir entries)) in
    channel_count m' = Z.of_nat (length (firstn 16 all)) /\
    manager_view m' = firstn 16 all /\
    Forall channel_ok (firstn (length (firstn 16 all)) (cm_channels m')).
Proof.
  induction entries as [|e rest IH]; intros m n Hs Hc Hn Hok; cbv zeta.
  - exists m. cbn [scan_channels_loop filter map]. rewrite app_nil_r.
    assert (L : length (manager_view m) = n).
    { unfold manager_view. rewrite length_map, Hc, Nat2Z.id.
      apply firstn_length_le. destruct Hs as (Hs & _). rewrite Hs.
      change (Z.to_nat MAX_CHANNELS) with 16%nat. lia. }
    rewrite (firstn_all2 (n := 16)) by lia.
    rewrite L. repeat split; try apply Hs; auto.
  - cbn [scan_channels_loop]. unfold MAX_CHANNELS.
    destruct (channel_count m <? 16) eqn:B.
    + apply Z.ltb_lt in B.
      cbn [filter].
      assert (CD : is_channel_dir e
                   = is_dir e && negb (String.eqb (d_name e) "."
                                       || String.eqb (d_name e) ".."))
        by reflexivity.
      rewrite CD. clear CD.
      destruct (is_dir e); cbn [negb andb].
      2:{ apply (IH m n Hs Hc Hn Hok). }
      destruct (String.eqb (d_name e) "." || String.eqb (d_name e) "..");
        cbn [negb].
      1:{ apply (IH m n Hs Hc Hn Hok). }
      cbn [map filter].
      assert (Ln : (n < length (cm_channels m))%nat).
      { destruct Hs as (Hs & _). rewrite Hs.
        change (Z.to_nat MAX_CHANNELS) with 16%nat. lia. }
      rewrite Hc, Nat2Z.id.
      destruct (nth_error (cm_channels m) n) as [slot|] eqn:Sl.
      2:{ apply nth_error_None in Sl. lia. }
      pose proof (shape_slot m n slot Hs Sl) as Lslot.
      set (ch := mk_channel (trunc 63 (d_name e)) _ _ _ _).
      pose proof (scan_channel_episodes_view ch (ch_path ch) Lslot) as V.
      destruct (scan_channel_episodes opendir stat_size ch (ch_path ch))
        as [r ch1].
      destruct V as (V1 & V2 & V3 & Vok & Vko).
      assert (LC : listed_channel opendir stat_size e
                   = (trunc 63 (d_name e), ch_path ch,
                      listed_episodes opendir stat_size (ch_path ch), 0))
        by reflexivity.
      rewrite LC. clear LC. cbn [nonempty_view].
      destruct (esp_err_is_ok r && (0 <? episode_count ch1)) eqn:Acc.
      * destruct (Vok eq_refl) as (E1 & E2 & E3).
        set (ch2 := mk_channel (ch_name ch1) (ch_path ch1) (episodes ch1)
                               (episode_count ch1) 0).
        assert (NE : negb (Nat.eqb (length (listed_episodes opendir stat_size
                                             (ch_path ch))) 0) = true).
        { destruct (listed_episodes opendir stat_size (ch_path ch));
            [cbn [length] in E1; lia|reflexivity]. }
        rewrite NE.
        set (m2 := mk_manager (list_set (cm_channels m) n ch2)
                              (u8 (Z.of_nat n + 1)) (current_channel m)).
        assert (S2 : manager_shape m2).
        { destruct Hs as (Hs1 & Hs2). split.
          - subst m2. cbn [cm_channels]. rewrite length_list_set. exact Hs1.
          - subst m2. cbn [cm_channels]. apply Forall_list_set; [exact Hs2|].
            exact V1. }
        assert (C2 : channel_count m2 = Z.of_nat (S n)).
        { subst m2. cbn [channel_count]. rewrite u8_small by lia. lia. }
        assert (F2 : firstn (S n) (cm_channels m2) = firstn n (cm_channels m) ++ [ch2]).
        { subst m2. cbn [cm_channels]. apply firstn_list_set_at. exact Ln. }
        assert (K2 : channel_ok ch2).
        { unfold channel_ok. subst ch2. cbn [episodes episode_count
                                              current_episode].
          change (Z.to_nat MAX_EPISODES) with 64%nat. unfold MAX_EPISODES.
          split; [exact V1|]. lia. }
        assert (O2 : Forall channel_ok (firstn (S n) (cm_channels m2))).
        { rewrite F2. apply Forall_app. split; [exact Hok|].
          constructor; [exact K2|constructor]. }
        destruct (IH m2 (S n) S2 C2 ltac:(lia) O2)
          as (m' & R & Sh & Cur & Cnt & Vw & Ok).
        exists m'. split; [exact R|]. split; [exact Sh|].
        split; [exact Cur|].
        assert (VW : manager_view m2
                     = manager_view m
                       ++ [(trunc 63 (d_name e), ch_path ch,
                            listed_episodes opendir stat_size (ch_path ch), 0)]).
        { unfold manager_view. rewrite C2, Hc, !Nat2Z.id, F2, map_app.
          f_equal. cbn [map]. f_equal. unfold channel_view. subst ch2.
          cbn [ch_name ch_path episodes episode_count current_episode].
          rewrite V2, V3, E2. reflexivity. }
        cbv zeta in Cnt, Vw, Ok.
        rewrite VW, <- app_assoc in Cnt, Vw, Ok. cbn [app] in Cnt, Vw, Ok.
        split; [exact Cnt|]. split; [exact Vw|exact Ok].
      * rewrite (Vko eq_refl). cbn [length Nat.eqb negb].
        set (m2 := mk_manager (list_set (cm_channels m) n ch1)
                              (Z.of_nat n) (current_channel m)).
        assert (S2 : manager_shape m2).
        { destruct Hs as (Hs1 & Hs2). split.
          - subst m2. cbn [cm_channels]. rewrite length_list_set. exact Hs1.
          - subst m2. cbn [cm_channels]. apply Forall_list_set; [exact Hs2|].
            exact V1. }
        assert (F2 : firstn n (cm_channels m2) = firstn n (cm_channels m)).
        { subst m2. cbn [cm_channels]. apply firstn_list_set_before. lia. }
        assert (O2 : Forall channel_ok (firstn n (cm_channels m2))).
        { rewrite F2. exact Hok. }
        destruct (IH m2 n S2 eq_refl Hn O2)
          as (m' & R & Sh & Cur & Cnt & Vw & Ok).
        exists m'. split; [exact R|]. split; [exact Sh|].
        split; [exact Cur|].
        assert (VW : manager_view m2 = manager_view m).
        { unfold manager_view. subst m2. cbn [channel_count cm_channels].
          rewrite Hc, !Nat2Z.id.
          rewrite firstn_list_set_before by lia. reflexivity. }
        cbv zeta in Cnt, Vw, Ok. rewrite VW in Cnt, Vw, Ok.
        split; [exact Cnt|]. split; [exact Vw|exact Ok].
    + apply Z.ltb_ge in B.
      assert (N : n = 16%nat) by lia. subst n.
      exists m.
      assert (L : length (manager_view m) = 16%nat).
      { unfold manager_view. rewrite length_map, Hc, Nat2Z.id.
        apply firstn_length_le. destruct Hs as (Hs & _). rewrite Hs.
        change (Z.to_nat MAX_CHANNELS) with 16%nat. lia. }
      rewrite (firstn_app_full _ _ 16 L), L.
      repeat split; try apply Hs; auto.
Qed.

(** A scan lists the channels of the medium. *)
Lemma channel_manager_scan_view m :
  manager_shape m ->
  exists m',
    channel_manager_scan opendir stat_size (Some m)
    = Some (ESP_OK, Some m',
            match opendir CHANNELS_ROOT with
            | None => true
            | Some _ => false
            end) /\
    manager_view m' = listed_channels opendir stat_size /\
    manager_ok m' /\
    current_channel m' = 0.
Proof.
  intros Hs. unfold channel_manager_scan, listed_channels.
  set (m0 := mk_manager (cm_channels m) 0 0).
  assert (S0 : manager_shape m0) by exact Hs.
  destruct (opendir CHANNELS_ROOT) as [entries|].
  - destruct (scan_channels_loop_view entries m0 0 S0 eq_refl ltac:(lia)
                ltac:(constructor))
      as (m' & R & Sh & Cur & Cnt & Vw & Ok).
    cbv zeta in Cnt, Vw, Ok.
    change (manager_view m0) with (@nil (string * string * list episode_t * Z))
      in Cnt, Vw, Ok.
    cbn [app] in Cnt, Vw, Ok.
    rewrite R. exists m'. split; [reflexivity|].
    change (Z.to_nat MAX_CHANNELS) with 16%nat.
    split; [exact Vw|]. split; [|exact Cur].
    set (listed := firstn 16 _) in *.
    assert (B : (length listed <= 16)%nat).
    { subst listed. rewrite length_firstn. lia. }
    destruct Sh as (Sh1 & Sh2).
    unfold manager_ok. unfold MAX_CHANNELS.
    split; [exact Sh1|]. split; [exact Sh2|].
    split; [lia|]. split; [intros _; exact Cur|].
    split.
    + intros P. rewrite Cur. cbn [current_channel m0]. lia.
    + rewrite Cnt, Nat2Z.id. exact Ok.
  - exists m0. split; [reflexivity|]. split; [reflexivity|].
    split; [|reflexivity].
    destruct S0 as (Sh1 & Sh2).
    unfold manager_ok, MAX_CHANNELS. cbn [channel_count current_channel m0].
    split; [exact Sh1|]. split; [exact Sh2|].
    split; [lia|]. split; [reflexivity|].
    split; [lia|]. constructor.
Qed.

End ScanProofs.

(** X21. channel_manager_scan on a manager whose arrays have the
    declared sizes returns ESP_OK and leaves, as the channels in use,
    exactly the sub-directories of /sdcard/channels other than "." and
    ".." that hold at least one regular file with a video extension, in
    directory order and at most MAX_CHANNELS of them; the episodes of
    each are those files in directory order, at most MAX_EPISODES, and
    its current episode is 0.  What the slots held before plays no
    part.  The current channel is 0, all counts and indices are inside
    the arrays, and mkdir is called exactly when the root directory
    cannot be opened. *)
Theorem channel_manager_scan_lists_channels :
  forall opendir stat_size m,
    manager_shape m ->
    exists m',
      channel_manager_scan opendir stat_size (Some m)
      = Some (ESP_OK, Some m',
              match opendir CHANNELS_ROOT with
              | None => true
              | Some _ => false
              end) /\
      manager_view m' = listed_channels opendir stat_size /\
      manager_ok m' /\
      current_channel m' = 0.
Proof. exact channel_manager_scan_view. Qed.

Lemma manager_shape_zero : manager_shape zero_manager.
Proof.
  split; [reflexivity|].
  unfold zero_manager. cbn [cm_channels]. apply Forall_forall.
  intros ch H. apply repeat_spec in H. subst ch. reflexivity.
Qed.

Lemma channel_manager_scan_lists_channels_witness :
  exists m',
    channel_manager_scan demo_opendir demo_stat (Some demo_manager)
    = Some (ESP_OK, Some m',
            match demo_opendir CHANNELS_ROOT with
            | None => true
            | Some _ => false
            end) /\
    manager_view m' = listed_channels demo_opendir demo_stat /\
    manager_ok m' /\
    current_channel m' = 0.
Proof.
  apply (channel_manager_scan_lists_channels demo_opendir demo_stat
           demo_manager).
  split; [vm_compute; reflexivity|].
  vm_compute. repeat constructor.
Defined.

Lemma firstn_list_set {A} (l : list A) : forall i k x,
  firstn k (list_set l i x) = list_set (firstn k l) i x.
Proof.
  induction l as [|h t IH]; intros i k x.
  - destruct i, k; reflexivity.
  - destruct i as [|i], k as [|k]; cbn [list_set firstn]; try reflexivity.
    f_equal. apply IH.
Qed.

Lemma manager_ok_current m :
  manager_ok m -> 0 < channel_count m ->
  exists ch,
    nth_error (cm_channels m) (Z.to_nat (current_channel m)) = Some ch /\
    channel_ok ch /\
    nth_error (manager_view m) (Z.to_nat (current_channel m))
    = Some (channel_view ch).
Proof.
  intros (L & Sh & Cn & _ & Cur & Ok) P. specialize (Cur P).
  unfold MAX_CHANNELS in *. change (Z.to_nat 16) with 16%nat in L.
  destruct (nth_error (cm_channels m) (Z.to_nat (current_channel m)))
    as [ch|] eqn:E.
  2:{ apply nth_error_None in E. lia. }
  exists ch. split; [reflexivity|].
  assert (E' : nth_error (firstn (Z.to_nat (channel_count m)) (cm_channels m))
                 (Z.to_nat (current_channel m)) = Some ch).
  { rewrite nth_error_firstn.
    assert (B : (Z.to_nat (current_channel m) <? Z.to_nat (channel_count m))%nat
                = true) by (apply Nat.ltb_lt; lia).
    rewrite B. exact E. }
  split.
  - apply (proj1 (Forall_forall _ _) Ok). apply nth_error_In in E'. exact E'.
  - unfold manager_view. apply map_nth_error. exact E'.
Qed.

Lemma manager_ok_set_current m c :
  manager_ok m -> 0 <= c < channel_count m ->
  manager_ok (mk_manager (cm_channels m) (channel_count m) c).
Proof.
  intros (L & Sh & Cn & Z0 & Cur & Ok) Hc. unfold manager_ok.
  cbn [cm_channels channel_count current_channel].
  split; [exact L|]. split; [exact Sh|]. split; [exact Cn|].
  split; [lia|]. split; [intros _; exact Hc|exact Ok].
Qed.

Lemma manager_eta m :
  mk_manager (cm_channels m) (channel_count m) (current_channel m) = m.
Proof. destruct m. reflexivity. Qed.

(** X22. On a manager with at least one channel and its indices inside
    the counts, channel_manager_next_channel and _prev_channel return
    ESP_OK, move the current channel one step up or down modulo the
    channel count, keep all counts and indices inside the arrays, leave
    every channel slot as it is, and undo each other.
    channel_manager_set_channel accepts exactly the indices below the
    channel count and otherwise returns ESP_ERR_INVALID_ARG without
    changing anything. *)
Theorem channel_navigation :
  forall m,
    manager_ok m -> 0 < channel_count m ->
    exists m1 m2,
      channel_manager_next_channel (Some m) = (ESP_OK, Some m1) /\
      channel_manager_prev_channel (Some m) = (ESP_OK, Some m2) /\
      manager_ok m1 /\ manager_ok m2 /\
      cm_channels m1 = cm_channels m /\ cm_channels m2 = cm_channels m /\
      current_channel m1 = (current_channel m + 1) mod channel_count m /\
      current_channel m2 = (current_channel m - 1) mod channel_count m /\
      channel_manager_prev_channel (Some m1) = (ESP_OK, Some m) /\
      channel_manager_next_channel (Some m2) = (ESP_OK, Some m) /\
      forall idx,
        (0 <= idx < channel_count m ->
         channel_manager_set_channel (Some m) idx
         = (ESP_OK, Some (mk_manager (cm_channels m) (channel_count m) idx)) /\
         manager_ok (mk_manager (cm_channels m) (channel_count m) idx)) /\
        (channel_count m <= idx ->
         channel_manager_set_channel (Some m) idx
         = (ESP_ERR_INVALID_ARG, Some m)).
Proof.
  intros m Hok P.
  pose proof Hok as (L & Sh & Cn & _ & Cur & Ok). specialize (Cur P).
  unfold MAX_CHANNELS in Cn.
  assert (NZ : (channel_count m =? 0) = false) by (apply Z.eqb_neq; lia).
  set (c := current_channel m) in *. set (k := channel_count m) in *.
  assert (N1 : 0 <= (c + 1) mod k < k) by (apply Z.mod_pos_bound; lia).
  assert (N2 : 0 <= (c - 1) mod k < k) by (apply Z.mod_pos_bound; lia).
  assert (P2 : (if c =? 0 then u8 (k - 1) else u8 (c - 1)) = (c - 1) mod k).
  { destruct (c =? 0) eqn:Z0.
    - apply Z.eqb_eq in Z0. rewrite Z0, u8_small by lia.
      apply (Z.mod_unique_pos _ _ (-1)); lia.
    - apply Z.eqb_neq in Z0. rewrite u8_small by lia.
      symmetry. apply Z.mod_small. lia. }
  exists (mk_manager (cm_channels m) k ((c + 1) mod k)),
         (mk_manager (cm_channels m) k ((c - 1) mod k)).
  split.
  { unfold channel_manager_next_channel. fold k c. rewrite NZ.
    rewrite u8_small by lia. reflexivity. }
  split.
  { unfold channel_manager_prev_channel. fold k c. rewrite NZ.
    cbv zeta. rewrite P2. reflexivity. }
  split; [apply manager_ok_set_current; [exact Hok|exact N1]|].
  split; [apply manager_ok_set_current; [exact Hok|exact N2]|].
  split; [reflexivity|]. split; [reflexivity|].
  split; [reflexivity|]. split; [reflexivity|].
  split.
  { unfold channel_manager_prev_channel.
    cbn [channel_count current_channel cm_channels]. rewrite NZ. cbv zeta.
    assert (B : (if (c + 1) mod k =? 0 then u8 (k - 1)
                 else u8 ((c + 1) mod k - 1)) = c).
    { destruct (Z.eq_dec (c + 1) k) as [E|E].
      - rewrite E, Z.mod_same by lia. cbn [Z.eqb].
        rewrite u8_small by lia. lia.
      - rewrite (Z.mod_small (c + 1) k) by lia.
        assert (Q : (c + 1 =? 0) = false) by (apply Z.eqb_neq; lia).
        rewrite Q, u8_small by lia. lia. }
    rewrite B. subst c k. rewrite manager_eta. reflexivity. }
  split.
  { unfold channel_manager_next_channel.
    cbn [channel_count current_channel cm_channels]. rewrite NZ.
    assert (B : u8 (((c - 1) mod k + 1) mod k) = c).
    { destruct (Z.eq_dec c 0) as [E|E].
      - rewrite E. replace ((0 - 1) mod k) with (k - 1)
          by (apply (Z.mod_unique_pos _ _ (-1)); lia).
        replace (k - 1 + 1) with k by lia. rewrite Z.mod_same by lia.
        reflexivity.
      - rewrite (Z.mod_small (c - 1) k) by lia.
        replace (c - 1 + 1) with c by lia.
        rewrite (Z.mod_small c k) by lia. apply u8_small. lia. }
    rewrite B. subst c k. rewrite manager_eta. reflexivity. }
  intros idx. split.
  - intros Hi. unfold channel_manager_set_channel. fold k.
    assert (Q : (k <=? idx) = false) by (apply Z.leb_gt; lia).
    rewrite Q. split; [reflexivity|].
    apply manager_ok_set_current; [exact Hok|exact Hi].
  - intros Hi. unfold channel_manager_set_channel. fold k.
    assert (Q : (k <=? idx) = true) by (apply Z.leb_le; lia).
    rewrite Q. reflexivity.
Qed.

Ltac demo_manager_ok :=
  unfold manager_ok;
  split; [vm_compute; reflexivity|];
  split; [vm_compute; repeat constructor|];
  split; [vm_compute; split; intros C; discriminate C|];
  split; [intros _; vm_compute; reflexivity|];
  split; [intros _; vm_compute; split; [intros C; discriminate C|reflexivity]|];
  vm_compute; repeat constructor; intros C; discriminate C.

Lemma channel_navigation_witness :
  exists m1 m2,
    channel_manager_next_channel (Some demo_manager) = (ESP_OK, Some m1) /\
    channel_manager_prev_channel (Some demo_manager) = (ESP_OK, Some m2) /\
    manager_ok m1 /\ manager_ok m2 /\
    cm_channels m1 = cm_channels demo_manager /\
    cm_channels m2 = cm_channels demo_manager /\
    current_channel m1
    = (current_channel demo_manager + 1) mod channel_count demo_manager /\
    current_channel m2
    = (current_channel demo_manager - 1) mod channel_count demo_manager /\
    channel_manager_prev_channel (Some m1) = (ESP_OK, Some demo_manager) /\
    channel_manager_next_channel (Some m2) = (ESP_OK, Some demo_manager) /\
    forall idx,
      (0 <= idx < channel_count demo_manager ->
       channel_manager_set_channel (Some demo_manager) idx
       = (ESP_OK,
          Some (mk_manager (cm_channels demo_manager)
                  (channel_count demo_manager) idx)) /\
       manager_ok (mk_manager (cm_channels demo_manager)
                     (channel_count demo_manager) idx)) /\
      (channel_count demo_manager <= idx ->
       channel_manager_set_channel (Some demo_manager) idx
       = (ESP_ERR_INVALID_ARG, Some demo_manager)).
Proof.
  apply (channel_navigation demo_manager).
  - demo_manager_ok.
  - vm_compute. reflexivity.
Defined.

(** X23. With the indices inside the counts, the two getters never
    point outside the arrays: channel_manager_get_current yields the
    slot of the current channel and
    channel_manager_get_current_episode the slot of its current
    episode, which is one of the episodes listed for that channel;
    with no channel both yield NULL. *)
Theorem current_episode_in_bounds :
  forall m,
    manager_ok m ->
    (channel_count m = 0 ->
     channel_manager_get_current (Some m) = PNull /\
     channel_manager_get_current_episode (Some m) = PNull) /\
    (0 < channel_count m ->
     exists ch ep,
       channel_manager_get_current (Some m) = PSlot (current_channel m) ch /\
       channel_manager_get_current_episode (Some m)
       = PSlot (current_episode ch) ep /\
       nth_error (manager_view m) (Z.to_nat (current_channel m))
       = Some (channel_view ch) /\
       nth_error (firstn (Z.to_nat (episode_count ch)) (episodes ch))
                 (Z.to_nat (current_episode ch)) = Some ep).
Proof.
  intros m Hok. split.
  - intros Z0. unfold channel_manager_get_current_episode,
      channel_manager_get_current. rewrite Z0. cbn [Z.eqb]. auto.
  - intros P.
    destruct (manager_ok_current m Hok P) as (ch & E & (Le & Ce & Cu) & V).
    assert (NZ : (channel_count m =? 0) = false) by (apply Z.eqb_neq; lia).
    unfold MAX_EPISODES in *. change (Z.to_nat 64) with 64%nat in Le.
    destruct (nth_error (episodes ch) (Z.to_nat (current_episode ch)))
      as [ep|] eqn:Ee.
    2:{ apply nth_error_None in Ee. lia. }
    exists ch, ep.
    unfold channel_manager_get_current_episode, channel_manager_get_current.
    rewrite NZ, E.
    assert (NZe : (episode_count ch =? 0) = false) by (apply Z.eqb_neq; lia).
    rewrite NZe, Ee.
    split; [reflexivity|]. split; [reflexivity|]. split; [exact V|].
    rewrite nth_error_firstn.
    assert (B : (Z.to_nat (current_episode ch) <? Z.to_nat (episode_count ch))%nat
                = true) by (apply Nat.ltb_lt; lia).
    rewrite B. exact Ee.
Qed.

Lemma current_episode_in_bounds_witness :
  0 < channel_count demo_manager /\
  exists ch ep,
    channel_manager_get_current (Some demo_manager)
    = PSlot (current_channel demo_manager) ch /\
    channel_manager_get_current_episode (Some demo_manager)
    = PSlot (current_episode ch) ep /\
    nth_error (manager_view demo_manager)
              (Z.to_nat (current_channel demo_manager))
    = Some (channel_view ch) /\
    nth_error (firstn (Z.to_nat (episode_count ch)) (episodes ch))
              (Z.to_nat (current_episode ch)) = Some ep.
Proof.
  split; [vm_compute; reflexivity|].
  apply (current_episode_in_bounds demo_manager).
  - demo_manager_ok.
  - vm_compute. reflexivity.
Defined.

(** X24. channel_manager_next_episode on a manager with at least one
    channel and its indices inside the counts returns ESP_OK, advances
    the current episode of the current channel by one modulo its
    episode count, and changes nothing else: the other channels, the
    episode lists, the counts and the current channel stay as they
    are, and all indices remain inside the arrays. *)
Theorem next_episode_cycles :
  forall m,
    manager_ok m -> 0 < channel_count m ->
    exists ch m',
      nth_error (cm_channels m) (Z.to_nat (current_channel m)) = Some ch /\
      channel_manager_next_episode (Some m) = Some (ESP_OK, Some m') /\
      manager_ok m' /\
      channel_count m' = channel_count m /\
      current_channel m' = current_channel m /\
      nth_error (cm_channels m') (Z.to_nat (current_channel m))
      = Some (mk_channel (ch_name ch) (ch_path ch) (episodes ch)
                (episode_count ch)
                ((current_episode ch + 1) mod episode_count ch)) /\
      forall j, j <> Z.to_nat (current_channel m) ->
                nth_error (cm_channels m') j = nth_error (cm_channels m) j.
Proof.
  intros m Hok P.
  destruct (manager_ok_current m Hok P) as (ch & E & (Le & Ce & Cu) & V).
  pose proof Hok as (L & Sh & Cn & Z0 & Cur & Ok). specialize (Cur P).
  unfold MAX_CHANNELS, MAX_EPISODES in *.
  change (Z.to_nat 16) with 16%nat in L.
  assert (NZ : (channel_count m =? 0) = false) by (apply Z.eqb_neq; lia).
  assert (NZe : (episode_count ch =? 0) = false) by (apply Z.eqb_neq; lia).
  assert (N1 : 0 <= (current_episode ch + 1) mod episode_count ch
               < episode_count ch) by (apply Z.mod_pos_bound; lia).
  set (ch' := mk_channel (ch_name ch) (ch_path ch) (episodes ch)
                (episode_count ch)
                ((current_episode ch + 1) mod episode_count ch)).
  exists ch, (mk_manager (list_set (cm_channels m) (Z.to_nat (current_channel m)) ch')
                (channel_count m) (current_channel m)).
  split; [exact E|].
  split.
  { unfold channel_manager_next_episode. rewrite NZ, E, NZe.
    rewrite u8_small by lia. reflexivity. }
  assert (K : channel_ok ch').
  { unfold channel_ok, MAX_EPISODES. subst ch'.
    cbn [episodes episode_count current_episode]. auto. }
  split.
  { unfold manager_ok, MAX_CHANNELS.
    cbn [cm_channels channel_count current_channel].
    split; [rewrite length_list_set; exact L|].
    split; [apply Forall_list_set; [exact Sh|exact Le]|].
    split; [exact Cn|]. split; [exact Z0|]. split; [intros _; exact Cur|].
    rewrite firstn_list_set. apply Forall_list_set; assumption. }
  split; [reflexivity|]. split; [reflexivity|].
  cbn [cm_channels]. split.
  - apply nth_error_list_set_eq. lia.
  - intros j Hj. apply nth_error_list_set_neq. auto.
Qed.

Lemma next_episode_cycles_witness :
  exists ch m',
    nth_error (cm_channels demo_manager)
              (Z.to_nat (current_channel demo_manager)) = Some ch /\
    channel_manager_next_episode (Some demo_manager)
    = Some (ESP_OK, Some m') /\
    manager_ok m' /\
    channel_count m' = channel_count demo_manager /\
    current_channel m' = current_channel demo_manager /\
    nth_error (cm_channels m') (Z.to_nat (current_channel demo_manager))
    = Some (mk_channel (ch_name ch) (ch_path ch) (episodes ch)
              (episode_count ch)
              ((current_episode ch + 1) mod episode_count ch)) /\
    forall j, j <> Z.to_nat (current_channel demo_manager) ->
              nth_error (cm_channels m') j = nth_error (cm_channels demo_manager) j.
Proof.
  apply (next_episode_cycles demo_manager).
  - demo_manager_ok.
  - vm_compute. reflexivity.
Defined.

(** *** File names *)

Lemma last_dot_from_none (s : string) : forall i acc,
  has_dot s = false -> last_dot_from s i acc = acc.
Proof.
  induction s as [|c s IH]; intros i acc H; [reflexivity|].
  cbn [has_dot] in H. apply orb_false_iff in H. destruct H as (H1 & H2).
  cbn [last_dot_from]. rewrite H1. apply IH. exact H2.
Qed.

Lemma last_dot_from_ext (base ext : string) : forall i acc,
  has_dot ext = false ->
  last_dot_from (base ++ String "."%char ext) i acc
  = Some (i + String.length base)%nat.
Proof.
  induction base as [|c base IH]; intros i acc H.
  - cbn [append last_dot_from String.length]. rewrite Ascii.eqb_refl.
    rewrite last_dot_from_none by exact H. f_equal. lia.
  - cbn [append last_dot_from String.length].
    rewrite IH by exact H. f_equal. lia.
Qed.

Lemma substring_all (s : string) : substring 0 (String.length s) s = s.
Proof.
  induction s as [|c s IH]; [reflexivity|].
  cbn [String.length substring]. rewrite IH. reflexivity.
Qed.

Lemma substring_tail (a b : string) :
  substring (String.length a) (String.length b) (a ++ b) = b.
Proof.
  induction a as [|c a IH].
  - cbn [String.length append]. apply substring_all.
  - cbn [String.length append substring]. exact IH.
Qed.

Lemma substring_head (a b : string) :
  substring 0 (String.length a) (a ++ b) = a.
Proof.
  induction a as [|c a IH].
  - cbn [String.length append]. destruct b; reflexivity.
  - cbn [String.length append substring]. rewrite IH. reflexivity.
Qed.

Lemma length_append (a b : string) :
  String.length (a ++ b) = (String.length a + String.length b)%nat.
Proof.
  induction a as [|c a IH]; [reflexivity|].
  cbn [append String.length]. rewrite IH. reflexivity.
Qed.

Lemma trunc_short (n : nat) (s : string) :
  (String.length s <= n)%nat -> trunc n s = s.
Proof.
  unfold trunc. revert n.
  induction s as [|c s IH]; intros n H.
  - destruct n; reflexivity.
  - destruct n as [|n]; [cbn in H; lia|].
    cbn [substring]. rewrite IH by (cbn in H; lia). reflexivity.
Qed.

Lemma strrchr_dot_ext (base ext : string) :
  has_dot ext = false ->
  strrchr_dot (base ++ String "."%char ext) = Some (String "."%char ext).
Proof.
  intros H. unfold strrchr_dot.
  rewrite last_dot_from_ext by exact H. cbn [Nat.add].
  rewrite length_append.
  replace (String.length base + String.length (String "."%char ext)
           - String.length base)%nat
    with (String.length (String "."%char ext)) by lia.
  rewrite substring_tail. reflexivity.
Qed.

(** X25. is_video_file looks at the part of the name from its last '.'
    on and compares it without regard to letter case: a name
    base.ext, where ext has no '.', is accepted exactly when ext is
    "avi", "mjpeg" or "mjpg" in any mixture of cases, whatever the
    base; a name without '.' is rejected.  For such a name of at most
    63 characters the episode name that the scan records is the
    base. *)
Theorem is_video_file_extension :
  forall base ext : string,
    has_dot ext = false ->
    is_video_file (base ++ String "."%char ext)
    = (String.eqb (lower ext) "avi" || String.eqb (lower ext) "mjpeg"
       || String.eqb (lower ext) "mjpg") /\
    is_video_file ext = false /\
    ((String.length (base ++ String "."%char ext) <= 63)%nat ->
     forall stat_size channel_path ty,
       ep_name (make_episode stat_size channel_path
                  (mk_dirent (base ++ String "."%char ext) ty))
       = base).
Proof.
  intros base ext H. split; [|split].
  - unfold is_video_file. rewrite strrchr_dot_ext by exact H.
    unfold video_extensions, strcasecmp_eq. cbn [existsb].
    rewrite orb_false_r, orb_assoc.
    change (lower ".avi") with (String "."%char "avi").
    change (lower ".mjpeg") with (String "."%char "mjpeg").
    change (lower ".mjpg") with (String "."%char "mjpg").
    cbn [lower].
    assert (T : tolower "."%char = "."%char) by reflexivity.
    rewrite T.
    assert (E : forall s t, String.eqb (String "."%char s) (String "."%char t)
                            = String.eqb s t).
    { intros s t. cbn [String.eqb]. rewrite Ascii.eqb_refl. reflexivity. }
    rewrite !E. reflexivity.
  - unfold is_video_file, strrchr_dot.
    rewrite last_dot_from_none by exact H. reflexivity.
  - intros L stat_size channel_path ty.
    unfold make_episode. cbn [ep_name d_name].
    rewrite trunc_short by exact L.
    unfold cut_at_last_dot. rewrite last_dot_from_ext by exact H.
    cbn [Nat.add]. apply substring_head.
Qed.

Lemma is_video_file_extension_witness :
  is_video_file "holiday.2019.MjPeG" = true /\
  is_video_file "holiday.avi.txt" = false /\
  ep_name (make_episode demo_stat "/sdcard/channels/news"
             (mk_dirent "holiday.2019.MjPeG" DT_REG))
  = "holiday.2019"%string.
Proof.
  destruct (is_video_file_extension "holiday.2019" "MjPeG" eq_refl)
    as (A & _ & C).
  destruct (is_video_file_extension "holiday.avi" "txt" eq_refl)
    as (B & _).
  split; [exact A|]. split; [exact B|].
  apply (C ltac:(vm_compute; lia)).
Defined.

(** ** Header parsing on a laid-out container *)

Lemma parse_list_eq fuel' list_size :
  parse_list (S fuel') list_size
  = (list_type <- rd_fourcc ;;
     if list_type =? FOURCC_MOVI then
       off <- tell ;;
       modify (fun p => set_movi p (u32 off) (movi_size p)) ;;;
       modify (fun p => set_movi p (movi_offset p) (u32 (list_size - 4))) ;;;
       ret ESP_OK
     else list_chunks fuel' list_size fuel' 4).
Proof. reflexivity. Qed.

Lemma list_chunks_eq fuel' list_size n' bytes_read :
  list_chunks fuel' list_size (S n') bytes_read
  = if bytes_read <? u32 (list_size - 4) then
      fourcc <- rd_fourcc ;;
      size <- rd_le32 ;;
      (if fourcc =? FOURCC_AVIH then parse_avih size ;;; ret tt
       else if fourcc =? FOURCC_STRH then parse_strh size ;;; ret tt
       else if fourcc =? FOURCC_STRF then
         found <- get (fun p => vi_found (video_info p)) ;;
         if found : bool then parse_strf_video size ;;; ret tt
         else parse_strf_audio size ;;; ret tt
       else if fourcc =? FOURCC_LIST then parse_list fuel' size ;;; ret tt
       else seek_cur (to_long size)) ;;;
      if is_odd size then
        seek_cur 1 ;;;
        list_chunks fuel' list_size n' (u32 (u32 (u32 (bytes_read + 8) + size) + 1))
      else list_chunks fuel' list_size n' (u32 (u32 (bytes_read + 8) + size))
    else ret ESP_OK.
Proof. reflexivity. Qed.

Lemma list_chunks_done fuel' list_size n bytes_read :
  (bytes_read <? u32 (list_size - 4)) = false ->
  list_chunks fuel' list_size n bytes_read = ret ESP_OK.
Proof. intros H. destruct n; cbn [list_chunks]; rewrite H; reflexivity. Qed.

Lemma parse_avi_header_loop_eq fuel' :
  parse_avi_header_loop (S fuel')
  = (e <- at_eof ;;
     if e : bool then ret tt
     else
       fourcc <- rd_fourcc ;;
       e <- at_eof ;;
       if e : bool then ret tt
       else
         size <- rd_le32 ;;
         (if fourcc =? FOURCC_LIST then parse_list fuel' size ;;; ret tt
          else seek_cur (to_long size)) ;;;
         (if is_odd size then seek_cur 1 else ret tt) ;;;
         mo <- get movi_offset ;;
         if negb (mo =? 0) then ret tt
         else parse_avi_header_loop fuel').
Proof. reflexivity. Qed.

(** *** Running stream operations at a known position *)

Lemma run_at_eof {B} (k : bool -> M B) fp data pos mh vi ai mo ms cf tf ini :
  bind at_eof k
    (mk_parser (Some (mkFILE fp data pos false)) mh vi ai mo ms cf tf ini)
  = k false
      (mk_parser (Some (mkFILE fp data pos false)) mh vi ai mo ms cf tf ini).
Proof. reflexivity. Qed.

Lemma run_tell {B} (k : Z -> M B) fp data pos mh vi ai mo ms cf tf ini :
  bind tell k
    (mk_parser (Some (mkFILE fp data pos false)) mh vi ai mo ms cf tf ini)
  = k pos
      (mk_parser (Some (mkFILE fp data pos false)) mh vi ai mo ms cf tf ini).
Proof. reflexivity. Qed.

Lemma run_rd_le32 {B} (k : Z -> M B) fp data pos mh vi ai mo ms cf tf ini got :
  firstn 4 (skipn (Z.to_nat pos) data) = got ->
  length got = 4%nat ->
  bind rd_le32 k
    (mk_parser (Some (mkFILE fp data pos false)) mh vi ai mo ms cf tf ini)
  = k (word_of_bytes got)
      (mk_parser (Some (mkFILE fp data (pos + 4) false))
                 mh vi ai mo ms cf tf ini).
Proof.
  intros G L. unfold bind, rd_le32, on_file. cbn [file].
  rewrite read_le32_word. unfold fread. cbn [fpos fdata fpath feof fst snd].
  change (Z.to_nat 4) with 4%nat. rewrite G, L. reflexivity.
Qed.

Lemma run_rd_fourcc {B} (k : Z -> M B) fp data pos mh vi ai mo ms cf tf ini got :
  firstn 4 (skipn (Z.to_nat pos) data) = got ->
  length got = 4%nat ->
  bind rd_fourcc k
    (mk_parser (Some (mkFILE fp data pos false)) mh vi ai mo ms cf tf ini)
  = k (word_of_bytes got)
      (mk_parser (Some (mkFILE fp data (pos + 4) false))
                 mh vi ai mo ms cf tf ini).
Proof. exact (run_rd_le32 k fp data pos mh vi ai mo ms cf tf ini got). Qed.

Lemma run_rd_le16 {B} (k : Z -> M B) fp data pos mh vi ai mo ms cf tf ini b0 b1 :
  firstn 2 (skipn (Z.to_nat pos) data) = [b0; b1] ->
  bind rd_le16 k
    (mk_parser (Some (mkFILE fp data pos false)) mh vi ai mo ms cf tf ini)
  = k (le16 b0 b1)
      (mk_parser (Some (mkFILE fp data (pos + 2) false))
                 mh vi ai mo ms cf tf ini).
Proof.
  intros G. unfold bind, rd_le16, on_file, read_le16, fread.
  cbn [file fpos fdata fpath feof].
  change (Z.to_nat 2) with 2%nat. rewrite G. reflexivity.
Qed.

Lemma run_seek_cur {B} (k : unit -> M B) off fp data pos mh vi ai mo ms cf tf ini :
  (0 <=? pos + off) && (pos + off <=? LONG_MAX) = true ->
  bind (seek_cur off) k
    (mk_parser (Some (mkFILE fp data pos false)) mh vi ai mo ms cf tf ini)
  = k tt
      (mk_parser (Some (mkFILE fp data (pos + off) false))
                 mh vi ai mo ms cf tf ini).
Proof.
  intros G. unfold bind, seek_cur, on_file, fseek_cur.
  cbn [file fpos fdata fpath feof]. rewrite G. reflexivity.
Qed.

Lemma run_get {A B} (proj : avi_parser_t -> A) (k : A -> M B) p :
  bind (get proj) k p = k (proj p) p.
Proof. reflexivity. Qed.

Lemma run_modify {B} (g : avi_parser_t -> avi_parser_t) (k : unit -> M B) p :
  bind (modify g) k p = k tt (g p).
Proof. reflexivity. Qed.

Lemma run_ret {A B} (a : A) (k : A -> M B) p : bind (ret a) k p = k a p.
Proof. reflexivity. Qed.

Lemma run_assoc {A B C} (c : M A) (k1 : A -> M B) (k2 : B -> M C) p :
  bind (bind c k1) k2 p = bind c (fun a => bind (k1 a) k2) p.
Proof. unfold bind. destruct (c p) as [[a q]|]; reflexivity. Qed.

Lemma run_bind_ext {A B} (c c' : M A) (k : A -> M B) p :
  c p = c' p -> bind c k p = bind c' k p.
Proof. intros H. unfold bind. rewrite H. reflexivity. Qed.

Lemma list_chunks_step fuel' list_size n' bytes_read :
  (bytes_read <? u32 (list_size - 4)) = true ->
  list_chunks fuel' list_size (S n') bytes_read
  = (fourcc <- rd_fourcc ;;
     size <- rd_le32 ;;
     (if fourcc =? FOURCC_AVIH then parse_avih size ;;; ret tt
      else if fourcc =? FOURCC_STRH then parse_strh size ;;; ret tt
      else if fourcc =? FOURCC_STRF then
        found <- get (fun p => vi_found (video_info p)) ;;
        if found : bool then parse_strf_video size ;;; ret tt
        else parse_strf_audio size ;;; ret tt
      else if fourcc =? FOURCC_LIST then parse_list fuel' size ;;; ret tt
      else seek_cur (to_long size)) ;;;
     if is_odd size then
       seek_cur 1 ;;;
       list_chunks fuel' list_size n' (u32 (u32 (u32 (bytes_read + 8) + size) + 1))
     else list_chunks fuel' list_size n' (u32 (u32 (bytes_read + 8) + size))).
Proof. intros H. rewrite list_chunks_eq, H. reflexivity. Qed.

Ltac norm_state :=
  cbv beta;
  try unfold set_main_header; try unfold set_video_info;
  try unfold set_audio_info; try unfold set_movi;
  try unfold set_total_frames; try unfold set_current_frame;
  try unfold set_initialized; try unfold set_file;
  cbn [file main_header video_info audio_info movi_offset movi_size
       current_frame total_frames initialized
       micro_sec_per_frame max_bytes_per_sec mh_total_frames streams
       suggested_buffer_size mh_width mh_height
       vi_width vi_height bit_count compression vi_found
       format_tag channels samples_per_sec avg_bytes_per_sec block_align
       bits_per_sample ai_found word_of_bytes].

Ltac norm_pos :=
  lazymatch goal with
  | |- context [mkFILE ?fp ?data (?a + ?b) false] =>
    let v := eval vm_compute in (a + b) in
    change (mkFILE fp data (a + b) false) with (mkFILE fp data v false)
  end.

Ltac norm_word :=
  repeat match goal with
  | |- context [le32 ?a ?b ?c ?d] =>
    tryif is_var a then fail
    else (let v := eval vm_compute in (le32 a b c d) in
          change (le32 a b c d) with v)
  end.

Ltac run_if b :=
  tryif (lazymatch b with context [le32 _ _ _ _] => idtac end)
  then fail
  else (let v := eval vm_compute in b in
        lazymatch v with
        | true => change b with true; cbv iota
        | false => change b with false; cbv iota
        end).

Ltac run_step :=
  lazymatch goal with
  | |- bind (bind _ _) _ _ = _ => rewrite run_assoc
  | |- bind (ret _) _ _ = _ => rewrite run_ret; cbv beta
  | |- bind (get _) _ _ = _ => rewrite run_get; norm_state
  | |- bind (modify _) _ _ = _ => rewrite run_modify; norm_state
  | |- bind (upd_mh _) _ _ = _ => unfold upd_mh at 1
  | |- bind (upd_vi _) _ _ = _ => unfold upd_vi at 1
  | |- bind (upd_ai _) _ _ = _ => unfold upd_ai at 1
  | |- bind at_eof _ _ = _ => rewrite run_at_eof; cbv beta iota
  | |- bind tell _ _ = _ => rewrite run_tell; cbv beta
  | |- bind rd_le32 ?k
         (mk_parser (Some (mkFILE ?fp ?data ?pos false))
                    ?mh ?vi ?ai ?mo ?ms ?cf ?tf ?ini) = _ =>
    let got := eval vm_compute in (firstn 4 (skipn (Z.to_nat pos) data)) in
    rewrite (run_rd_le32 k fp data pos mh vi ai mo ms cf tf ini got
               ltac:(vm_compute; reflexivity) eq_refl);
    norm_state; norm_pos; norm_word
  | |- bind rd_fourcc ?k
         (mk_parser (Some (mkFILE ?fp ?data ?pos false))
                    ?mh ?vi ?ai ?mo ?ms ?cf ?tf ?ini) = _ =>
    let got := eval vm_compute in (firstn 4 (skipn (Z.to_nat pos) data)) in
    rewrite (run_rd_fourcc k fp data pos mh vi ai mo ms cf tf ini got
               ltac:(vm_compute; reflexivity) eq_refl);
    norm_state; norm_pos; norm_word
  | |- bind rd_le16 ?k
         (mk_parser (Some (mkFILE ?fp ?data ?pos false))
                    ?mh ?vi ?ai ?mo ?ms ?cf ?tf ?ini) = _ =>
    let got := eval vm_compute in (firstn 2 (skipn (Z.to_nat pos) data)) in
    lazymatch got with
    | [?b0; ?b1] =>
      let v := eval vm_compute in (le16 b0 b1) in
      rewrite (run_rd_le16 k fp data pos mh vi ai mo ms cf tf ini b0 b1
                 ltac:(vm_compute; reflexivity));
      change (le16 b0 b1) with v;
      norm_state; norm_pos
    end
  | |- bind (seek_cur ?off) ?k
         (mk_parser (Some (mkFILE ?fp ?data ?pos false))
                    ?mh ?vi ?ai ?mo ?ms ?cf ?tf ?ini) = _ =>
    let o := eval vm_compute in off in
    change off with o;
    rewrite (run_seek_cur k o fp data pos mh vi ai mo ms cf tf ini
               ltac:(vm_compute; reflexivity));
    cbv beta; norm_pos
  | |- bind (skip_remaining _ _) _ _ = _ => unfold skip_remaining at 1; cbv zeta
  | |- bind (if ?b then _ else _) _ _ = _ => run_if b
  | |- bind (parse_avih _) _ _ = _ => unfold parse_avih at 1
  | |- bind (parse_strh _) _ _ = _ => unfold parse_strh at 1
  | |- bind (parse_strf_audio _) _ _ = _ => unfold parse_strf_audio at 1
  | |- bind (parse_strf_video _) _ _ = _ => unfold parse_strf_video at 1
  | |- bind (parse_list (S ?f) ?sz) _ _ = _ => rewrite (parse_list_eq f sz)
  | |- bind (list_chunks ?f ?ls ?n ?b) _ _ = _ =>
    let c := eval vm_compute in (b <? u32 (ls - 4)) in
    lazymatch c with
    | true =>
      lazymatch n with
      | S ?n' =>
        rewrite (list_chunks_step f ls n' b ltac:(vm_compute; reflexivity))
      end
    | false =>
      rewrite (list_chunks_done f ls n b ltac:(vm_compute; reflexivity))
    end
  | |- bind (parse_avi_header_loop (S ?f)) _ _ = _ =>
    rewrite (parse_avi_header_loop_eq f)
  | |- (if ?b then _ else _) _ = _ => run_if b
  end.

(** Header parsing on an image given by its bytes. *)
Lemma parse_avi_header_image_bytes (k : nat) (fp : string)
    (r0 r1 r2 r3 u0 u1 u2 u3 n0 n1 n2 n3 w0 w1 w2 w3 h0 h1 h2 h3
     m0 m1 m2 m3 : byte) (movi : list byte) :
  let data := image_bytes [r0; r1; r2; r3] [u0; u1; u2; u3] [n0; n1; n2; n3]
                          [w0; w1; w2; w3] [h0; h1; h2; h3] [m0; m1; m2; m3]
                          movi in
  parse_avi_header (S (S (S (S (S k)))))
    (set_file zero_parser (Some (mkFILE fp data 0 false)))
  = Some (ESP_OK,
          mk_parser
            (Some (mkFILE fp data
                     (if is_odd (le32 m0 m1 m2 m3) then 225 else 224) false))
            (mk_main_header (le32 u0 u1 u2 u3) 0 (le32 n0 n1 n2 n3) 1 0
                            (le32 w0 w1 w2 w3) (le32 h0 h1 h2 h3))
            (mk_video_info 0 0 0 0 false)
            (mk_audio_info 40 0 (le32 w0 w1 w2 w3) (le32 h0 h1 h2 h3)
                           1 24 false)
            224 (u32 (le32 m0 m1 m2 m3 - 4)) 0 (le32 n0 n1 n2 n3) false).
Proof.
  intros data.
  unfold parse_avi_header, zero_parser. norm_state.
  repeat run_step.
  destruct (is_odd (le32 m0 m1 m2 m3)).
  - repeat run_step. reflexivity.
  - repeat run_step. reflexivity.
Qed.

Lemma avi_image_bytes us n w h movi :
  avi_image us n w h movi
  = image_bytes
      (le32_bytes (Z.of_nat (length (le32_bytes FOURCC_AVI
         ++ hdrl_bytes (le32_bytes us) (le32_bytes n) (le32_bytes w)
                       (le32_bytes h)
         ++ riff_list FOURCC_MOVI movi))))
      (le32_bytes us) (le32_bytes n) (le32_bytes w) (le32_bytes h)
      (le32_bytes (4 + Z.of_nat (length movi))) movi.
Proof. reflexivity. Qed.

Lemma avi_image_split us n w h movi :
  avi_image us n w h movi = firstn 224 (avi_image us n w h movi) ++ movi /\
  length (firstn 224 (avi_image us n w h movi)) = 224%nat.
Proof.
  assert (S : skipn 224 (avi_image us n w h movi) = movi) by reflexivity.
  assert (L : length (firstn 224 (avi_image us n w h movi)) = 224%nat)
    by reflexivity.
  split; [|exact L].
  rewrite <- S at 3. symmetry. apply firstn_skipn.
Qed.

Lemma length_avi_image us n w h movi :
  length (avi_image us n w h movi) = (224 + length movi)%nat.
Proof.
  destruct (avi_image_split us n w h movi) as (E & L).
  rewrite E, length_app, L. reflexivity.
Qed.

(** Opening a laid-out container. *)
Lemma avi_parser_open_image fs fuel log p0 fp us n w h movi :
  fs fp = Some (avi_image us n w h movi) ->
  0 <= us < 2^32 -> 0 <= n < 2^32 -> 0 <= w < 2^32 -> 0 <= h < 2^32 ->
  Z.of_nat (length movi) + 4 < 2^32 ->
  (5 <= fuel)%nat ->
  avi_parser_open fs fuel log (Some p0) (Some fp)
  = Some (ESP_OK,
          Some (mk_parser
                  (Some (mkFILE fp (avi_image us n w h movi) 224 false))
                  (mk_main_header us 0 n 1 0 w h)
                  (mk_video_info 0 0 0 0 false)
                  (mk_audio_info 40 0 w h 1 24 false)
                  224 (Z.of_nat (length movi)) 0 n true),
          log ++ [EvOpen fp]).
Proof.
  intros Hfs Hus Hn Hw Hh Hm Hfuel.
  destruct fuel as [|[|[|[|[|k]]]]]; try lia.
  unfold avi_parser_open, fopen. rewrite Hfs.
  set (rsz := Z.of_nat (length (le32_bytes FOURCC_AVI
         ++ hdrl_bytes (le32_bytes us) (le32_bytes n) (le32_bytes w)
                       (le32_bytes h)
         ++ riff_list FOURCC_MOVI movi))).
  set (msz := 4 + Z.of_nat (length movi)).
  pose proof (parse_avi_header_image_bytes k fp
    (byte_of_Z rsz) (byte_of_Z (Z.shiftr rsz 8))
    (byte_of_Z (Z.shiftr rsz 16)) (byte_of_Z (Z.shiftr rsz 24))
    (byte_of_Z us) (byte_of_Z (Z.shiftr us 8))
    (byte_of_Z (Z.shiftr us 16)) (byte_of_Z (Z.shiftr us 24))
    (byte_of_Z n) (byte_of_Z (Z.shiftr n 8))
    (byte_of_Z (Z.shiftr n 16)) (byte_of_Z (Z.shiftr n 24))
    (byte_of_Z w) (byte_of_Z (Z.shiftr w 8))
    (byte_of_Z (Z.shiftr w 16)) (byte_of_Z (Z.shiftr w 24))
    (byte_of_Z h) (byte_of_Z (Z.shiftr h 8))
    (byte_of_Z (Z.shiftr h 16)) (byte_of_Z (Z.shiftr h 24))
    (byte_of_Z msz) (byte_of_Z (Z.shiftr msz 8))
    (byte_of_Z (Z.shiftr msz 16)) (byte_of_Z (Z.shiftr msz 24))
    movi) as P.
  cbv zeta in P.
  change (image_bytes _ _ _ _ _ _ movi) with (avi_image us n w h movi) in P.
  rewrite P. clear P.
  rewrite !le32_of_le32_bytes by (subst msz; lia).
  cbn [esp_err_is_ok negb movi_offset].
  change (to_long 224) with 224.
  unfold seek_set, on_file, fseek_set. cbn [file fpath fdata fpos].
  change ((0 <=? 224) && (224 <=? LONG_MAX)) with true. cbv iota.
  unfold set_initialized, set_current_frame, set_file.
  cbn [file main_header video_info audio_info movi_offset movi_size
       current_frame total_frames initialized snd].
  replace (u32 (msz - 4)) with (Z.of_nat (length movi)).
  2:{ subst msz. unfold u32. rewrite Z.mod_small by lia. lia. }
  reflexivity.
Qed.

(** X26. For a container laid out as a RIFF/AVI envelope, a header list
    with the main header and one video stream, and the payload list,
    avi_parser_open returns ESP_OK and the handle holds the frame
    interval, the frame total and the image size of the main header;
    the payload offset is 224 and the payload size the length of the
    payload; the stream stands at the payload.  The stream format is
    parsed by the audio routine, so no video format is recorded and the
    audio record holds the first sixteen bytes of the bitmap header
    (format tag 40, sample rate w, byte rate h, block align 1, 24
    bits). *)
Theorem avi_parser_open_reads_header :
  forall fs fuel log p0 fp us n w h movi,
    fs fp = Some (avi_image us n w h movi) ->
    0 <= us < 2^32 -> 0 <= n < 2^32 -> 0 <= w < 2^32 -> 0 <= h < 2^32 ->
    Z.of_nat (length movi) + 4 < 2^32 ->
    (5 <= fuel)%nat ->
    avi_parser_open fs fuel log (Some p0) (Some fp)
    = Some (ESP_OK,
            Some (mk_parser
                    (Some (mkFILE fp (avi_image us n w h movi) 224 false))
                    (mk_main_header us 0 n 1 0 w h)
                    (mk_video_info 0 0 0 0 false)
                    (mk_audio_info 40 0 w h 1 24 false)
                    224 (Z.of_nat (length movi)) 0 n true),
            log ++ [EvOpen fp]).
Proof. exact avi_parser_open_image. Qed.

Lemma avi_parser_open_reads_header_witness :
  avi_parser_open demo_fs demo_fuel [] (Some zero_parser) (Some slides_path)
  = Some (ESP_OK,
          Some (mk_parser
                  (Some (mkFILE slides_path
                           (avi_image 2400000000 3 240 240 demo_movi)
                           224 false))
                  (mk_main_header 2400000000 0 3 1 0 240 240)
                  (mk_video_info 0 0 0 0 false)
                  (mk_audio_info 40 0 240 240 1 24 false)
                  224 (Z.of_nat (length demo_movi)) 0 3 true),
          [] ++ [EvOpen slides_path]).
Proof.
  apply (avi_parser_open_reads_header demo_fs demo_fuel [] zero_parser
           slides_path 2400000000 3 240 240 demo_movi).
  - vm_compute. reflexivity.
  - lia.
  - lia.
  - lia.
  - lia.
  - vm_compute. reflexivity.
  - vm_compute. lia.
Defined.

(** X27. End to end: for such a container whose payload is a sequence
    of chunks, avi_parser_open, then avi_parser_seek to [k], then
    avi_parser_read_video_frame all return ESP_OK, and the frame
    delivered holds the data of chunk number [k] (from 0) among those
    whose tag the video test accepts, with index [k] and the timestamp
    computed from [k] and the frame interval of the header.  (The file
    does not exceed LONG_MAX bytes, allocations are granted and the
    iteration budget covers the header and the chunks.) *)
Theorem open_seek_read_frame :
  forall fs malloc_ok fuel log p0 fp us n w h cs k payload fr,
    fs fp = Some (avi_image us n w h (chunks_bytes cs)) ->
    0 <= us < 2^32 -> 0 <= n < 2^32 -> 0 <= w < 2^32 -> 0 <= h < 2^32 ->
    Z.of_nat (length (avi_image us n w h (chunks_bytes cs))) <= LONG_MAX ->
    tags_in_range cs ->
    (forall d, In d (video_payloads cs) ->
               malloc_ok (Z.of_nat (length d)) = true) ->
    (5 <= fuel)%nat -> (length cs < fuel)%nat ->
    nth_error (video_payloads cs) k = Some payload ->
    exists a p1 p2,
      avi_parser_open fs fuel log (Some p0) (Some fp)
        = Some (ESP_OK, Some a, log ++ [EvOpen fp]) /\
      avi_parser_seek malloc_ok fuel (Some a) (Z.of_nat k)
        = Some (ESP_OK, Some p1) /\
      avi_parser_read_video_frame malloc_ok fuel (Some p1) (Some fr)
        = Some (ESP_OK, Some p2,
                Some (mk_frame (Block payload) (Z.of_nat (length payload))
                        (Z.of_nat k)
                        (frame_timestamp_ms (Z.of_nat k) us))) /\
      current_frame p2 = Z.of_nat k + 1.
Proof.
  intros fs malloc_ok fuel log p0 fp us n w h cs k payload fr
         Hfs Hus Hn Hw Hh HL Rg Hm Hf5 Hfc Hk.
  pose proof (length_avi_image us n w h (chunks_bytes cs)) as Li.
  assert (Hmv : Z.of_nat (length (chunks_bytes cs)) + 4 < 2^32).
  { unfold LONG_MAX in HL. lia. }
  pose proof (avi_parser_open_image fs fuel log p0 fp us n w h
                (chunks_bytes cs) Hfs Hus Hn Hw Hh Hmv Hf5) as Ho.
  set (a := mk_parser _ _ _ _ _ _ _ _ _) in Ho.
  destruct (avi_image_split us n w h (chunks_bytes cs)) as (E & L).
  destruct (seek_then_read_chunks malloc_ok fuel a
              (mkFILE fp (avi_image us n w h (chunks_bytes cs)) 224 false)
              (firstn 224 (avi_image us n w h (chunks_bytes cs)))
              cs [] k payload fr)
    as (p1 & p2 & S1 & _ & R1 & C2 & _); try assumption; try reflexivity.
  - cbn [fdata]. rewrite app_nil_r. exact E.
  - exists a, p1, p2. split; [exact Ho|]. split; [exact S1|].
    split; [exact R1|exact C2].
Qed.

Lemma open_seek_read_frame_witness :
  exists a p1 p2,
    avi_parser_open demo_fs demo_fuel [] (Some zero_parser) (Some demo_path)
      = Some (ESP_OK, Some a, [] ++ [EvOpen demo_path]) /\
    avi_parser_seek always_grant demo_fuel (Some a) (Z.of_nat 3)
      = Some (ESP_OK, Some p1) /\
    avi_parser_read_video_frame always_grant demo_fuel (Some p1)
      (Some blank_frame)
      = Some (ESP_OK, Some p2,
              Some (mk_frame (Block (bytes_of [0xFF; 0xD8; 4; 0xFF; 0xD9]))
                      (Z.of_nat (length (bytes_of [0xFF; 0xD8; 4; 0xFF; 0xD9])))
                      (Z.of_nat 3)
                      (frame_timestamp_ms (Z.of_nat 3) 66667))) /\
    current_frame p2 = Z.of_nat 3 + 1.
Proof.
  apply (open_seek_read_frame demo_fs always_grant demo_fuel [] zero_parser
           demo_path 66667 150 240 240 demo_chunks 3
           (bytes_of [0xFF; 0xD8; 4; 0xFF; 0xD9]) blank_frame).
  - vm_compute. reflexivity.
  - lia.
  - lia.
  - lia.
  - lia.
  - vm_compute. intros C. discriminate C.
  - repeat constructor; cbn [fst]; unfold TAG_DC00, TAG_WB01; lia.
  - intros d _. reflexivity.
  - vm_compute. lia.
  - vm_compute. lia.
  - vm_compute. reflexivity.
Defined.

(** ** The frame rate *)

Lemma div_nearest_even_bounds (a b : Z) :
  a / b <= div_nearest_even a b <= a / b + 1 /\
  (div_nearest_even a b = a / b + 1 -> b <= 2 * (a mod b)).
Proof.
  unfold div_nearest_even. cbv zeta.
  destruct (2 * (a mod b) <? b) eqn:L1.
  - split; [lia|]. intros C. lia.
  - apply Z.ltb_ge in L1.
    destruct (b <? 2 * (a mod b)); [split; [lia|auto]|].
    destruct (Z.even (a / b)); split; try lia; auto.
Qed.

Lemma div_nearest_even_one (a : Z) : div_nearest_even a 1 = a.
Proof.
  unfold div_nearest_even. cbv zeta.
  rewrite Z.mod_1_r, Z.div_1_r. reflexivity.
Qed.

(** Rounding the scaled quotient does not reach the next integer. *)
Lemma div_nearest_even_scaled (us s c : Z) :
  0 < us -> 0 < c -> 0 <= s -> us < 2^(s + 1) ->
  div_nearest_even (1000000 * 2^s * c) (us * c) / 2^s = 1000000 / us.
Proof.
  intros Hus Hc Hs Hlt.
  assert (P0 : 0 < 2^s) by (apply Z.pow_pos_nonneg; lia).
  rewrite Z.pow_add_r in Hlt by lia. change (2^1) with 2 in Hlt.
  set (P := 2^s) in *.
  destruct (div_nearest_even_bounds (1000000 * P * c) (us * c)) as ((B1 & B2) & B3).
  rewrite Z.div_mul_cancel_r in B1, B2, B3 by lia.
  rewrite Z.mul_mod_distr_r in B3 by lia.
  set (r := div_nearest_even (1000000 * P * c) (us * c)) in *.
  pose proof (Z.div_mod (1000000 * P) us ltac:(lia)) as DA.
  pose proof (Z.mod_pos_bound (1000000 * P) us Hus) as RA.
  pose proof (Z.div_mod 1000000 us ltac:(lia)) as DQ.
  pose proof (Z.mod_pos_bound 1000000 us Hus) as RQ.
  set (qa := 1000000 * P / us) in *. set (ra := (1000000 * P) mod us) in *.
  set (q := 1000000 / us) in *. set (t := 1000000 mod us) in *.
  assert (L1 : q * P <= qa) by nia.
  assert (L2 : qa < (q + 1) * P) by nia.
  symmetry. apply (Z.div_unique_pos r P q (r - q * P)); [|lia].
  split; [lia|].
  destruct (Z.eq_dec r (qa + 1)) as [E|E]; [|lia].
  specialize (B3 E).
  assert (B4 : us <= 2 * ra) by nia.
  destruct (Z_lt_le_dec (qa + 1) ((q + 1) * P)) as [G|G]; [lia|].
  exfalso.
  assert (K1 : (us - t) * P <= us - ra) by nia.
  assert (K2 : P <= (us - t) * P) by nia.
  lia.
Qed.

Lemma float32_of_Z_exact (us : Z) :
  0 < us < 2^24 ->
  float32_of_Z us
  = mk_float32 (us * 2^(23 - Z.log2 us)) (Z.log2 us - 23).
Proof.
  intros H. unfold float32_of_Z.
  assert (N : (us =? 0) = false) by (apply Z.eqb_neq; lia).
  rewrite N. unfold float32_round. cbv zeta.
  change (Z.log2 1) with 0. rewrite Z.sub_0_r.
  pose proof (Z.log2_nonneg us) as L0.
  assert (L1 : Z.log2 us < 24) by (apply Z.log2_lt_pow2; lia).
  pose proof (Z.log2_spec us ltac:(lia)) as Sp.
  assert (A : (0 <=? Z.log2 us) = true) by (apply Z.leb_le; lia).
  rewrite A.
  assert (B : (1 * 2^Z.log2 us <=? us) = true) by (apply Z.leb_le; lia).
  rewrite B.
  destruct (0 <=? Z.log2 us - 23) eqn:E.
  - apply Z.leb_le in E. assert (L : Z.log2 us = 23) by lia.
    rewrite L. change (23 - 23) with 0. change (2^0) with 1.
    change (1 * 1) with 1. rewrite div_nearest_even_one. f_equal. lia.
  - replace (- (Z.log2 us - 23)) with (23 - Z.log2 us) by lia.
    rewrite div_nearest_even_one. reflexivity.
Qed.

(** The integer part of the single-precision quotient of two scaled
    operands. *)
Lemma float32_round_trunc (us c : Z) :
  16 <= us < 2^24 -> 0 < c ->
  float32_trunc (float32_round (1000000 * c) (us * c)) = 1000000 / us.
Proof.
  intros Hus Hc.
  pose proof (Z.log2_spec us ltac:(lia)) as Sp.
  assert (L4 : 4 <= Z.log2 us).
  { change 4 with (Z.log2 16). apply Z.log2_le_mono. lia. }
  assert (Lc : 0 <= Z.log2 c) by apply Z.log2_nonneg.
  pose proof (Z.log2_mul_below 1000000 c ltac:(lia) Hc) as M1.
  pose proof (Z.log2_mul_above 1000000 c ltac:(lia) ltac:(lia)) as M2.
  pose proof (Z.log2_mul_below us c ltac:(lia) Hc) as U1.
  pose proof (Z.log2_mul_above us c ltac:(lia) ltac:(lia)) as U2.
  change (Z.log2 1000000) with 19 in M1, M2.
  unfold float32_round. cbv zeta.
  set (k := Z.log2 (1000000 * c) - Z.log2 (us * c)).
  assert (K : 18 - Z.log2 us <= k <= 20 - Z.log2 us) by (subst k; lia).
  set (g := if 0 <=? k then us * c * 2^k <=? 1000000 * c
            else us * c <=? 1000000 * c * 2^(- k)).
  set (e := (if g then k else k - 1) - 23).
  assert (E : e = k - 23 \/ e = k - 24) by (subst e; destruct g; lia).
  assert (En : (0 <=? e) = false) by (apply Z.leb_gt; lia).
  rewrite En. unfold float32_trunc. cbn [f_exp f_mant]. rewrite En.
  replace (1000000 * c * 2^(- e)) with (1000000 * 2^(- e) * c) by lia.
  apply div_nearest_even_scaled; try lia.
  apply Z.lt_le_trans with (2^(Z.succ (Z.log2 us))); [lia|].
  apply Z.pow_le_mono_r; lia.
Qed.

(** The frame rate field computed from a frame interval. *)
Lemma fps_field_floor (us : Z) :
  16 <= us < 2^24 ->
  uint16_of_float32 (float32_div (float32_of_Z 1000000) (float32_of_Z us))
  = 1000000 / us.
Proof.
  intros Hus.
  assert (R : 0 <= 1000000 / us < 2^16).
  { split; [apply Z.div_pos; lia|].
    apply Z.div_lt_upper_bound; lia. }
  assert (T : float32_trunc
                (float32_div (float32_of_Z 1000000) (float32_of_Z us))
              = 1000000 / us).
  { rewrite (float32_of_Z_exact us) by lia.
    change (float32_of_Z 1000000) with (mk_float32 16000000 (-4)).
    pose proof (Z.log2_nonneg us) as L0.
    assert (L1 : Z.log2 us < 24) by (apply Z.log2_lt_pow2; lia).
    unfold float32_div. cbn [f_exp f_mant]. cbv zeta.
    destruct (0 <=? -4 - (Z.log2 us - 23)) eqn:D.
    - apply Z.leb_le in D.
      replace (16000000 * 2^(-4 - (Z.log2 us - 23)))
        with (1000000 * 2^(23 - Z.log2 us)).
      + apply float32_round_trunc; [lia|].
        apply Z.pow_pos_nonneg; lia.
      + replace (23 - Z.log2 us) with (4 + (-4 - (Z.log2 us - 23))) by lia.
        rewrite Z.pow_add_r by lia. change (2^4) with 16. lia.
    - apply Z.leb_gt in D.
      replace (us * 2^(23 - Z.log2 us) * 2^(- (-4 - (Z.log2 us - 23))))
        with (us * 16).
      + change 16000000 with (1000000 * 16).
        apply float32_round_trunc; lia.
      + rewrite <- Z.mul_assoc, <- Z.pow_add_r by lia.
        replace (23 - Z.log2 us + - (-4 - (Z.log2 us - 23))) with 4 by lia.
        reflexivity. }
  unfold uint16_of_float32. rewrite T.
  unfold u16. apply Z.mod_small. exact R.
Qed.

(** X28. After a successful video_player_open on a container whose
    frame interval is between 16 and 16777215 microseconds, the frame
    rate reported is 1000000 divided by the interval, rounded down (the
    single-precision quotient never reaches the next integer), or 15
    when that is 0, that is for intervals above one second; the
    duration is the frame count divided by this rate. *)
Theorem video_player_open_fps :
  forall fs fuel log pl fp pl' log',
    video_player_open fs fuel log (Some pl) (Some fp)
      = Some (ESP_OK, Some pl', log') ->
    16 <= micro_sec_per_frame (main_header (avi_parser pl')) < 2^24 ->
    fps (info pl')
    = (if micro_sec_per_frame (main_header (avi_parser pl')) <=? 1000000
       then 1000000 / micro_sec_per_frame (main_header (avi_parser pl'))
       else 15) /\
    duration_sec (info pl') = total_frames (avi_parser pl') / fps (info pl').
Proof.
  intros fs fuel log pl fp pl' log' H Hus.
  pose proof (video_player_open_ok _ _ _ _ _ _ _ H) as K. cbv zeta in K.
  destruct K as (_ & _ & _ & _ & F & _ & D & _).
  set (us := micro_sec_per_frame (main_header (avi_parser pl'))) in *.
  assert (Q : uint16_of_float32 (avi_parser_get_fps (Some (avi_parser pl')))
              = 1000000 / us).
  { unfold avi_parser_get_fps. fold us.
    assert (N : (us =? 0) = false) by (apply Z.eqb_neq; lia).
    rewrite N. apply fps_field_floor. exact Hus. }
  rewrite Q in F, D.
  assert (V : (if 1000000 / us =? 0 then 15 else 1000000 / us)
              = (if us <=? 1000000 then 1000000 / us else 15)).
  { destruct (us <=? 1000000) eqn:L.
    - apply Z.leb_le in L.
      assert (P : 1 <= 1000000 / us) by (apply Z.div_le_lower_bound; lia).
      assert (N : (1000000 / us =? 0) = false) by (apply Z.eqb_neq; lia).
      rewrite N. reflexivity.
    - apply Z.leb_gt in L. rewrite Z.div_small by lia. reflexivity. }
  rewrite F, V. split; [reflexivity|].
  rewrite D. f_equal.
  destruct (us <=? 1000000) eqn:L.
  - apply Z.leb_le in L.
    assert (P : 1 <= 1000000 / us) by (apply Z.div_le_lower_bound; lia).
    assert (N : (0 <? 1000000 / us) = true) by (apply Z.ltb_lt; lia).
    rewrite N. reflexivity.
  - apply Z.leb_gt in L. rewrite Z.div_small by lia. reflexivity.
Qed.

Lemma video_player_open_fps_witness :
  fps (info (player_after_open demo_player other_path)) = 25 /\
  duration_sec (info (player_after_open demo_player other_path)) = 0.
Proof.
  destruct (video_player_open_fps demo_fs demo_fuel [] demo_player other_path
              (player_after_open demo_player other_path)
              [EvOpen other_path]) as (F & D).
  - vm_compute. reflexivity.
  - vm_compute. split; [intros C; discriminate C|reflexivity].
  - split; [rewrite F|rewrite D, F]; vm_compute; reflexivity.
Defined.

(* ------------------------------------------------------------------ *)
(** *** Initialisation of the channel manager *)

Lemma manager_ok_shape m : manager_ok m -> manager_shape m.
Proof. intros (L & F & _). split; assumption. Qed.

Lemma manager_view_count m :
  manager_ok m ->
  channel_count m = Z.of_nat (length (manager_view m)).
Proof.
  intros (L & _ & B & _). unfold manager_view.
  rewrite length_map, length_firstn, L.
  unfold MAX_CHANNELS in *. lia.
Qed.

(** X29. channel_manager_init discards what the manager held and scans
    the medium: it returns ESP_OK with the channels of the medium as
    the channels in use, and channel_manager_get_channel_count then
    reports their number.  The scan that the application makes right
    after the initialisation finds the same channels again.  On a
    medium without a channel the getters yield NULL, the three
    navigation calls return ESP_FAIL and channel_manager_set_channel
    returns ESP_ERR_INVALID_ARG for every index, all without changing
    the manager. *)
Theorem channel_manager_init_fresh :
  forall opendir stat_size m,
    let made := match opendir CHANNELS_ROOT with
                | None => true
                | Some _ => false
                end in
    exists m',
      channel_manager_init opendir stat_size (Some m)
      = Some (ESP_OK, Some m', made) /\
      manager_view m' = listed_channels opendir stat_size /\
      manager_ok m' /\
      channel_manager_get_channel_count (Some m')
      = Z.of_nat (length (listed_channels opendir stat_size)) /\
      (exists m'',
          channel_manager_scan opendir stat_size (Some m')
          = Some (ESP_OK, Some m'', made) /\
          manager_view m'' = manager_view m' /\
          current_channel m'' = current_channel m') /\
      (listed_channels opendir stat_size = [] ->
       channel_manager_get_current (Some m') = PNull /\
       channel_manager_get_current_episode (Some m') = PNull /\
       channel_manager_next_channel (Some m') = (ESP_FAIL, Some m') /\
       channel_manager_prev_channel (Some m') = (ESP_FAIL, Some m') /\
       channel_manager_next_episode (Some m') = Some (ESP_FAIL, Some m') /\
       forall idx,
         0 <= idx ->
         channel_manager_set_channel (Some m') idx
         = (ESP_ERR_INVALID_ARG, Some m')).
Proof.
  intros opendir stat_size m made.
  destruct (channel_manager_scan_view opendir stat_size zero_manager
              manager_shape_zero) as (m' & R & Vw & Ok & Cur).
  exists m'. unfold channel_manager_init.
  split; [exact R|]. split; [exact Vw|]. split; [exact Ok|].
  assert (Cnt : channel_count m'
                = Z.of_nat (length (listed_channels opendir stat_size))).
  { rewrite <- Vw. apply manager_view_count, Ok. }
  split; [exact Cnt|]. split.
  - destruct (channel_manager_scan_view opendir stat_size m'
                (manager_ok_shape m' Ok)) as (m'' & R2 & Vw2 & _ & Cur2).
    exists m''. split; [exact R2|]. split; congruence.
  - intros E. rewrite E in Cnt. cbn [length Z.of_nat] in Cnt.
    unfold channel_manager_get_current_episode, channel_manager_get_current,
      channel_manager_next_channel, channel_manager_prev_channel,
      channel_manager_next_episode, channel_manager_set_channel.
    rewrite Cnt. cbn [Z.eqb].
    repeat split.
    intros idx Hi. destruct (Z.leb_spec 0 idx) as [_|C]; [reflexivity|lia].
Qed.

Lemma channel_manager_init_fresh_witness :
  (exists m',
      channel_manager_init demo_opendir demo_stat (Some demo_manager)
      = Some (ESP_OK, Some m', false) /\
      channel_manager_get_channel_count (Some m') = 2) /\
  (exists m',
      channel_manager_init (fun _ => None) demo_stat (Some demo_manager)
      = Some (ESP_OK, Some m', true) /\
      channel_manager_next_channel (Some m') = (ESP_FAIL, Some m')).
Proof.
  split.
  - destruct (channel_manager_init_fresh demo_opendir demo_stat demo_manager)
      as (m' & R & _ & _ & C & _).
    exists m'. split; [exact R | exact C].
  - destruct (channel_manager_init_fresh (fun _ => None) demo_stat
                demo_manager) as (m' & R & _ & _ & _ & _ & E).
    exists m'. split; [exact R|]. apply (E eq_refl).
Defined.

(* ------------------------------------------------------------------ *)
(** *** Life cycle of the audio player *)

Section LifeCycle.

Variable driver : Type.

(** The number of I2S channels the driver holds. *)
Variable live : driver -> Z.

Variable new_channel : driver -> esp_err_t * Z * driver.
Variable init_std_mode : Z -> audio_config_t -> driver -> esp_err_t * driver.
Variable del_channel : Z -> driver -> driver.
Variables enable disable : Z -> driver -> esp_err_t * driver.

(** A successful creation adds one channel and yields a non-null
    handle, a failed one adds none; a deletion removes one; the other
    calls create and delete nothing. *)
Hypothesis new_channel_live : forall d,
  live (snd (new_channel d))
  = if esp_err_is_ok (fst (fst (new_channel d))) then live d + 1 else live d.
Hypothesis new_channel_handle : forall d,
  esp_err_is_ok (fst (fst (new_channel d))) = true ->
  snd (fst (new_channel d)) <> 0.
Hypothesis init_std_mode_live : forall h c d,
  live (snd (init_std_mode h c d)) = live d.
Hypothesis del_channel_live : forall h d,
  live (del_channel h d) = live d - 1.
Hypothesis enable_live : forall h d, live (snd (enable h d)) = live d.
Hypothesis disable_live : forall h d, live (snd (disable h d)) = live d.

Lemma audio_step_live op pl d r pl' d' :
  audio_step enable disable op pl d = (r, pl', d') ->
  live d' = live d /\
  exists q, pl' = Some q /\
            a_initialized q = a_initialized pl /\
            tx_handle q = tx_handle pl.
Proof.
  intros H.
  assert (Same : forall r0, (r0, Some pl, d) = (r, pl', d') ->
            live d' = live d /\
            exists q, pl' = Some q /\
                      a_initialized q = a_initialized pl /\
                      tx_handle q = tx_handle pl).
  { intros r0 E. injection E as _ <- <-. split; [reflexivity|].
    exists pl. auto. }
  destruct op; cbn [audio_step] in H;
    unfold audio_player_start, audio_player_stop, audio_player_pause,
           audio_player_resume in H;
    destruct (a_initialized pl) eqn:I; cbn [negb] in H;
    try exact (Same _ H);
    destruct (a_state pl);
    try exact (Same _ H).
  all: match type of H with
       | context [enable ?h ?x] =>
         pose proof (enable_live h x) as Sp;
         destruct (enable h x) as [r0 d0]
       | context [disable ?h ?x] =>
         pose proof (disable_live h x) as Sp;
         destruct (disable h x) as [r0 d0]
       end;
       cbn [snd] in Sp;
       destruct (esp_err_is_ok r0); cbn [negb] in H;
       injection H as _ <- <-; (split; [exact Sp|]);
       eexists; (split; [reflexivity|]);
       (split; [cbn [a_initialized set_a_state]; exact I | reflexivity]).
Qed.

Lemma audio_run_live ops : forall pl d pl' d',
  audio_run enable disable ops pl d = (pl', d') ->
  live d' = live d /\
  a_initialized pl' = a_initialized pl /\
  tx_handle pl' = tx_handle pl.
Proof.
  induction ops as [|op ops IH]; intros pl d pl' d' H; cbn [audio_run] in H.
  - inversion H; subst. auto.
  - destruct (audio_step enable disable op pl d) as [[r q] d1] eqn:St.
    destruct (audio_step_live _ _ _ _ _ _ St) as (L & q0 & -> & I & T).
    destruct (IH _ _ _ _ H) as (L' & I' & T').
    repeat split; congruence.
Qed.

Lemma audio_player_clear_buffer_live pl d :
  live (snd (audio_player_clear_buffer driver enable disable (Some pl) d))
  = live d.
Proof.
  unfold audio_player_clear_buffer.
  destruct (a_initialized pl); cbn [negb snd]; [|reflexivity].
  destruct (a_state pl); rewrite ?enable_live, ?disable_live; reflexivity.
Qed.

Lemma audio_player_deinit_live pl d :
  a_initialized pl = true ->
  tx_handle pl <> 0 ->
  live (audio_player_deinit driver del_channel disable (Some pl) d)
  = live d - 1.
Proof.
  intros I T. unfold audio_player_deinit. rewrite I.
  destruct (audio_player_stop driver disable (Some pl) d) as [[r q] d1] eqn:St.
  destruct (audio_step_live OpStop pl d r q d1 St) as (L & _).
  destruct (Z.eqb_spec (tx_handle pl) 0) as [E|_]; [contradiction|].
  rewrite del_channel_live. lia.
Qed.

Lemma audio_player_life_cycle_aux (malloc_player : bool) cfg d :
  match audio_player_init driver new_channel init_std_mode del_channel
          malloc_player cfg d with
  | (None, d1) => live d1 = live d
  | (Some pl, d1) =>
    live d1 = live d + 1 /\
    pl = mk_audio_player (snd (fst (new_channel d)))
           (match cfg with Some c => c | None => default_audio_config end)
           AUDIO_STATE_STOPPED 80 true /\
    forall ops pl' d2,
      audio_run enable disable ops pl d1 = (pl', d2) ->
      live (audio_player_deinit driver del_channel disable (Some pl') d2)
      = live d /\
      live (audio_player_deinit driver del_channel disable (Some pl')
              (snd (audio_player_clear_buffer driver enable disable
                      (Some pl') d2)))
      = live d
  end.
Proof.
  unfold audio_player_init.
  destruct malloc_player; cbn [negb]; [|reflexivity].
  pose proof (new_channel_live d) as NL.
  pose proof (new_channel_handle d) as NH.
  destruct (new_channel d) as [[r h] d1]. cbn [fst snd] in NL, NH |- *.
  destruct (esp_err_is_ok r); cbn [negb]; [|exact NL].
  pose proof (init_std_mode_live h
                (match cfg with Some c => c | None => default_audio_config end)
                d1) as IL.
  destruct (init_std_mode h _ d1) as [r2 d2]. cbn [snd] in IL.
  destruct (esp_err_is_ok r2); cbn [negb].
  - split; [lia|]. split; [reflexivity|].
    intros ops pl' d3 R.
    destruct (audio_run_live _ _ _ _ _ R) as (L & I & T).
    cbn [a_initialized tx_handle] in I, T.
    assert (T' : tx_handle pl' <> 0) by (rewrite T; apply NH; reflexivity).
    rewrite !audio_player_deinit_live, audio_player_clear_buffer_live
      by assumption.
    lia.
  - rewrite del_channel_live. lia.
Qed.

End LifeCycle.

(** X30. For a driver that counts its channels (a successful
    i2s_new_channel adds one and yields a non-null handle, a failed one
    adds none, i2s_del_channel removes one, the other calls add and
    remove none): audio_player_init that returns NULL leaves the number
    of channels as it was, also when the channel had been created and
    its configuration failed.  When it returns a player, the player is
    initialized, stopped, at volume 80, with the given configuration or
    the default one, and one channel has been added; after any
    sequence of start, stop, pause and resume, audio_player_deinit
    (with or without a buffer clear before it) brings the number of
    channels back to what it was before the initialisation. *)
Theorem audio_player_life_cycle :
  forall (driver : Type) (live : driver -> Z)
         (new_channel : driver -> esp_err_t * Z * driver)
         (init_std_mode : Z -> audio_config_t -> driver -> esp_err_t * driver)
         (del_channel : Z -> driver -> driver)
         (enable disable : Z -> driver -> esp_err_t * driver),
    (forall d,
        live (snd (new_channel d))
        = if esp_err_is_ok (fst (fst (new_channel d)))
          then live d + 1 else live d) ->
    (forall d,
        esp_err_is_ok (fst (fst (new_channel d))) = true ->
        snd (fst (new_channel d)) <> 0) ->
    (forall h c d, live (snd (init_std_mode h c d)) = live d) ->
    (forall h d, live (del_channel h d) = live d - 1) ->
    (forall h d, live (snd (enable h d)) = live d) ->
    (forall h d, live (snd (disable h d)) = live d) ->
    forall (malloc_player : bool) cfg d,
      match audio_player_init driver new_channel init_std_mode del_channel
              malloc_player cfg d with
      | (None, d1) => live d1 = live d
      | (Some pl, d1) =>
        live d1 = live d + 1 /\
        pl = mk_audio_player (snd (fst (new_channel d)))
               (match cfg with Some c => c | None => default_audio_config end)
               AUDIO_STATE_STOPPED 80 true /\
        forall ops pl' d2,
          audio_run enable disable ops pl d1 = (pl', d2) ->
          live (audio_player_deinit driver del_channel disable (Some pl') d2)
          = live d /\
          live (audio_player_deinit driver del_channel disable (Some pl')
                  (snd (audio_player_clear_buffer driver enable disable
                          (Some pl') d2)))
          = live d
      end.
Proof.
  intros driver live new_channel init_std_mode del_channel enable disable
         H1 H2 H3 H4 H5 H6 malloc_player cfg d.
  apply (audio_player_life_cycle_aux driver live new_channel init_std_mode
           del_channel enable disable H1 H2 H3 H4 H5 H6).
Qed.

Lemma audio_player_life_cycle_witness :
  let new_channel := fun d : Z => (ESP_OK, 7, d + 1) in
  let refuse := fun (_ : Z) (_ : audio_config_t) (d : Z) => (ESP_FAIL, d) in
  let grant := fun (_ : Z) (_ : audio_config_t) (d : Z) => (ESP_OK, d) in
  let del_channel := fun (_ : Z) (d : Z) => d - 1 in
  let switch := fun (_ : Z) (d : Z) => (ESP_OK, d) in
  audio_player_init Z new_channel refuse del_channel true None 3 = (None, 3)
  /\
  audio_player_init Z new_channel grant del_channel true None 3
  = (Some demo_audio_player, 4)
  /\
  forall ops,
    audio_player_deinit Z del_channel switch
      (Some (fst (audio_run switch switch ops demo_audio_player 4)))
      (snd (audio_run switch switch ops demo_audio_player 4))
    = 3.
Proof.
  intros new_channel refuse grant del_channel switch.
  split; [reflexivity|]. split; [reflexivity|].
  intros ops.
  pose proof (audio_player_life_cycle Z (fun d => d) new_channel grant
                del_channel switch switch
                ltac:(intros; reflexivity)
                ltac:(intros d _ C; discriminate C)
                ltac:(intros; reflexivity)
                ltac:(intros; reflexivity)
                ltac:(intros; reflexivity)
                ltac:(intros; reflexivity)
                true None 3) as A.
  hnf in A. destruct A as (_ & _ & K).
  destruct (audio_run switch switch ops demo_audio_player 4) as [pl' d2] eqn:R.
  exact (proj1 (K ops pl' d2 R)).
Defined.
